(** * Microsoft Graph MCP server: authentication configuration and command
      executor

    A shallow embedding of [graph_mcp/config.py] ([Settings.get_auth_config],
    [Settings.get_client_secret], [Settings.is_read_only_mode] and the field
    validators), of [graph_mcp/services/graph_service.py]
    ([GraphService.execute_command] and its helpers) and of the handlers of
    [graph_mcp/main.py], with the properties the specification states about
    them and further properties of the code. *)

From Stdlib Require Import PrimFloat Ascii String.
From stdpp Require Import base strings list gmap pretty.

Local Open Scope string_scope.

(** ** Python values *)

(** The values that travel through the service: request bodies, parsed JSON
    responses and the result dictionaries.  A Python [float] is an IEEE 754
    double. *)
#[warnings="-register-all"]
Inductive pyval : Type :=
  | PNone
  | PBool (b : bool)
  | PInt (z : Z)
  | PFloat (f : float)
  | PStr (s : string)
  | PList (l : list pyval)
  | PDict (d : gmap string pyval).

(** A Python [dict] with string keys. *)
Abbreviation dict := (gmap string pyval).

(** Truth value of [Optional[str]]: [None] and the empty string are falsy. *)
Definition truthy_str (o : option string) : bool :=
  match o with
  | Some (String _ _) => true
  | _ => false
  end.

(** Truth value of an arbitrary value ([bool(v)]). *)
Definition truthy (v : pyval) : bool :=
  match v with
  | PNone => false
  | PBool b => b
  | PInt z => negb (z =? 0)%Z
  | PFloat f => negb (PrimFloat.eqb f 0%float)
  | PStr s => truthy_str (Some s)
  | PList l => match l with [] => false | _ => true end
  | PDict d => negb (bool_decide (d = ∅))
  end.

(** [a or b] on [Optional[str]]: the first operand when it is truthy, the
    second one (whatever it is) otherwise. *)
Definition py_or (a b : option string) : option string :=
  if truthy_str a then a else b.

(** [a or "literal"]: here the second operand is a plain string, and so is
    the value. *)
Definition py_or_str (a : option string) (b : string) : string :=
  match a with
  | Some (String c s) => String c s
  | _ => b
  end.

(** [type(v).__name__]. *)
Definition py_type_name (v : pyval) : string :=
  match v with
  | PNone => "NoneType"
  | PBool _ => "bool"
  | PInt _ => "int"
  | PFloat _ => "float"
  | PStr _ => "str"
  | PList _ => "list"
  | PDict _ => "dict"
  end.

(** What is defined in the interpreter and its standard library:
    [str.upper] (Unicode aware), the text [str(v)] gives for a value that is
    not already a string (used by f-strings), and [json.dumps(v, indent=2)],
    which returns the text ([inr]) or raises an exception, a [TypeError], a
    [ValueError] or a [RecursionError], whose message is [inl]. *)
Class PyBuiltins : Type := {
  str_upper : string → string;
  py_repr : pyval → string;
  json_dumps : pyval → string + string
}.

(** [f"{v}"]: a string is inserted as it is. *)
Definition py_str `{PyBuiltins} (v : pyval) : string :=
  match v with
  | PStr s => s
  | _ => py_repr v
  end.

(** ** config.py *)

Module Config.

Inductive Mode : Type := ModeCustom | ModeDefault.
Inductive AuthMode : Type := ClientSecret | DeviceCode.

#[global] Instance Mode_eq_dec : EqDecision Mode.
Proof. solve_decision. Defined.
#[global] Instance AuthMode_eq_dec : EqDecision AuthMode.
Proof. solve_decision. Defined.

(** The fields of [Settings] that the authentication code reads. *)
Record Settings : Type := {
  graph_tenant_id : option string;
  graph_client_id : string;
  custom_client_id : option string;
  custom_tenant_id : option string;
  custom_client_secret : option string;
  use_app_reg_clientid : option string;
  tenantid : option string;
  client_secret : option string;
  graph_client_secret : option string
}.

(** The dictionary built by [get_auth_config]; its keys are fixed, and
    ["mode"] and ["auth_mode"] each take one of two string tags. *)
Record AuthConfig : Type := {
  mode : Mode;
  client_id : string;
  tenant_id : string;
  auth_mode : AuthMode;
  scopes : list string
}.

Definition default_scope : string := "https://graph.microsoft.com/.default".

Definition get_auth_config (s : Settings) : AuthConfig :=
  let client_id := py_or (use_app_reg_clientid s) (custom_client_id s) in
  let tenant_id := py_or (tenantid s) (custom_tenant_id s) in
  match client_id, tenant_id with
  | Some (String a c), Some (String b t) =>
      {| mode := ModeCustom;
         client_id := String a c;
         tenant_id := String b t;
         auth_mode := ClientSecret;
         scopes := [default_scope] |}
  | _, _ =>
      {| mode := ModeDefault;
         client_id := graph_client_id s;
         tenant_id := py_or_str (graph_tenant_id s) "common";
         auth_mode := DeviceCode;
         scopes := [default_scope] |}
  end.

Definition get_client_secret (s : Settings) : option string :=
  py_or (py_or (client_secret s) (custom_client_secret s)) (graph_client_secret s).

Definition is_read_only_mode (s : Settings) : bool :=
  let client_id := py_or (use_app_reg_clientid s) (custom_client_id s) in
  let tenant_id := py_or (tenantid s) (custom_tenant_id s) in
  negb (truthy_str client_id && truthy_str tenant_id).

(** The specification's reading of an alias group: the first entry that is
    present and not empty. *)
Fixpoint first_non_empty (aliases : list (option string)) : option string :=
  match aliases with
  | [] => None
  | Some (String a s) :: _ => Some (String a s)
  | _ :: rest => first_non_empty rest
  end.

(** *** The field validators *)

(** [s.split(sep)] for a separator of one character. *)
Fixpoint split (sep : ascii) (s : string) : list string :=
  match s with
  | EmptyString => [EmptyString]
  | String c s' =>
      if Ascii.eqb c sep then EmptyString :: split sep s'
      else
        match split sep s' with
        | piece :: rest => String c piece :: rest
        | [] => [String c EmptyString]
        end
  end.

Definition valid_levels : list string :=
  ["DEBUG"; "INFO"; "WARNING"; "ERROR"; "CRITICAL"].

Section Validators.
Context `{PyBuiltins}.

(** [str.strip] (Unicode aware), defined in the interpreter. *)
Variable str_strip : string → string.

(** [validate_log_level]; [inl msg] is [raise ValueError(msg)]. *)
Definition validate_log_level (v : string) : string + string :=
  if bool_decide (str_upper v ∉ valid_levels) then
    inl ("Invalid log level: " +:+ v
         +:+ ". Must be one of ['DEBUG', 'INFO', 'WARNING', 'ERROR', 'CRITICAL']")
  else inr (str_upper v).

(** [validate_graph_scopes]: the value is a string ([inl]) or already a
    list of strings ([inr]). *)
Definition validate_graph_scopes (v : string + list string) : list string :=
  match v with
  | inl text => (λ scope, str_strip scope) <$> split ","%char text
  | inr scopes => scopes
  end.

End Validators.

End Config.


(** ** services/graph_service.py *)

Module GraphSvc.

(** The exceptions the executor tells apart, by class; [Exception] stands
    for an instance of any other subclass of Python's [Exception] (what
    azure-identity, httpx and json raise), and [BaseException] for an
    exception that is no instance of [Exception]: [asyncio.CancelledError],
    raised in a task that is cancelled while it awaits, [KeyboardInterrupt],
    [SystemExit].  Each carries [str(e)]. *)
Inductive exn : Type :=
  | TimeoutError (msg : string)
  | JSONDecodeError (msg : string)
  | AttributeError (msg : string)
  | Exception (msg : string)
  | BaseException (msg : string).

Definition str_exn (e : exn) : string :=
  match e with
  | TimeoutError msg | JSONDecodeError msg | AttributeError msg
  | Exception msg | BaseException msg => msg
  end.

(** The two credential classes of azure-identity, with the arguments the
    service passes.  A [DeviceCodeCredential] is always built with
    [prompt_callback=self._device_code_callback]; a
    [ClientSecretCredential] has no callback. *)
Inductive Credential : Type :=
  | ClientSecretCredential (tenant_id client_id : string)
      (client_secret : option string)
  | DeviceCodeCredential (client_id tenant_id : string).

(** The dictionary stored by [_device_code_callback]. *)
Record DeviceCodeInfo : Type := {
  verification_uri : string;
  user_code : string;
  expires_in : Z
}.

Record AccessToken : Type := { token : string }.

Inductive Verb : Type := GET | POST | PUT | PATCH | DELETE.

(** One call on the [httpx.AsyncClient]: [req_json] is the [json=] argument
    (POST, PUT and PATCH pass [data]; GET and DELETE take none). *)
Record Request : Type := {
  req_verb : Verb;
  req_url : string;
  req_headers : gmap string string;
  req_json : option pyval
}.

(** What the service reads of an [httpx.Response]: [json] is the outcome of
    [response.json()]. *)
Record Response : Type := {
  status_code : Z;
  text : string;
  json : exn + pyval
}.

(** One attempt at [credential.get_token] under [asyncio.wait_for]: the
    arguments with which the provider called the prompt callback before the
    attempt ended (if it did), and how the attempt ended; exceeding the three
    second bound ends it with [TimeoutError]. *)
Record TokenAttempt : Type := {
  prompt : option DeviceCodeInfo;
  token_result : exn + AccessToken
}.

(** The behaviour of the identity provider, of the HTTP client and of the
    remote API during one call of [execute_command]: what the constructor of
    a credential raises (if anything), how a token attempt goes, what
    entering and leaving the [httpx.AsyncClient] context raise (if
    anything), and how a request is answered. *)
Record Env : Type := {
  cred_init : Credential → option exn;
  cred_get_token : Credential → list string → TokenAttempt;
  client_enter : option exn;
  client_exit : option exn;
  http_request : Request → exn + Response
}.

(** What a call does to the outside, in order. *)
Inductive event : Type :=
  | EvCredential (c : Credential)
  | EvGetToken (c : Credential) (scopes : list string)
  | EvHttp (r : Request).

(** The attributes of a [GraphService] object (the logger apart). *)
Record GraphService : Type := {
  settings : Config.Settings;
  device_code_info : option DeviceCodeInfo;
  credential : option Credential;
  client_secret : option string;
  auth_config : Config.AuthConfig
}.

Definition set_device_code_info (i : option DeviceCodeInfo)
    (s : GraphService) : GraphService :=
  {| settings := settings s; device_code_info := i;
     credential := credential s; client_secret := client_secret s;
     auth_config := auth_config s |}.

Definition set_credential (c : option Credential)
    (s : GraphService) : GraphService :=
  {| settings := settings s; device_code_info := device_code_info s;
     credential := c; client_secret := client_secret s;
     auth_config := auth_config s |}.

Definition set_client_secret (x : option string)
    (s : GraphService) : GraphService :=
  {| settings := settings s; device_code_info := device_code_info s;
     credential := credential s; client_secret := x;
     auth_config := auth_config s |}.

(** [GraphService.__init__]. *)
Definition init (s : Config.Settings) : GraphService :=
  {| settings := s;
     device_code_info := None;
     credential := None;
     client_secret := Config.get_client_secret s;
     auth_config := Config.get_auth_config s |}.

(** *** The monad of a call: the object, the trace, and a raised exception

    An assignment made before an exception is raised stays made. *)
Record World : Type := { svc : GraphService; trace : list event }.

Definition M (A : Type) : Type := World → World * (exn + A).

#[global] Instance M_ret : MRet M := λ A a w, (w, inr a).

#[global] Instance M_bind : MBind M := λ A B f m w,
  match m w with
  | (w', inr a) => f a w'
  | (w', inl e) => (w', inl e)
  end.

Definition raise {A : Type} (e : exn) : M A := λ w, (w, inl e).

(** [try: m  except ...: h]: [h e] is the handler of the first [except]
    clause that matches [e], [None] when no clause does. *)
Definition try_except {A : Type} (m : M A) (h : exn → option (M A)) : M A :=
  λ w,
    match m w with
    | (w', inl e) =>
        match h e with
        | Some k => k w'
        | None => (w', inl e)
        end
    | r => r
    end.

(** The clause [except Exception as e: k e]: it matches the instances of
    [Exception] and no other exception. *)
Definition except_Exception {A : Type} (k : exn → M A) (e : exn)
    : option (M A) :=
  match e with
  | BaseException _ => None
  | _ => Some (k e)
  end.

(** [async with httpx.AsyncClient() as client: body]: the client is made
    and entered, the body runs, and the client is closed whether the body
    returned or raised; an exception of the exit replaces the outcome of the
    body. *)
Definition with_client {A : Type} (env : Env) (body : M A) : M A :=
  match client_enter env with
  | Some e => raise e
  | None =>
      λ w,
        let '(w', r) := body w in
        match client_exit env with
        | Some e => (w', inl e)
        | None => (w', r)
        end
  end.

Definition self : M GraphService := λ w, (w, inr (svc w)).

Definition assign (f : GraphService → GraphService) : M unit :=
  λ w, ({| svc := f (svc w); trace := trace w |}, inr ()).

Definition emit (e : event) : M unit :=
  λ w, ({| svc := svc w; trace := trace w ++ [e] |}, inr ()).

(** Running a call on an object, from an empty trace. *)
Definition run {A : Type} (m : M A) (s : GraphService)
    : GraphService * list event * (exn + A) :=
  let '(w, r) := m {| svc := s; trace := [] |} in (svc w, trace w, r).

(** *** Strings *)

Definition dq : string := String "034"%char EmptyString.

(** [sub in s]. *)
Fixpoint contains (sub s : string) : bool :=
  String.prefix sub s ||
  match s with
  | EmptyString => false
  | String _ s' => contains sub s'
  end.

(** [s.lstrip('/')]. *)
Fixpoint lstrip_slash (s : string) : string :=
  match s with
  | String "/"%char s' => lstrip_slash s'
  | _ => s
  end.

Definition client_secret_instructions (cid tid : string) : string :=
  "
CLIENT SECRET REQUIRED:

Your custom app registration requires a client secret for authentication.

App Registration Details:
• Client ID: " +:+ cid +:+ "
• Tenant ID: " +:+ tid +:+ "

To complete authentication, you can either:

OPTION 1 - Provide via parameter (temporary):
{
  " +:+ dq +:+ "command" +:+ dq +:+ ": " +:+ dq +:+ "users" +:+ dq +:+ ",
  " +:+ dq +:+ "method" +:+ dq +:+ ": " +:+ dq +:+ "GET" +:+ dq +:+ ", 
  " +:+ dq +:+ "client_secret" +:+ dq +:+ ": " +:+ dq +:+ "your-app-secret-here" +:+ dq +:+ "
}

OPTION 2 - Set as environment variable (persistent):
Add to your MCP configuration:
  " +:+ dq +:+ "env" +:+ dq +:+ ": {
    " +:+ dq +:+ "CLIENT_SECRET" +:+ dq +:+ ": " +:+ dq +:+ "your-app-secret-here" +:+ dq +:+ "
  }

Or use Docker args:
  " +:+ dq +:+ "-e" +:+ dq +:+ ", " +:+ dq +:+ "CLIENT_SECRET=your-app-secret-here" +:+ dq +:+ "

If you don't have a client secret:
- Go to Azure Portal > Azure Active Directory > App registrations
- Find your app registration (Client ID: " +:+ cid +:+ ")
- Go to Certificates & secrets > New client secret
- Copy the secret VALUE (not the ID)

The client secret will be cached for subsequent requests in this session.
".

Definition device_code_instructions (info : DeviceCodeInfo) : string :=
  "
AUTHENTICATION REQUIRED:

1. Open this URL in your browser: " +:+ verification_uri info +:+ "
2. Enter this code: " +:+ user_code info +:+ "
3. Complete the sign-in process with your Microsoft account
4. This code expires in " +:+ pretty (expires_in info) +:+ " seconds
5. After successful authentication, try your request again

The authentication will be cached for future requests.
".

Definition invalid_secret_instructions (cid tid : string) : string :=
  "
CLIENT SECRET ERROR:

The client secret you provided is invalid. This could be because:

1. You copied the Secret ID instead of the Secret Value
   - In Azure Portal, use the VALUE column, not the Secret ID
   - The value should look like: 0pz8Q~~xfcUDmn0...
   - NOT the ID like: 74edbec7-9b02-44d6-b091-3df29daa1a2c

2. The client secret has expired
   - Check the expiration date in Azure Portal
   - Create a new client secret if needed

3. The client secret was incorrectly copied
   - Make sure you copied the complete value
   - Avoid extra spaces or characters

App Registration Details:
• Client ID: " +:+ cid +:+ "
• Tenant ID: " +:+ tid +:+ "

Please verify your client secret and try again.
".

(** *** The service *)

Section Service.
Context `{PyBuiltins}.

(** [_device_code_callback]. *)
Definition _device_code_callback (verification_uri user_code : string)
    (expires_in : Z) : M unit :=
  assign (set_device_code_info
            (Some {| verification_uri := verification_uri;
                     user_code := user_code;
                     expires_in := expires_in |})).

(** The dictionary of lines 61-103: the prompt for the client secret. *)
Definition client_secret_prompt (cid tid : string) : dict :=
  {[ "success" := PBool false;
     "error" := PStr "Client secret required for custom app registration";
     "auth_required" := PBool true;
     "auth_type" := PStr "client_secret";
     "client_id" := PStr cid;
     "tenant_id" := PStr tid;
     "instructions" := PStr (client_secret_instructions cid tid) ]}.

(** [_get_client_secret]. *)
Definition _get_client_secret : M dict :=
  s ← self;
  if negb (truthy_str (client_secret s)) then
    mret (client_secret_prompt (Config.client_id (auth_config s))
            (Config.tenant_id (auth_config s)))
  else
    mret ({[ "success" := PBool true ]} : dict).

(** A call of a credential class: the constructor may raise. *)
Definition construct (env : Env) (c : Credential) : M Credential :=
  emit (EvCredential c);;
  match cred_init env c with
  | Some e => raise e
  | None => mret c
  end.

(** [execute_command], lines 115-137: create the credential when there is
    none.  [inl d] is the early [return d]. *)
Definition ensure_credential (env : Env) : M (dict + unit) :=
  s ← self;
  match credential s with
  | Some _ => mret (inr ())
  | None =>
      let cfg := auth_config s in
      match Config.mode cfg with
      | Config.ModeCustom =>
          r ← (if negb (truthy_str (client_secret s)) then
                 secret_result ← _get_client_secret;
                 if negb (truthy (default (PBool true) (secret_result !! "success")))
                 then mret (inl secret_result)
                 else mret (inr ())
               else mret (inr ()));
          match r with
          | inl secret_result => mret (inl secret_result)
          | inr _ =>
              s ← self;
              c ← construct env
                     (ClientSecretCredential (Config.tenant_id cfg)
                        (Config.client_id cfg) (client_secret s));
              assign (set_credential (Some c));;
              mret (inr ())
          end
      | Config.ModeDefault =>
          c ← construct env
                 (DeviceCodeCredential (Config.client_id cfg)
                    (Config.tenant_id cfg));
          assign (set_credential (Some c));;
          mret (inr ())
      end
  end.

(** [self.credential.get_token( *scopes )] under [asyncio.wait_for]: a
    device-code credential calls its prompt callback when the provider asks
    for user action. *)
Definition get_token (env : Env) : M AccessToken :=
  s ← self;
  match credential s with
  | None =>
      raise (AttributeError "'NoneType' object has no attribute 'get_token'")
  | Some c =>
      let scopes := Config.scopes (auth_config s) in
      emit (EvGetToken c scopes);;
      let attempt := cred_get_token env c scopes in
      match c, prompt attempt with
      | DeviceCodeCredential _ _, Some i =>
          _device_code_callback (verification_uri i) (user_code i)
            (expires_in i)
      | _, _ => mret ()
      end;;
      match token_result attempt with
      | inl e => raise e
      | inr t => mret t
      end
  end.

(** The dictionary returned when a device code is pending (lines 158-176
    and, word for word, lines 193-211). *)
Definition device_code_result (info : DeviceCodeInfo) : dict :=
  {[ "success" := PBool false;
     "error" := PStr "Device code authentication required";
     "auth_required" := PBool true;
     "verification_uri" := PStr (verification_uri info);
     "user_code" := PStr (user_code info);
     "expires_in" := PInt (expires_in info);
     "instructions" := PStr (device_code_instructions info) ]}.

(** The dictionary of lines 178-183. *)
Definition timeout_result : dict :=
  {[ "success" := PBool false;
     "error" := PStr "Authentication timeout";
     "auth_required" := PBool true;
     "instructions" := PStr "Authentication timed out. Please try again." ]}.

(** The dictionary of lines 218-247. *)
Definition invalid_secret_result (cid tid error_msg : string) : dict :=
  {[ "success" := PBool false;
     "error" := PStr "Invalid client secret provided";
     "auth_required" := PBool true;
     "error_details" := PStr error_msg;
     "instructions" := PStr (invalid_secret_instructions cid tid) ]}.

(** The dictionary of lines 250-255. *)
Definition auth_failed_result (error_msg : string) : dict :=
  {[ "success" := PBool false;
     "error" := PStr ("Authentication failed: " +:+ error_msg);
     "auth_required" := PBool true;
     "instructions" :=
       PStr "Please try again. If the issue persists, you may need to clear cached credentials." ]}.

(** The handler of [except asyncio.TimeoutError] (lines 155-183). *)
Definition on_timeout : M (dict + AccessToken) :=
  s ← self;
  match device_code_info s with
  | Some info => mret (inl (device_code_result info))
  | None => mret (inl timeout_result)
  end.

(** The handler of [except Exception as auth_error] (lines 185-255). *)
Definition on_auth_error (auth_error : exn) : M (dict + AccessToken) :=
  assign (set_credential None);;
  s ← self;
  match device_code_info s with
  | Some info => mret (inl (device_code_result info))
  | None =>
      let error_msg := str_exn auth_error in
      if contains "AADSTS7000215" error_msg
         || contains "Invalid client secret" error_msg
      then
        mret (inl (invalid_secret_result (Config.client_id (auth_config s))
                     (Config.tenant_id (auth_config s)) error_msg))
      else
        mret (inl (auth_failed_result error_msg))
  end.

(** Lines 146-255: the token request and its two handlers. *)
Definition acquire_token (env : Env) : M (dict + AccessToken) :=
  try_except (access_token ← get_token env; mret (inr access_token))
    (λ e, match e with
          | TimeoutError _ => Some on_timeout
          | _ => except_Exception on_auth_error e
          end).

(** Lines 111-255 of [execute_command]: everything up to the token. *)
Definition authenticate (env : Env) (client_secret_param : option string)
    : M (dict + AccessToken) :=
  (if truthy_str client_secret_param
   then assign (set_client_secret client_secret_param)
   else mret ());;
  r ← ensure_credential env;
  match r with
  | inl early => mret (inl early)
  | inr _ =>
      assign (set_device_code_info None);;
      acquire_token env
  end.

(** A call on the HTTP client. *)
Definition send (env : Env) (r : Request) : M Response :=
  emit (EvHttp r);;
  match http_request env r with
  | inl e => raise e
  | inr response => mret response
  end.

(** The dictionary of lines 281-284. *)
Definition unsupported_method_result (method : string) : dict :=
  {[ "success" := PBool false;
     "error" := PStr ("Unsupported HTTP method: " +:+ method) ]}.

(** Lines 268-284: the verb named by [method.upper()]; any other method is
    the early [return] of the failure dictionary. *)
Definition dispatch (env : Env) (url : string) (headers : gmap string string)
    (method : string) (data : option pyval) : M (dict + Response) :=
  let request verb body :=
    response ← send env {| req_verb := verb; req_url := url;
                           req_headers := headers; req_json := body |};
    mret (inr response) in
  if String.eqb (str_upper method) "GET" then request GET None
  else if String.eqb (str_upper method) "POST" then request POST data
  else if String.eqb (str_upper method) "PUT" then request PUT data
  else if String.eqb (str_upper method) "PATCH" then request PATCH data
  else if String.eqb (str_upper method) "DELETE" then request DELETE None
  else mret (inl (unsupported_method_result method)).

(** [response.json()]. *)
Definition response_json (response : Response) : M pyval :=
  match json response with
  | inl e => raise e
  | inr v => mret v
  end.

(** [v.get(key, dflt)]: only a [dict] has the method. *)
Definition py_get (v : pyval) (key : string) (dflt : pyval) : M pyval :=
  match v with
  | PDict d => mret (default dflt (d !! key))
  | _ =>
      raise (AttributeError
               ("'" +:+ py_type_name v +:+ "' object has no attribute 'get'"))
  end.

Definition except_JSONDecodeError {A : Type} (k : M A) (e : exn)
    : option (M A) :=
  match e with
  | JSONDecodeError _ => Some k
  | _ => None
  end.

(** The dictionaries of lines 291-295, 299-303 and 306-310. *)
Definition no_content_result (sc : Z) : dict :=
  {[ "success" := PBool true;
     "data" := PDict {[ "message" :=
       PStr "Operation completed successfully (no content returned)" ]};
     "status_code" := PInt sc ]}.

Definition data_result (data : pyval) (sc : Z) : dict :=
  {[ "success" := PBool true; "data" := data; "status_code" := PInt sc ]}.

Definition text_result (response_text : string) (sc : Z) : dict :=
  {[ "success" := PBool true;
     "data" := PDict {[ "message" := PStr "Operation completed successfully";
                        "response_text" := PStr response_text ]};
     "status_code" := PInt sc ]}.

(** The dictionaries of lines 315-320 and 322-326. *)
Definition http_error_result (sc : Z) (message : string) (error_data : pyval)
    : dict :=
  {[ "success" := PBool false;
     "error" := PStr ("HTTP " +:+ pretty sc +:+ ": " +:+ message);
     "status_code" := PInt sc;
     "error_details" := error_data ]}.

Definition http_error_text_result (sc : Z) (response_text : string) : dict :=
  {[ "success" := PBool false;
     "error" := PStr ("HTTP " +:+ pretty sc +:+ ": " +:+ response_text);
     "status_code" := PInt sc ]}.

(** Lines 288-326: the result dictionary of a response. *)
Definition handle_response (response : Response) : M dict :=
  let sc := status_code response in
  if bool_decide (sc ∈ [200; 201; 202; 204]%Z) then
    if bool_decide (sc = 204%Z) then mret (no_content_result sc)
    else
      try_except
        (data ← response_json response;
         mret (data_result data sc))
        (except_JSONDecodeError (mret (text_result (text response) sc)))
  else
    try_except
      (error_data ← response_json response;
       error ← py_get error_data "error" (PDict ∅);
       message ← py_get error "message" (PStr (text response));
       mret (http_error_result sc (py_str message) error_data))
      (except_JSONDecodeError
         (mret (http_error_text_result sc (text response)))).

(** Lines 269-326: the suite of the [async with] statement. *)
Definition request_body (env : Env) (url : string)
    (headers : gmap string string) (method : string) (data : option pyval)
    : M dict :=
  r ← dispatch env url headers method data;
  match r with
  | inl early => mret early
  | inr response => handle_response response
  end.

(** [json.dumps(v, indent=2)], with the exception it raises. *)
Definition dumps (v : pyval) : exn + string :=
  match json_dumps v with
  | inl msg => inl (Exception msg)
  | inr text => inr text
  end.

(** Lines 265-266: the body of the request is written to the log, which
    serializes it, when it is truthy. *)
Definition log_request_body (data : option pyval) : M unit :=
  match data with
  | Some v =>
      if truthy v then
        match dumps v with
        | inl e => raise e
        | inr _ => mret ()
        end
      else mret ()
  | None => mret ()
  end.

(** Lines 257-326 of [execute_command]: the request and its result, inside
    the client context. *)
Definition request (env : Env) (command method : string)
    (data : option pyval) (access_token : AccessToken) : M dict :=
  let url := "https://graph.microsoft.com/v1.0/" +:+ lstrip_slash command in
  let headers : gmap string string :=
    {[ "Authorization" := "Bearer " +:+ token access_token;
       "Content-Type" := "application/json" ]} in
  log_request_body data;;
  with_client env (request_body env url headers method data).

(** The suite of the [try] statement that is the body of
    [execute_command]. *)
Definition execute_body (env : Env) (command method : string)
    (data : option pyval) (client_secret_param : option string) : M dict :=
  r ← authenticate env client_secret_param;
  match r with
  | inl early => mret early
  | inr access_token => request env command method data access_token
  end.

(** The dictionary of lines 330-333. *)
Definition fault_result (e : exn) : dict :=
  {[ "success" := PBool false; "error" := PStr (str_exn e) ]}.

(** [execute_command]: [try: <body>  except Exception as e: return {...}]. *)
Definition execute_command (env : Env) (command method : string)
    (data : option pyval) (client_secret_param : option string) : M dict :=
  try_except (execute_body env command method data client_secret_param)
    (except_Exception (λ e, mret (fault_result e))).

End Service.

(** [str.upper] on ASCII text. *)
Definition ascii_upper_char (c : ascii) : ascii :=
  let n := nat_of_ascii c in
  if (97 <=? n)%nat && (n <=? 122)%nat then ascii_of_nat (n - 32) else c.

Fixpoint ascii_upper (s : string) : string :=
  match s with
  | EmptyString => EmptyString
  | String c s' => String (ascii_upper_char c) (ascii_upper s')
  end.

(** The states a service object goes through: [__init__], then calls of
    [execute_command] with any arguments, whatever the provider and the API
    do. *)
Inductive reachable `{PyBuiltins} (cfg : Config.Settings)
    : GraphService → Prop :=
  | reachable_init : reachable cfg (init cfg)
  | reachable_call s env command method data secret :
      reachable cfg s →
      reachable cfg
        (run (execute_command env command method data secret) s).1.1.

End GraphSvc.

Import GraphSvc.

#[global] Arguments client_secret_instructions : simpl never.
#[global] Arguments device_code_instructions : simpl never.
#[global] Arguments invalid_secret_instructions : simpl never.
#[global] Arguments contains : simpl never.
#[global] Arguments lstrip_slash : simpl never.

(** ** main.py *)

Module Main.

Definition nl : string := String "010"%char EmptyString.

(** [mcp.types.TextContent], [Tool] and [Resource], with the fields the
    server fills in. *)
Record TextContent : Type := { type : string; text : string }.

Record Tool : Type := {
  name : string;
  description : string;
  inputSchema : pyval
}.

Record Resource : Type := {
  uri : string;
  resource_name : string;
  resource_description : string;
  mimeType : string
}.

(** The [arguments] dictionary of a tool call, as the input schema of the
    tool admits it: each of the four keys is absent or holds a value of its
    declared type (a string, or an object for [data]). *)
Record Arguments : Type := {
  command : option string;
  method : option string;
  data : option dict;
  client_secret : option string
}.

(** [list_tools]. *)
Definition list_tools : list Tool :=
  [ {| name := "graph_command";
       description :=
         "Execute Microsoft Graph API commands. Supports GET, POST, PUT, PATCH, DELETE operations.";
       inputSchema :=
         PDict {[
           "type" := PStr "object";
           "properties" := PDict {[
             "command" := PDict {[
               "type" := PStr "string";
               "description" :=
                 PStr "Graph API endpoint (e.g., 'users', 'me', 'groups', 'devices')" ]};
             "method" := PDict {[
               "type" := PStr "string";
               "enum" := PList [PStr "GET"; PStr "POST"; PStr "PUT";
                                PStr "PATCH"; PStr "DELETE"];
               "default" := PStr "GET";
               "description" := PStr "HTTP method to use" ]};
             "data" := PDict {[
               "type" := PStr "object";
               "description" :=
                 PStr "Request body data (for POST, PUT, PATCH operations)" ]};
             "client_secret" := PDict {[
               "type" := PStr "string";
               "description" :=
                 PStr "Azure AD client secret (optional, for authenticated operations)" ]} ]};
           "required" := PList [PStr "command"] ]} |} ].

(** [list_resources]. *)
Definition list_resources : list Resource :=
  [ {| uri := "graph://help";
       resource_name := "Microsoft Graph Help";
       resource_description :=
         "Help and examples for using Microsoft Graph API";
       mimeType := "text/plain" |} ].

(** The text returned by [read_resource] for [graph://help]. *)
Definition help_text : string :=
  "
# Microsoft Graph MCP Server Help

This server provides access to Microsoft Graph API endpoints through MCP tools.

## Authentication

The server supports two authentication modes:

1. **Device Code Flow (Recommended for read-only operations)**
   - No client secret required
   - Opens browser for authentication
   - Suitable for user-delegated permissions

2. **Client Secret Flow (For application permissions)**
   - Requires client secret
   - Suitable for automated operations
   - Pass client_secret parameter to the tool

## Configuration

Set these environment variables:
- `AZURE_CLIENT_ID`: Your Azure AD application client ID
- `AZURE_TENANT_ID`: Your Azure AD tenant ID  
- `AZURE_CLIENT_SECRET`: Your client secret (optional, for app permissions)

## Examples

### Get current user info
```
graph_command(command=" +:+ dq +:+ "me" +:+ dq +:+ ")
```

### List all users
```
graph_command(command=" +:+ dq +:+ "users" +:+ dq +:+ ")
```

### Get specific user
```
graph_command(command=" +:+ dq +:+ "users/user@domain.com" +:+ dq +:+ ")
```

### Create a user (requires client secret)
```
graph_command(
    command=" +:+ dq +:+ "users" +:+ dq +:+ ", 
    method=" +:+ dq +:+ "POST" +:+ dq +:+ ",
    data={
        " +:+ dq +:+ "accountEnabled" +:+ dq +:+ ": true,
        " +:+ dq +:+ "displayName" +:+ dq +:+ ": " +:+ dq +:+ "John Doe" +:+ dq +:+ ",
        " +:+ dq +:+ "mailNickname" +:+ dq +:+ ": " +:+ dq +:+ "johndoe" +:+ dq +:+ ",
        " +:+ dq +:+ "userPrincipalName" +:+ dq +:+ ": " +:+ dq +:+ "johndoe@yourdomain.com" +:+ dq +:+ ",
        " +:+ dq +:+ "passwordProfile" +:+ dq +:+ ": {
            " +:+ dq +:+ "forceChangePasswordNextSignIn" +:+ dq +:+ ": true,
            " +:+ dq +:+ "password" +:+ dq +:+ ": " +:+ dq +:+ "TempPassword123!" +:+ dq +:+ "
        }
    },
    client_secret=" +:+ dq +:+ "your-client-secret" +:+ dq +:+ "
)
```

### Update user
```
graph_command(
    command=" +:+ dq +:+ "users/user@domain.com" +:+ dq +:+ ",
    method=" +:+ dq +:+ "PATCH" +:+ dq +:+ ", 
    data={" +:+ dq +:+ "jobTitle" +:+ dq +:+ ": " +:+ dq +:+ "Senior Developer" +:+ dq +:+ "}
)
```

### Delete user
```
graph_command(
    command=" +:+ dq +:+ "users/user@domain.com" +:+ dq +:+ ",
    method=" +:+ dq +:+ "DELETE" +:+ dq +:+ "
)
```

## Common Endpoints

- `me` - Current user info
- `users` - All users
- `groups` - All groups  
- `devices` - All devices
- `applications` - Applications
- `servicePrincipals` - Service principals
- `directoryRoles` - Directory roles
- `organization` - Organization info

For more endpoints, see: https://docs.microsoft.com/en-us/graph/api/overview
".

(** The value [read_resource] is called with: a plain string, as its
    annotation has it, or the [pydantic.AnyUrl] of the request, which is
    what the server of [mcp] passes to the registered handler.  An [AnyUrl]
    prints as its text and is equal to no string. *)
Inductive Uri : Type :=
  | UriStr (s : string)
  | AnyUrl (s : string).

(** [f"{uri}"]. *)
Definition uri_text (uri : Uri) : string :=
  match uri with
  | UriStr s | AnyUrl s => s
  end.

(** [uri == s] for a string [s]. *)
Definition uri_eq_str (uri : Uri) (s : string) : bool :=
  match uri with
  | UriStr t => String.eqb t s
  | AnyUrl _ => false
  end.

(** [read_resource]; [inl e] is [raise e]. *)
Definition read_resource (uri : Uri) : exn + string :=
  if uri_eq_str uri "graph://help" then inr help_text
  else inl (Exception ("Unknown resource: " +:+ uri_text uri)).

(** The formatting code reads and writes no object: it returns a text or
    raises. *)
#[global] Instance sum_ret : MRet (sum exn) := λ A a, inr a.

#[global] Instance sum_bind : MBind (sum exn) := λ A B f m,
  match m with
  | inl e => inl e
  | inr a => f a
  end.

Definition raise_or_return {A : Type} (r : exn + A) : M A :=
  match r with
  | inl e => raise e
  | inr a => mret a
  end.

Section Handlers.
Context `{PyBuiltins}.

(** [d.get(key)]. *)
Definition get (d : dict) (key : string) : pyval := default PNone (d !! key).

(** [d[key]]; a missing key raises [KeyError(key)]. *)
Definition item (d : dict) (key : string) : exn + pyval :=
  match d !! key with
  | Some v => inr v
  | None => inl (Exception ("'" +:+ key +:+ "'"))
  end.

(** Lines 93-97 of [call_tool]: the text of a success; [inl e] is an
    exception raised on the way. *)
Definition success_text (method command : string) (result : dict)
    : exn + string :=
  let response_text :=
    "✅ **Success** (" +:+ method +:+ " " +:+ command +:+ ")" +:+ nl +:+ nl in
  if truthy (get result "data") then
    v ← item result "data";
    j ← dumps v;
    mret (response_text +:+ "```json" +:+ nl +:+ j +:+ nl +:+ "```")
  else
    mret (response_text +:+ "Operation completed successfully.").

(** Lines 99-106 of [call_tool]: the text of a failure. *)
Definition error_text (method command : string) (result : dict)
    : exn + string :=
  let response_text :=
    "❌ **Error** (" +:+ method +:+ " " +:+ command +:+ ")" +:+ nl +:+ nl in
  let response_text :=
    response_text +:+ "**Error:** "
    +:+ py_str (default (PStr "Unknown error") (result !! "error"))
    +:+ nl +:+ nl in
  response_text ←
    (if truthy (get result "auth_required")
        && truthy (get result "instructions")
     then
       v ← item result "instructions";
       mret (response_text +:+ "**Instructions:**" +:+ nl +:+ py_str v
             +:+ nl +:+ nl)
     else mret response_text);
  if truthy (get result "error_details") then
    v ← item result "error_details";
    j ← dumps v;
    mret (response_text +:+ "**Details:**" +:+ nl +:+ "```json" +:+ nl +:+ j
          +:+ nl +:+ "```")
  else mret response_text.

(** The text of lines 112-113. *)
Definition failed_text (e : exn) : string :=
  "❌ **Tool Execution Failed**" +:+ nl +:+ nl +:+ "**Error:** " +:+ str_exn e.

(** [call_tool], on the module's [graph_service]; [env] is what the
    provider and the API do during the call. *)
Definition call_tool (env : Env) (name : string) (arguments : Arguments)
    : M (list TextContent) :=
  if negb (String.eqb name "graph_command") then
    raise (Exception ("Unknown tool: " +:+ name))
  else
    let command := default "" (command arguments) in
    let method := default "GET" (method arguments) in
    let data := PDict <$> data arguments in
    let client_secret := client_secret arguments in
    try_except
      (result ← execute_command env command method data client_secret;
       response_text ←
         raise_or_return
           (if truthy (get result "success")
            then success_text method command result
            else error_text method command result);
       mret [ {| type := "text"; text := response_text |} ])
      (except_Exception
         (λ e, mret [ {| type := "text"; text := failed_text e |} ])).

End Handlers.

(** The states of the module's [graph_service] during a server session:
    [GraphService(settings)], then tool calls. *)
Inductive session `{PyBuiltins} (cfg : Config.Settings)
    : GraphService → Prop :=
  | session_start : session cfg (init cfg)
  | session_call s env name arguments :
      session cfg s →
      session cfg (run (call_tool env name arguments) s).1.1.

End Main.

#[global] Arguments Main.help_text : simpl never.

(** ** Vocabulary of the properties *)

(** A failure result: [success] is [False] and [error] holds a message. *)
Definition failure (d : dict) : Prop :=
  d !! "success" = Some (PBool false) ∧ ∃ msg, d !! "error" = Some (PStr msg).

(** A structured result: a success with its payload and status, or a
    failure. *)
Definition structured (d : dict) : Prop :=
  (d !! "success" = Some (PBool true)
   ∧ is_Some (d !! "data") ∧ is_Some (d !! "status_code"))
  ∨ failure d.

(** The secret the object holds once the per-call override is stored. *)
Definition stored_secret (s : GraphService) (override : option string)
    : option string :=
  if truthy_str override then override else client_secret s.

(** The credential a call works with: the cached one, or else the one the
    mode asks for. *)
Definition credential_for_call (s : GraphService) (override : option string)
    : Credential :=
  match credential s with
  | Some c => c
  | None =>
      let cfg := auth_config s in
      match Config.mode cfg with
      | Config.ModeCustom =>
          ClientSecretCredential (Config.tenant_id cfg) (Config.client_id cfg)
            (stored_secret s override)
      | Config.ModeDefault =>
          DeviceCodeCredential (Config.client_id cfg) (Config.tenant_id cfg)
      end
  end.

(** What one token attempt leaves in [device_code_info]: the prompt, when the
    credential has the callback and the provider called it. *)
Definition fresh_device_code (env : Env) (c : Credential)
    (scopes : list string) : option DeviceCodeInfo :=
  match c with
  | DeviceCodeCredential _ _ => prompt (cred_get_token env c scopes)
  | ClientSecretCredential _ _ _ => None
  end.

Definition is_timeout (e : exn) : bool :=
  match e with
  | TimeoutError _ => true
  | _ => false
  end.

(** [isinstance(e, Exception)]. *)
Definition is_Exception (e : exn) : bool :=
  match e with
  | BaseException _ => false
  | _ => true
  end.

(** What becomes of an exception that leaves the body of the [try]
    statement of [execute_command]: the failure dictionary of lines 328-333
    for an instance of [Exception]; any other exception goes on to the
    caller. *)
Definition top_level (e : exn) : exn + dict :=
  if is_Exception e then inr (fault_result e) else inl e.

(** The exception that logging the body of the request raises, if any. *)
Definition log_fault `{PyBuiltins} (data : option pyval) : option exn :=
  match data with
  | Some v =>
      if truthy v then
        match dumps v with
        | inl e => Some e
        | inr _ => None
        end
      else None
  | None => None
  end.

Definition is_EvCredential (e : event) : bool :=
  match e with
  | EvCredential _ => true
  | _ => false
  end.

(** The number of credential constructions among the events of a call. *)
Definition credentials_created (evs : list event) : nat :=
  length (List.filter is_EvCredential evs).

Definition is_EvHttp (e : event) : bool :=
  match e with
  | EvHttp _ => true
  | _ => false
  end.

Definition verb_name (v : Verb) : string :=
  match v with
  | GET => "GET"
  | POST => "POST"
  | PUT => "PUT"
  | PATCH => "PATCH"
  | DELETE => "DELETE"
  end.

Definition sends_body (v : Verb) : bool :=
  match v with
  | POST | PUT | PATCH => true
  | GET | DELETE => false
  end.

(** The request [execute_command] builds for a verb. *)
Definition request_for (v : Verb) (command : string) (data : option pyval)
    (access_token : AccessToken) : Request :=
  {| req_verb := v;
     req_url := "https://graph.microsoft.com/v1.0/" +:+ lstrip_slash command;
     req_headers :=
       {[ "Authorization" := "Bearer " +:+ token access_token;
          "Content-Type" := "application/json" ]};
     req_json := if sends_body v then data else None |}.

(** [sub] occurs in [s]. *)
Definition occurs_in (sub s : string) : Prop :=
  ∃ pre post, s = pre +:+ sub +:+ post.

(** What holds of a service object at any time (see [reachable_inv]): the
    configuration is the one resolved at start; a cached credential is the
    one of the mode, built from the configured identifiers, and in custom
    mode a secret is then known; custom mode never holds a device code. *)
Definition inv (cfg : Config.Settings) (s : GraphService) : Prop :=
  auth_config s = Config.get_auth_config cfg
  ∧ match credential s with
    | None => True
    | Some c =>
        match Config.mode (auth_config s) with
        | Config.ModeCustom =>
            (∃ x, truthy_str x = true
                  ∧ c = ClientSecretCredential
                          (Config.tenant_id (auth_config s))
                          (Config.client_id (auth_config s)) x)
            ∧ truthy_str (client_secret s) = true
        | Config.ModeDefault =>
            c = DeviceCodeCredential (Config.client_id (auth_config s))
                  (Config.tenant_id (auth_config s))
        end
    end
  ∧ (Config.mode (auth_config s) = Config.ModeCustom
     → device_code_info s = None).

(** *** The outcomes of the authentication stage

    The classification of lines 111-255 by what the provider does: the
    object, the events and the value the stage ends with. *)

(** The object once the override is stored (lines 112-113). *)
Definition store_secret (override : option string) (s : GraphService)
    : GraphService :=
  if truthy_str override then set_client_secret override s else s.

(** The events of a call that reaches the token request with credential
    [c]. *)
Definition token_events (s : GraphService) (c : Credential) : list event :=
  match credential s with
  | None => [EvCredential c]
  | Some _ => []
  end ++ [EvGetToken c (Config.scopes (auth_config s))].

(** The object after the token request, [kept] being the credential
    attribute it ends with. *)
Definition after_token (env : Env) (override : option string)
    (s : GraphService) (kept : option Credential) : GraphService :=
  set_device_code_info
    (fresh_device_code env (credential_for_call s override)
       (Config.scopes (auth_config s)))
    (set_credential kept (store_secret override s)).

(** A credential is at hand: cached, or constructible (in custom mode a
    secret is known) with a constructor that returns. *)
Definition credential_ready (env : Env) (override : option string)
    (s : GraphService) : Prop :=
  credential s = None →
  cred_init env (credential_for_call s override) = None
  ∧ (Config.mode (auth_config s) = Config.ModeCustom
     → truthy_str (stored_secret s override) = true).

Inductive auth_outcome (env : Env) (override : option string)
    (s : GraphService)
    : GraphService → list event → exn + (dict + AccessToken) → Prop :=
  | auth_secret_missing :
      credential s = None →
      Config.mode (auth_config s) = Config.ModeCustom →
      truthy_str (stored_secret s override) = false →
      auth_outcome env override s (store_secret override s) []
        (inr (inl (client_secret_prompt (Config.client_id (auth_config s))
                     (Config.tenant_id (auth_config s)))))
  | auth_init_fault e :
      credential s = None →
      (Config.mode (auth_config s) = Config.ModeCustom
       → truthy_str (stored_secret s override) = true) →
      cred_init env (credential_for_call s override) = Some e →
      auth_outcome env override s (store_secret override s)
        [EvCredential (credential_for_call s override)] (inl e)
  | auth_token t :
      let c := credential_for_call s override in
      credential_ready env override s →
      token_result (cred_get_token env c (Config.scopes (auth_config s)))
        = inr t →
      auth_outcome env override s (after_token env override s (Some c))
        (token_events s c) (inr (inr t))
  | auth_timeout msg :
      let c := credential_for_call s override in
      credential_ready env override s →
      token_result (cred_get_token env c (Config.scopes (auth_config s)))
        = inl (TimeoutError msg) →
      auth_outcome env override s (after_token env override s (Some c))
        (token_events s c)
        (inr (inl match fresh_device_code env c
                          (Config.scopes (auth_config s)) with
                  | Some info => device_code_result info
                  | None => timeout_result
                  end))
  | auth_escape e :
      let c := credential_for_call s override in
      credential_ready env override s →
      token_result (cred_get_token env c (Config.scopes (auth_config s)))
        = inl e →
      is_Exception e = false →
      auth_outcome env override s (after_token env override s (Some c))
        (token_events s c) (inl e)
  | auth_error e :
      let c := credential_for_call s override in
      credential_ready env override s →
      token_result (cred_get_token env c (Config.scopes (auth_config s)))
        = inl e →
      is_timeout e = false →
      is_Exception e = true →
      auth_outcome env override s (after_token env override s None)
        (token_events s c)
        (inr (inl match fresh_device_code env c
                          (Config.scopes (auth_config s)) with
                  | Some info => device_code_result info
                  | None =>
                      if contains "AADSTS7000215" (str_exn e)
                         || contains "Invalid client secret" (str_exn e)
                      then invalid_secret_result
                             (Config.client_id (auth_config s))
                             (Config.tenant_id (auth_config s)) (str_exn e)
                      else auth_failed_result (str_exn e)
                  end)).

(** *** The outcomes of the request stage and of a whole call *)

Definition is_dict (v : pyval) : bool :=
  match v with
  | PDict _ => true
  | _ => false
  end.

Definition is_JSONDecodeError (e : exn) : bool :=
  match e with
  | JSONDecodeError _ => true
  | _ => false
  end.

(** The exception of [v.get] on a value that is no [dict]. *)
Definition no_get (v : pyval) : exn :=
  AttributeError ("'" +:+ py_type_name v +:+ "' object has no attribute 'get'").

Section Outcomes.
Context `{PyBuiltins}.

(** What lines 288-326 make of a response: a result dictionary, or an
    exception that leaves the stage. *)
Inductive response_result (r : Response) : exn + dict → Prop :=
  | resp_no_content :
      status_code r = 204%Z →
      response_result r (inr (no_content_result (status_code r)))
  | resp_data v :
      status_code r ∈ [200; 201; 202]%Z →
      json r = inr v →
      response_result r (inr (data_result v (status_code r)))
  | resp_text msg :
      status_code r ∈ [200; 201; 202]%Z →
      json r = inl (JSONDecodeError msg) →
      response_result r (inr (text_result (text r) (status_code r)))
  | resp_error body error message :
      status_code r ∉ [200; 201; 202; 204]%Z →
      json r = inr (PDict body) →
      default (PDict ∅) (body !! "error") = PDict error →
      default (PStr (text r)) (error !! "message") = message →
      response_result r
        (inr (http_error_result (status_code r) (py_str message)
                (PDict body)))
  | resp_error_text msg :
      status_code r ∉ [200; 201; 202; 204]%Z →
      json r = inl (JSONDecodeError msg) →
      response_result r
        (inr (http_error_text_result (status_code r) (text r)))
  | resp_json_fault e :
      status_code r ≠ 204%Z →
      json r = inl e →
      is_JSONDecodeError e = false →
      response_result r (inl e)
  | resp_body_not_dict v :
      status_code r ∉ [200; 201; 202; 204]%Z →
      json r = inr v →
      is_dict v = false →
      response_result r (inl (no_get v))
  | resp_error_not_dict body error :
      status_code r ∉ [200; 201; 202; 204]%Z →
      json r = inr (PDict body) →
      body !! "error" = Some error →
      is_dict error = false →
      response_result r (inl (no_get error)).

(** What the body of the client context does with a token: the events and
    the value. *)
Inductive body_outcome (env : Env) (command method : string)
    (data : option pyval) (access_token : AccessToken)
    : list event → exn + dict → Prop :=
  | body_unsupported :
      (∀ v, str_upper method ≠ verb_name v) →
      body_outcome env command method data access_token []
        (inr (unsupported_method_result method))
  | body_send_fault v e :
      str_upper method = verb_name v →
      http_request env (request_for v command data access_token) = inl e →
      body_outcome env command method data access_token
        [EvHttp (request_for v command data access_token)] (inl e)
  | body_response v response r :
      str_upper method = verb_name v →
      http_request env (request_for v command data access_token)
        = inr response →
      response_result response r →
      body_outcome env command method data access_token
        [EvHttp (request_for v command data access_token)] r.

(** What lines 257-326 do with a token: the body is logged, then comes
    what is between the entry and the exit of the client context. *)
Inductive request_outcome (env : Env) (command method : string)
    (data : option pyval) (access_token : AccessToken)
    : list event → exn + dict → Prop :=
  | req_log_fault e :
      log_fault data = Some e →
      request_outcome env command method data access_token [] (inl e)
  | req_enter_fault e :
      log_fault data = None →
      client_enter env = Some e →
      request_outcome env command method data access_token [] (inl e)
  | req_exit_fault e evs r :
      log_fault data = None →
      client_enter env = None →
      client_exit env = Some e →
      body_outcome env command method data access_token evs r →
      request_outcome env command method data access_token evs (inl e)
  | req_done evs r :
      log_fault data = None →
      client_enter env = None →
      client_exit env = None →
      body_outcome env command method data access_token evs r →
      request_outcome env command method data access_token evs r.

(** A whole call of [execute_command]: the dictionary it returns, or the
    exception it lets through. *)
Inductive call_outcome (env : Env) (command method : string)
    (data : option pyval) (override : option string) (s : GraphService)
    : GraphService → list event → exn + dict → Prop :=
  | call_auth_fault s' evs e :
      auth_outcome env override s s' evs (inl e) →
      call_outcome env command method data override s s' evs (top_level e)
  | call_early s' evs d :
      auth_outcome env override s s' evs (inr (inl d)) →
      call_outcome env command method data override s s' evs (inr d)
  | call_request_fault s' evs access_token evs' e :
      auth_outcome env override s s' evs (inr (inr access_token)) →
      request_outcome env command method data access_token evs' (inl e) →
      call_outcome env command method data override s s' (evs ++ evs')
        (top_level e)
  | call_request s' evs access_token evs' d :
      auth_outcome env override s s' evs (inr (inr access_token)) →
      request_outcome env command method data access_token evs' (inr d) →
      call_outcome env command method data override s s' (evs ++ evs')
        (inr d).

End Outcomes.

(** A text given by its lines: the lines joined by newlines. *)
Definition lines (l : list string) : string := String.concat Main.nl l.

(** The number of occurrences of a character in a string. *)
Fixpoint count_char (c : ascii) (s : string) : nat :=
  match s with
  | EmptyString => 0
  | String c' s' => (if Ascii.eqb c' c then 1 else 0) + count_char c s'
  end.

(** The list [[TextContent(type="text", text=t)]]. *)
Definition text_content (t : string) : list Main.TextContent :=
  [ {| Main.type := "text"; Main.text := t |} ].

(** The first two lines of the text of a failure: the heading and the
    error message. *)
Definition error_header (method command msg : string) : string :=
  "❌ **Error** (" +:+ method +:+ " " +:+ command +:+ ")" +:+ Main.nl +:+ Main.nl
  +:+ "**Error:** " +:+ msg +:+ Main.nl +:+ Main.nl.

(** [inputSchema["properties"][property][key]] of a tool, when the schema
    has it. *)
Definition schema_member (t : Main.Tool) (property key : string)
    : option pyval :=
  match Main.inputSchema t with
  | PDict schema =>
      match schema !! "properties" with
      | Some (PDict properties) =>
          match properties !! property with
          | Some (PDict p) => p !! key
          | _ => None
          end
      | _ => None
      end
  | _ => None
  end.

(** *** Sample inputs *)

(** An integer of more than 4300 digits: CPython (3.11 and later) refuses
    to convert it to text. *)
Definition too_long (v : pyval) : bool :=
  match v with
  | PInt z => (10 ^ 4300 <=? Z.abs z)%Z
  | _ => false
  end.

(** A serializer for the samples: a scalar as JSON writes it (a string
    without escapes), a container as its type name in angle brackets; an
    integer that is too long, by itself or as a member of a list or of an
    object, raises the [ValueError] of the conversion. *)
Definition sample_dumps (v : pyval) : string + string :=
  let refused :=
    too_long v
    || match v with
       | PList l => existsb too_long l
       | PDict d => existsb too_long ((map_to_list d).*2)
       | _ => false
       end in
  if refused then
    inl "Exceeds the limit (4300 digits) for integer string conversion; use sys.set_int_max_str_digits() to increase the limit"
  else
    inr match v with
        | PNone => "null"
        | PBool true => "true"
        | PBool false => "false"
        | PInt z => pretty z
        | PStr s => dq +:+ s +:+ dq
        | _ => "<" +:+ py_type_name v +:+ ">"
        end.

(** The builtins on ASCII text; a value that is no string prints as its
    type name in angle brackets. *)
Definition sample_builtins : PyBuiltins :=
  {| str_upper := ascii_upper;
     py_repr := λ v, "<" +:+ py_type_name v +:+ ">";
     json_dumps := sample_dumps |}.

(** No custom registration: the public client in read-only mode. *)
Definition cfg_default : Config.Settings :=
  {| Config.graph_tenant_id := None;
     Config.graph_client_id := "14d82eec-204b-4c2f-b7e8-296a70dab67e";
     Config.custom_client_id := None;
     Config.custom_tenant_id := None;
     Config.custom_client_secret := None;
     Config.use_app_reg_clientid := None;
     Config.tenantid := None;
     Config.client_secret := None;
     Config.graph_client_secret := None |}.

(** A custom registration without a configured secret. *)
Definition cfg_custom : Config.Settings :=
  {| Config.graph_tenant_id := None;
     Config.graph_client_id := "14d82eec-204b-4c2f-b7e8-296a70dab67e";
     Config.custom_client_id := None;
     Config.custom_tenant_id := None;
     Config.custom_client_secret := None;
     Config.use_app_reg_clientid := Some "app-1";
     Config.tenantid := Some "tenant-1";
     Config.client_secret := None;
     Config.graph_client_secret := None |}.

(** A provider and an API that answer every call the same way, with an
    HTTP client that opens and closes without fault. *)
Definition env_const (init_fault : option exn) (attempt : TokenAttempt)
    (answer : exn + Response) : Env :=
  {| cred_init := λ _, init_fault;
     cred_get_token := λ _ _, attempt;
     client_enter := None;
     client_exit := None;
     http_request := λ _, answer |}.

Definition token_granted : TokenAttempt :=
  {| prompt := None; token_result := inr {| token := "eyJ0" |} |}.

Definition token_timeout : TokenAttempt :=
  {| prompt := None; token_result := inl (TimeoutError "") |}.

Definition sample_device_code : DeviceCodeInfo :=
  {| verification_uri := "https://x"; user_code := "ABC-123";
     expires_in := 600 |}.

Definition users_page : Response :=
  {| status_code := 200;
     text := "{}";
     json := inr (PDict ∅) |}.

(** A 404 whose body is [{"error": "Not found"}]: the [error] member is a
    string, not an object. *)
Definition flat_error_body : dict := {[ "error" := PStr "Not found" ]}.

Definition flat_error_page : Response :=
  {| status_code := 404;
     text := "{" +:+ dq +:+ "error" +:+ dq +:+ ": " +:+ dq +:+ "Not found"
             +:+ dq +:+ "}";
     json := inr (PDict flat_error_body) |}.

(** The provider asks for the device code, and the wait ceiling passes. *)
Definition token_pending : TokenAttempt :=
  {| prompt := Some sample_device_code;
     token_result := inl (TimeoutError "") |}.

(** The provider asks for the device code, and the request then fails. *)
Definition token_prompt_then_error : TokenAttempt :=
  {| prompt := Some sample_device_code;
     token_result := inl (Exception "connection reset") |}.

(** The call is cancelled while the token is awaited:
    [asyncio.CancelledError], which is no instance of [Exception] and
    whose text is empty. *)
Definition token_cancelled : TokenAttempt :=
  {| prompt := None; token_result := inl (BaseException "") |}.


(** The provider rejects the client secret. *)
Definition token_rejected : TokenAttempt :=
  {| prompt := None;
     token_result :=
       inl (Exception "AADSTS7000215: Invalid client secret provided.") |}.

Definition device_credential : Credential :=
  DeviceCodeCredential "14d82eec-204b-4c2f-b7e8-296a70dab67e" "common".

Definition custom_credential (secret : string) : Credential :=
  ClientSecretCredential "tenant-1" "app-1" (Some secret).

(** The object of [cfg_custom] after a call that was given [secret] and got
    its token. *)
Definition custom_service (secret : string) : GraphService :=
  set_credential (Some (custom_credential secret))
    (set_client_secret (Some secret) (init cfg_custom)).

(** The object of [cfg_default] after a call that got its token. *)
Definition default_service : GraphService :=
  set_credential (Some device_credential) (init cfg_default).

(** [str.strip] on text whose only white space is the space character. *)
Fixpoint lstrip_space (s : string) : string :=
  match s with
  | String " "%char s' => lstrip_space s'
  | _ => s
  end.

Fixpoint rstrip_space (s : string) : string :=
  match s with
  | EmptyString => EmptyString
  | String c s' =>
      match rstrip_space s' with
      | EmptyString =>
          if Ascii.eqb c " "%char then EmptyString else String c EmptyString
      | r => String c r
      end
  end.

Definition strip_spaces (s : string) : string :=
  rstrip_space (lstrip_space s).

(** A custom registration whose secret comes from the second alias, the
    first one being set but empty. *)
Definition cfg_custom_secret : Config.Settings :=
  {| Config.graph_tenant_id := None;
     Config.graph_client_id := "14d82eec-204b-4c2f-b7e8-296a70dab67e";
     Config.custom_client_id := None;
     Config.custom_tenant_id := None;
     Config.custom_client_secret := Some "s3cr3t";
     Config.use_app_reg_clientid := Some "app-1";
     Config.tenantid := Some "tenant-1";
     Config.client_secret := Some "";
     Config.graph_client_secret := Some "legacy" |}.

(** A 404 with the error object of the Graph API. *)
Definition not_found_body : dict :=
  {[ "error" := PDict {[ "code" := PStr "Request_ResourceNotFound";
                         "message" := PStr "Resource not found" ]} ]}.

Definition not_found_page : Response :=
  {| status_code := 404;
     text := "{...}";
     json := inr (PDict not_found_body) |}.

(** The arguments of a tool call that names the endpoint only. *)
Definition just_command (command : string) : Main.Arguments :=
  {| Main.command := Some command;
     Main.method := None;
     Main.data := None;
     Main.client_secret := None |}.

(** ** A weakest-precondition reading of the call monad *)

Definition wp {A : Type} (m : M A) (w : World)
    (Q : World → exn + A → Prop) : Prop :=
  Q (m w).1 (m w).2.

(** A computation that neither reads nor writes the object: it appends its
    events and gives its value, whatever the world. *)
Definition stateless {A : Type} (m : M A) : Prop :=
  ∃ evs x, ∀ w, m w = ({| svc := svc w; trace := trace w ++ evs |}, x).

Section WP.
Context {A B : Type}.
Implicit Types (w : World).

Lemma wp_ret (a : A) w Q : Q w (inr a) → wp (mret a) w Q.
Proof. done. Qed.

Lemma wp_raise (e : exn) w (Q : World → exn + A → Prop) :
  Q w (inl e) → wp (raise e) w Q.
Proof. done. Qed.

Lemma wp_bind (m : M A) (f : A → M B) w Q :
  wp m w (λ w' r, match r with
                  | inl e => Q w' (inl e)
                  | inr a => wp (f a) w' Q
                  end) →
  wp (m ≫= f) w Q.
Proof.
  unfold wp, mbind, M_bind. by destruct (m w) as [w' [e|a]].
Qed.

Lemma wp_try (m : M A) h w Q :
  wp m w (λ w' r, match r with
                  | inl e => match h e with
                             | Some k => wp k w' Q
                             | None => Q w' (inl e)
                             end
                  | inr a => Q w' (inr a)
                  end) →
  wp (try_except m h) w Q.
Proof.
  unfold wp, try_except. destruct (m w) as [w' [e|a]]; [|done].
  cbn. by destruct (h e).
Qed.

Lemma wp_mono (m : M A) w (P Q : World → exn + A → Prop) :
  wp m w P → (∀ w' r, P w' r → Q w' r) → wp m w Q.
Proof. unfold wp. auto. Qed.

Lemma run_wp (m : M A) s (P : GraphService * list event * (exn + A) → Prop) :
  wp m {| svc := s; trace := [] |} (λ w r, P (svc w, trace w, r)) →
  P (run m s).
Proof. unfold wp, run. by destruct (m _). Qed.

End WP.

Lemma wp_self w Q : Q w (inr (svc w)) → wp self w Q.
Proof. done. Qed.

Lemma wp_assign f w Q :
  Q {| svc := f (svc w); trace := trace w |} (inr ()) → wp (assign f) w Q.
Proof. done. Qed.

Lemma wp_emit e w Q :
  Q {| svc := svc w; trace := trace w ++ [e] |} (inr ()) → wp (emit e) w Q.
Proof. done. Qed.

Lemma wp_with_client {A : Type} env (body : M A) w Q :
  match client_enter env with
  | Some e => Q w (inl e)
  | None =>
      wp body w (λ w' r, Q w' match client_exit env with
                              | Some e => inl e
                              | None => r
                              end)
  end →
  wp (with_client env body) w Q.
Proof.
  unfold wp, with_client. destruct (client_enter env); [done|].
  destruct (body w) as [w' r]. by destruct (client_exit env).
Qed.

(** Symbolic execution, one construct at a time; a scrutinee that a
    hypothesis determines is rewritten, any other is split. *)
Ltac wp_scrutinee x :=
  lazymatch x with
  | match ?y with _ => _ end => wp_scrutinee y
  | if ?y then _ else _ => wp_scrutinee y
  | negb ?y => wp_scrutinee y
  | ?y || _ => wp_scrutinee y
  | _ =>
      lazymatch goal with
      | E : x = _ |- _ => rewrite E
      | _ => destruct x eqn:?
      end
  end.

Ltac wp_simpl :=
  cbn [svc trace settings device_code_info credential client_secret
       auth_config set_credential set_device_code_info set_client_secret
       except_JSONDecodeError except_Exception negb orb app fst snd].

Ltac wp_step :=
  lazymatch goal with
  | |- wp (mret _) _ _ => apply wp_ret
  | |- wp (raise _) _ _ => apply wp_raise
  | |- wp (_ ≫= _) _ _ => apply wp_bind
  | |- wp (try_except _ _) _ _ => apply wp_try
  | |- wp self _ _ => apply wp_self
  | |- wp (assign _) _ _ => apply wp_assign
  | |- wp (emit _) _ _ => apply wp_emit
  | |- wp (if ?b then _ else _) _ _ => wp_scrutinee b
  | |- wp (match ?x with _ => _ end) _ _ => wp_scrutinee x
  | |- match ?x with _ => _ end => wp_scrutinee x
  end; cbn beta iota; wp_simpl; try discriminate.

Ltac wp_unfold :=
  unfold execute_command, execute_body, authenticate, request, request_body,
    ensure_credential, acquire_token, get_token, on_timeout, on_auth_error,
    construct, _get_client_secret, _device_code_callback, dispatch, send,
    handle_response, response_json, py_get, except_JSONDecodeError,
    except_Exception.

Ltac wp_exec := wp_unfold; cbv zeta; repeat wp_step.
(** ** Properties of the configuration resolver *)

Section ConfigFacts.
Import Config.

(** C1. [get_auth_config] is a total function of the settings; when the
  first non-empty client id alias and the first non-empty tenant id alias
  both exist it returns the custom configuration built from them with the
  client-secret strategy, and in every other case the default
  configuration with [graph_client_id], [graph_tenant_id] or ["common"],
  and the device-code strategy; the scopes are the single default scope
  in both cases. *)
Theorem get_auth_config_resolves (s : Settings) :
match first_non_empty [use_app_reg_clientid s; custom_client_id s],
      first_non_empty [tenantid s; custom_tenant_id s] with
| Some cid, Some tid =>
    get_auth_config s =
      {| mode := ModeCustom; client_id := cid; tenant_id := tid;
         auth_mode := ClientSecret; scopes := [default_scope] |}
| _, _ =>
    get_auth_config s =
      {| mode := ModeDefault; client_id := graph_client_id s;
         tenant_id := match first_non_empty [graph_tenant_id s] with
                      | Some t => t
                      | None => "common"
                      end;
         auth_mode := DeviceCode; scopes := [default_scope] |}
end.
Proof.
destruct s as [gt gc cc ct cs uc tt sec gs]; cbn.
unfold get_auth_config, py_or; cbn.
destruct uc as [[|? ?]|], cc as [[|? ?]|], tt as [[|? ?]|],
  ct as [[|? ?]|]; cbn; try reflexivity;
  destruct gt as [[|? ?]|]; reflexivity.
Qed.

(** C9. Read-only mode is exactly the default mode: [is_read_only_mode]
  holds iff [get_auth_config] resolves to [ModeDefault], that is, iff the
  resolved client id and tenant id are not both non-empty. *)
Theorem is_read_only_iff_default (s : Settings) :
is_read_only_mode s = bool_decide (mode (get_auth_config s) = ModeDefault)
∧ (is_read_only_mode s = true ↔
     ¬ (is_Some (first_non_empty [use_app_reg_clientid s; custom_client_id s])
        ∧ is_Some (first_non_empty [tenantid s; custom_tenant_id s]))).
Proof.
destruct s as [gt gc cc ct cs uc tt sec gs].
unfold is_read_only_mode, get_auth_config, py_or; cbn.
destruct uc as [[|? ?]|], cc as [[|? ?]|], tt as [[|? ?]|],
  ct as [[|? ?]|]; cbn; (split; [reflexivity|]);
  rewrite ?is_Some_alt; intuition (discriminate || eauto).
Qed.

End ConfigFacts.


(** ** The outcomes describe the code *)

Section Soundness.
Context `{PyBuiltins}.

Lemma auth_outcome_eq env o s s1 s2 e1 e2 r1 r2 :
  auth_outcome env o s s1 e1 r1 → s1 = s2 → e1 = e2 → r1 = r2 →
  auth_outcome env o s s2 e2 r2.
Proof. by intros ? -> -> ->. Qed.

Ltac use_eqs :=
  repeat match goal with
         | E : ?l = _ |- context [?l] => rewrite E
         end.

Ltac outcome_side :=
  unfold credential_ready, after_token, token_events;
  unfold fresh_device_code, credential_for_call, store_secret, stored_secret;
  wp_simpl; use_eqs; wp_simpl;
  first [ reflexivity | eassumption | intuition congruence ].

Ltac outcome_leaf :=
  subst;
  repeat match goal with
         | d : DeviceCodeInfo |- _ => destruct d
         end;
  cbn [verification_uri user_code expires_in];
  eapply auth_outcome_eq;
  [ lazymatch goal with
    | E : token_result _ = inl (TimeoutError _) |- _ => eapply auth_timeout
    | E : token_result _ = inl (BaseException _) |- _ => eapply auth_escape
    | E : token_result _ = inl _ |- _ => eapply auth_error
    | E : token_result _ = inr _ |- _ => eapply auth_token
    | E : cred_init _ _ = Some _ |- _ => eapply auth_init_fault
    | _ => eapply auth_secret_missing
    end; outcome_side
  | outcome_side | outcome_side | outcome_side ].

(** Every run of the authentication stage is one of the six outcomes. *)
Lemma authenticate_outcome env override s :
  auth_outcome env override s
    (run (authenticate env override) s).1.1
    (run (authenticate env override) s).1.2
    (run (authenticate env override) s).2.
Proof.
  pattern (run (authenticate env override) s). apply run_wp.
  destruct s as [cf di cr cs ac]. cbn [fst snd].
  wp_exec; outcome_leaf.
Qed.

Lemma status_2xx (sc : Z) :
  sc ∈ [200; 201; 202; 204]%Z → sc ≠ 204%Z → sc ∈ [200; 201; 202]%Z.
Proof. rewrite !elem_of_cons, !elem_of_nil. intuition congruence. Qed.

Lemma status_not_204 (sc : Z) : sc ∉ [200; 201; 202; 204]%Z → sc ≠ 204%Z.
Proof. rewrite !elem_of_cons. intuition congruence. Qed.

Lemma default_not_dict (body : dict) v :
  default (PDict ∅) (body !! "error") = v → is_dict v = false →
  body !! "error" = Some v.
Proof. destruct (body !! "error"); cbn; [congruence|]. by intros <-. Qed.

(** The response stage touches neither the object nor the trace. *)
Lemma handle_response_outcome r w :
  wp (handle_response r) w (λ w' x, w' = w ∧ response_result r x).
Proof.
  wp_exec.
  all: repeat match goal with
         | E : bool_decide _ = true |- _ => apply bool_decide_eq_true in E
         | E : bool_decide _ = false |- _ => apply bool_decide_eq_false in E
         end.
  all: split; [reflexivity|].
  all: lazymatch goal with
       | |- response_result _ (inr (no_content_result _)) =>
           by eapply resp_no_content
       | |- response_result _ (inr (data_result _ _)) =>
           by eapply resp_data; eauto using status_2xx
       | |- response_result _ (inr (text_result _ _)) =>
           by eapply resp_text; eauto using status_2xx
       | |- response_result _ (inr (http_error_result _ _ _)) =>
           by eapply resp_error
       | |- response_result _ (inr (http_error_text_result _ _)) =>
           by eapply resp_error_text
       | E : json _ = inl ?e |- response_result _ (inl ?e) =>
           by eapply resp_json_fault; eauto using status_not_204
       | E : json _ = inr ?v |- response_result _ (inl _) =>
           first [ by eapply (resp_body_not_dict _ v)
                 | by eapply resp_error_not_dict;
                     eauto using default_not_dict ]
       end.
Qed.

(** The request stage leaves the object alone and appends its events. *)
Lemma request_body_run env command method data tok w :
  wp (request_body env
        ("https://graph.microsoft.com/v1.0/" +:+ lstrip_slash command)
        {[ "Authorization" := "Bearer " +:+ token tok;
           "Content-Type" := "application/json" ]}
        method data) w
    (λ w' x, ∃ evs, w' = {| svc := svc w; trace := trace w ++ evs |}
                    ∧ body_outcome env command method data tok evs x).
Proof.
  unfold request_body, dispatch, send. cbv zeta.
  repeat
    first
      [ lazymatch goal with
        | |- wp (handle_response ?r) ?w' _ =>
            apply (wp_mono _ _ _ _ (handle_response_outcome r w'));
            intros ? x [-> ?]
        end
      | wp_step ].
  all: repeat match goal with
         | E : String.eqb _ _ = true |- _ => apply String.eqb_eq in E
         | E : String.eqb _ _ = false |- _ => apply String.eqb_neq in E
         end.
  all: try (eexists; split; [reflexivity|];
            first [ by eapply (body_send_fault _ _ _ _ _ GET)
                  | by eapply (body_send_fault _ _ _ _ _ POST)
                  | by eapply (body_send_fault _ _ _ _ _ PUT)
                  | by eapply (body_send_fault _ _ _ _ _ PATCH)
                  | by eapply (body_send_fault _ _ _ _ _ DELETE)
                  | by eapply (body_response _ _ _ _ _ GET)
                  | by eapply (body_response _ _ _ _ _ POST)
                  | by eapply (body_response _ _ _ _ _ PUT)
                  | by eapply (body_response _ _ _ _ _ PATCH)
                  | by eapply (body_response _ _ _ _ _ DELETE) ]).
  exists []. split.
  - destruct w. cbn. by rewrite app_nil_r.
  - apply body_unsupported. by intros [].
Qed.

Lemma log_request_body_run data w :
  log_request_body data w
  = (w, match log_fault data with Some e => inl e | None => inr () end).
Proof.
  unfold log_request_body, log_fault.
  destruct data as [v|]; [|done]. destruct (truthy v); [|done].
  by destruct (dumps v).
Qed.

Lemma request_run env command method data tok w :
  wp (request env command method data tok) w
    (λ w' x, ∃ evs, w' = {| svc := svc w; trace := trace w ++ evs |}
                    ∧ request_outcome env command method data tok evs x).
Proof.
  unfold request. cbv zeta. apply wp_bind. unfold wp at 1.
  rewrite log_request_body_run. cbn [fst snd].
  destruct (log_fault data) as [e|] eqn:Hlog.
  { exists []. split; [|by apply req_log_fault].
    destruct w. cbn. by rewrite app_nil_r. }
  apply wp_with_client.
  destruct (client_enter env) as [e|] eqn:Henter.
  - exists []. split; [|by apply req_enter_fault].
    destruct w. cbn. by rewrite app_nil_r.
  - apply (wp_mono _ _ _ _ (request_body_run env command method data tok w)).
    intros w' r (evs & -> & Hb). exists evs. split; [done|].
    destruct (client_exit env) as [e|] eqn:Hexit.
    + by eapply req_exit_fault.
    + by apply req_done.
Qed.

Lemma execute_command_unfold env command method data override w :
  execute_command env command method data override w =
    match authenticate env override w with
    | (w1, inl e) => (w1, top_level e)
    | (w1, inr (inl early)) => (w1, inr early)
    | (w1, inr (inr tok)) =>
        match request env command method data tok w1 with
        | (w2, inl e) => (w2, top_level e)
        | (w2, inr d) => (w2, inr d)
        end
    end.
Proof.
  unfold execute_command, execute_body, try_except, mbind, M_bind.
  destruct (authenticate env override w) as [w1 [e|[d|tok]]]; [|done|].
  - by destruct e.
  - destruct (request env command method data tok w1) as [w2 [e|d]]; [|done].
    by destruct e.
Qed.

(** Every call is one of the four outcomes. *)
Lemma execute_command_outcome env command method data override s :
  ∃ s' evs r,
    run (execute_command env command method data override) s
      = (s', evs, r)
    ∧ call_outcome env command method data override s s' evs r.
Proof.
  pose proof (authenticate_outcome env override s) as Ha.
  unfold run in *. rewrite execute_command_unfold.
  destruct (authenticate env override _) as [[s1 t1] [e|[d|tok]]];
    cbn [fst snd svc trace] in Ha.
  - eexists _, _, _. split; [reflexivity|]. by apply call_auth_fault.
  - eexists _, _, _. split; [reflexivity|]. by apply call_early.
  - pose proof (request_run env command method data tok
                  {| svc := s1; trace := t1 |}) as Hr.
    unfold wp in Hr.
    destruct (request env command method data tok _) as [w2 [e|d]];
      cbn [fst snd] in Hr; destruct Hr as (evs & -> & Hr);
      cbn [fst snd svc trace].
    + eexists _, _, _. split; [reflexivity|]. by eapply call_request_fault.
    + eexists _, _, _. split; [reflexivity|]. by eapply call_request.
Qed.

End Soundness.

(** ** Facts about results and reachable objects *)

(** *** Facts about the result dictionaries *)

Lemma failure_client_secret_prompt cid tid :
  failure (client_secret_prompt cid tid).
Proof. split; [reflexivity | eexists; reflexivity]. Qed.

Lemma failure_device_code_result info : failure (device_code_result info).
Proof. split; [reflexivity | eexists; reflexivity]. Qed.

Lemma failure_timeout_result : failure timeout_result.
Proof. split; [reflexivity | eexists; reflexivity]. Qed.

Lemma failure_invalid_secret_result cid tid msg :
  failure (invalid_secret_result cid tid msg).
Proof. split; [reflexivity | eexists; reflexivity]. Qed.

Lemma failure_auth_failed_result msg : failure (auth_failed_result msg).
Proof. split; [reflexivity | eexists; reflexivity]. Qed.

Lemma failure_unsupported_method_result method :
  failure (unsupported_method_result method).
Proof. split; [reflexivity | eexists; reflexivity]. Qed.

Lemma failure_fault_result e : failure (fault_result e).
Proof. split; [reflexivity | eexists; reflexivity]. Qed.

Lemma failure_http_error_result sc msg v :
  failure (http_error_result sc msg v).
Proof. split; [reflexivity | eexists; reflexivity]. Qed.

Lemma failure_http_error_text_result sc txt :
  failure (http_error_text_result sc txt).
Proof. split; [reflexivity | eexists; reflexivity]. Qed.

Lemma failure_not_success d :
  failure d → d !! "success" ≠ Some (PBool true).
Proof. intros [E _]. rewrite E. discriminate. Qed.

Ltac solve_failure :=
  lazymatch goal with
  | |- failure (client_secret_prompt _ _) => apply failure_client_secret_prompt
  | |- failure (device_code_result _) => apply failure_device_code_result
  | |- failure timeout_result => apply failure_timeout_result
  | |- failure (invalid_secret_result _ _ _) =>
      apply failure_invalid_secret_result
  | |- failure (auth_failed_result _) => apply failure_auth_failed_result
  | |- failure (unsupported_method_result _) =>
      apply failure_unsupported_method_result
  | |- failure (fault_result _) => apply failure_fault_result
  | |- failure (http_error_result _ _ _) => apply failure_http_error_result
  | |- failure (http_error_text_result _ _) =>
      apply failure_http_error_text_result
  end.

Section Facts.
Context `{PyBuiltins}.

(** What the authentication stage returns early is a failure that asks
    for an authentication action. *)
Lemma auth_early_failure env o s s' evs d :
  auth_outcome env o s s' evs (inr (inl d)) →
  failure d ∧ d !! "auth_required" = Some (PBool true).
Proof.
  inversion 1; subst.
  - split; [solve_failure | reflexivity].
  - (destruct (fresh_device_code _ _ _);
      (split; [solve_failure | reflexivity])).
  - (destruct (fresh_device_code _ _ _); [|destruct (_ || _)];
      (split; [solve_failure | reflexivity])).
Qed.

Lemma response_result_structured r d :
  response_result r (inr d) →
  structured d
  ∧ (d !! "success" = Some (PBool true) →
     status_code r ∈ [200; 201; 202; 204]%Z).
Proof.
  inversion 1 as [E| | | | | | |]; subst.
  - split; [left; repeat split; try reflexivity; by eexists|].
    intros _. rewrite E. rewrite !elem_of_cons. auto.
  - split; [left; repeat split; try reflexivity; by eexists|].
    intros _. rewrite !elem_of_cons in *. intuition.
  - split; [left; repeat split; try reflexivity; by eexists|].
    intros _. rewrite !elem_of_cons in *. intuition.
  - split; [right; solve_failure|].
    intros E. by apply failure_not_success in E; [|solve_failure].
  - split; [right; solve_failure|].
    intros E. by apply failure_not_success in E; [|solve_failure].
Qed.

Lemma request_outcome_structured env command method data tok evs d :
  request_outcome env command method data tok evs (inr d) →
  structured d
  ∧ (d !! "success" = Some (PBool true) →
     ∃ req response,
       evs = [EvHttp req] ∧ http_request env req = inr response
       ∧ status_code response ∈ [200; 201; 202; 204]%Z).
Proof.
  inversion 1 as [| | |? ? _ _ _ Hb]; subst.
  inversion Hb as [| |v response r Hv Hreq Hresp]; subst.
  - split; [right; solve_failure|].
    intros E. by apply failure_not_success in E; [|solve_failure].
  - destruct (response_result_structured _ _ Hresp) as [Hs Hok].
    split; [done|]. intros E. eexists _, _. eauto.
Qed.

(** *** The object after the authentication stage *)

Lemma store_secret_fields o s :
  settings (store_secret o s) = settings s
  ∧ auth_config (store_secret o s) = auth_config s
  ∧ credential (store_secret o s) = credential s
  ∧ device_code_info (store_secret o s) = device_code_info s
  ∧ client_secret (store_secret o s) = stored_secret s o.
Proof. unfold store_secret, stored_secret. by destruct (truthy_str o). Qed.

Lemma after_token_fields env o s kept :
  settings (after_token env o s kept) = settings s
  ∧ auth_config (after_token env o s kept) = auth_config s
  ∧ credential (after_token env o s kept) = kept
  ∧ device_code_info (after_token env o s kept)
    = fresh_device_code env (credential_for_call s o)
        (Config.scopes (auth_config s))
  ∧ client_secret (after_token env o s kept) = stored_secret s o.
Proof.
  unfold after_token, store_secret, stored_secret.
  by destruct (truthy_str o).
Qed.

Lemma stored_secret_truthy s o :
  truthy_str (client_secret s) = true → truthy_str (stored_secret s o) = true.
Proof. unfold stored_secret. by destruct (truthy_str o) eqn:E. Qed.

(** In an object that satisfies the invariant, the credential of a call
    that gets one is the credential of the mode. *)
Lemma credential_for_call_inv cfg env o s :
  inv cfg s → credential_ready env o s →
  let c := credential_for_call s o in
  match Config.mode (auth_config s) with
  | Config.ModeCustom =>
      (∃ x, truthy_str x = true
            ∧ c = ClientSecretCredential (Config.tenant_id (auth_config s))
                    (Config.client_id (auth_config s)) x)
      ∧ truthy_str (stored_secret s o) = true
  | Config.ModeDefault =>
      c = DeviceCodeCredential (Config.client_id (auth_config s))
            (Config.tenant_id (auth_config s))
  end.
Proof.
  intros (_ & Hc & _) Hready. unfold credential_for_call, credential_ready in *.
  destruct (credential s) as [c|].
  - destruct (Config.mode (auth_config s)); [|done].
    destruct Hc as [Hx Hs]. split; [done|]. by apply stored_secret_truthy.
  - destruct (Hready eq_refl) as [_ Hs].
    destruct (Config.mode (auth_config s)); [|done].
    split; [|by apply Hs]. eexists. split; [by apply Hs | reflexivity].
Qed.

Lemma fresh_device_code_custom cfg env o s :
  inv cfg s → credential_ready env o s →
  Config.mode (auth_config s) = Config.ModeCustom →
  fresh_device_code env (credential_for_call s o)
    (Config.scopes (auth_config s)) = None.
Proof.
  intros Hi Hr Hm. pose proof (credential_for_call_inv _ _ _ _ Hi Hr) as Hc.
  cbn in Hc. rewrite Hm in Hc. destruct Hc as [(x & _ & ->) _]. done.
Qed.

Lemma inv_after_token cfg env o s kept :
  inv cfg s → credential_ready env o s →
  kept = None ∨ kept = Some (credential_for_call s o) →
  inv cfg (after_token env o s kept).
Proof.
  intros Hi Hr Hk. pose proof (credential_for_call_inv _ _ _ _ Hi Hr) as Hc.
  pose proof (fresh_device_code_custom _ _ _ _ Hi Hr) as Hf.
  destruct (after_token_fields env o s kept) as (_ & E1 & E2 & E3 & E4).
  unfold inv. rewrite E1, E2, E3, E4.
  destruct Hi as (Hcfg & _ & _).
  split; [exact Hcfg|]. split; [|exact Hf].
  destruct Hk as [->| ->]; [exact I|].
  cbn in Hc. by destruct (Config.mode (auth_config s)).
Qed.

Lemma inv_store_secret cfg o s :
  inv cfg s → credential s = None → inv cfg (store_secret o s).
Proof.
  intros (Hcfg & _ & Hd) Hn.
  destruct (store_secret_fields o s) as (_ & E1 & E2 & E3 & _).
  unfold inv. rewrite E1, E2, E3, Hn. done.
Qed.

Lemma auth_outcome_inv cfg env o s s' evs r :
  inv cfg s → auth_outcome env o s s' evs r → inv cfg s'.
Proof.
  intros Hi Ha.
  inversion Ha; subst; clear Ha;
    eauto using inv_store_secret, inv_after_token.
Qed.

Lemma call_outcome_auth env command method data o s s' evs d :
  call_outcome env command method data o s s' evs d →
  ∃ evs0 r, auth_outcome env o s s' evs0 r.
Proof. inversion 1; eauto. Qed.

Lemma inv_init cfg : inv cfg (init cfg).
Proof. done. Qed.

Lemma reachable_inv cfg s : reachable cfg s → inv cfg s.
Proof.
  induction 1 as [|s env command method data secret _ IH];
    [apply inv_init|].
  destruct (execute_command_outcome env command method data secret s)
    as (s' & evs & d & -> & Hc).
  apply call_outcome_auth in Hc as (evs0 & r & Ha).
  by eapply auth_outcome_inv.
Qed.

End Facts.

(** ** The request stage is independent of the object *)

Section Stateless.
Context {A B : Type}.

Lemma stateless_ret (a : A) : stateless (mret a).
Proof.
  exists [], (inr a). intros [s t]. unfold mret, M_ret. cbn.
  by rewrite app_nil_r.
Qed.

Lemma stateless_raise (e : exn) : stateless (raise (A:=A) e).
Proof.
  exists [], (inl e). intros [s t]. unfold raise. cbn. by rewrite app_nil_r.
Qed.

Lemma stateless_bind (m : M A) (f : A → M B) :
  stateless m → (∀ a, stateless (f a)) → stateless (m ≫= f).
Proof.
  intros (evs & [e|a] & Hm) Hf.
  - exists evs, (inl e). intros w. unfold mbind, M_bind. by rewrite Hm.
  - destruct (Hf a) as (evs' & x & Hfa).
    exists (evs ++ evs')%list, x. intros w. unfold mbind, M_bind.
    rewrite Hm, Hfa. cbn. by rewrite app_assoc.
Qed.

Lemma stateless_try (m : M A) h :
  stateless m → (∀ e k, h e = Some k → stateless k) →
  stateless (try_except m h).
Proof.
  intros (evs & [e|a] & Hm) Hh.
  - destruct (h e) as [k|] eqn:E.
    + destruct (Hh e k E) as (evs' & x & Hk).
      exists (evs ++ evs')%list, x. intros w. unfold try_except.
      rewrite Hm, E, Hk. cbn. by rewrite app_assoc.
    + exists evs, (inl e). intros w. unfold try_except. by rewrite Hm, E.
  - exists evs, (inr a). intros w. unfold try_except. by rewrite Hm.
Qed.

End Stateless.

Lemma stateless_emit e : stateless (emit e).
Proof. by exists [e], (inr ()). Qed.

Lemma stateless_with_client {A : Type} env (body : M A) :
  stateless body → stateless (with_client env body).
Proof.
  intros (evs & x & Hb). unfold with_client.
  destruct (client_enter env) as [e|]; [apply stateless_raise|].
  exists evs, (match client_exit env with Some e => inl e | None => x end).
  intros w. rewrite Hb. by destruct (client_exit env).
Qed.

Ltac stateless_step :=
  lazymatch goal with
  | |- stateless (mret _) => apply stateless_ret
  | |- stateless (raise _) => apply stateless_raise
  | |- stateless (emit _) => apply stateless_emit
  | |- stateless (_ ≫= _) => apply stateless_bind; [|intros ?]
  | |- stateless (try_except _ _) =>
      apply stateless_try; [|intros ? ? ?]
  | |- stateless (if ?b then _ else _) => destruct b
  | |- stateless (match ?x with _ => _ end) => destruct x
  | E : match ?x with _ => _ end = Some _ |- _ =>
      destruct x; try discriminate; injection E as <-
  end.

Section RequestStateless.
Context `{PyBuiltins}.

Lemma handle_response_stateless r : stateless (handle_response r).
Proof.
  unfold handle_response, response_json, py_get, except_JSONDecodeError.
  cbv zeta. repeat stateless_step.
Qed.

Lemma request_stateless env command method data tok :
  stateless (request env command method data tok).
Proof.
  unfold request. cbv zeta. apply stateless_bind.
  { unfold log_request_body. repeat stateless_step. }
  intros _. apply stateless_with_client.
  unfold request_body, dispatch, send. cbv zeta.
  repeat first [ apply handle_response_stateless | stateless_step ].
Qed.
End RequestStateless.

(** ** Occurrences in strings *)

Lemma append_assoc (a b c : string) : (a +:+ b) +:+ c = a +:+ (b +:+ c).
Proof.
  induction a as [|x a IH]; [done|].
  unfold String.append; fold String.append. by f_equal.
Qed.

Lemma occurs_in_here sub post : occurs_in sub (sub +:+ post).
Proof. by exists "", post. Qed.

Lemma occurs_in_app_r pre s sub : occurs_in sub s → occurs_in sub (pre +:+ s).
Proof.
  intros (p & q & ->). exists (pre +:+ p), q. by rewrite append_assoc.
Qed.

Lemma occurs_in_app_l s post sub :
  occurs_in sub s → occurs_in sub (s +:+ post).
Proof.
  intros (p & q & ->). exists p, (q +:+ post). by rewrite !append_assoc.
Qed.

Lemma prefix_occurs sub s :
  String.prefix sub s = true → ∃ post, s = sub +:+ post.
Proof.
  revert s. induction sub as [|a sub IH]; intros [|b s]; cbn;
    try discriminate.
  - intros _. by exists "".
  - intros _. by exists (String b s).
  - destruct (Ascii.ascii_dec a b) as [->|]; [|discriminate].
    intros (post & ->)%IH. by exists post.
Qed.

Lemma contains_occurs_in sub s : contains sub s = true → occurs_in sub s.
Proof.
  induction s as [|a s IH]; unfold contains; fold contains.
  - rewrite orb_false_r. intros (post & ->)%prefix_occurs. by exists "", post.
  - intros [(post & ->)%prefix_occurs|(p & q & ->)%IH]%orb_true_iff.
    + by exists "", post.
    + by exists (String a p), q.
Qed.

Ltac occurs :=
  lazymatch goal with
  | |- occurs_in ?sub (?sub +:+ _) => apply occurs_in_here
  | |- occurs_in (String ?a ?sub) (String ?b ?lit +:+ _) =>
      let found := eval vm_compute in
        (contains (String a sub) (String b lit)) in
      lazymatch found with
      | true =>
          apply occurs_in_app_l, contains_occurs_in; vm_compute; reflexivity
      | false => apply occurs_in_app_r; occurs
      end
  | |- occurs_in _ (_ +:+ _) => apply occurs_in_app_r; occurs
  end.

Lemma client_secret_instructions_contents cid tid :
  let text := client_secret_instructions cid tid in
  occurs_in cid text ∧ occurs_in tid text
  ∧ occurs_in "OPTION 1 - Provide via parameter" text
  ∧ occurs_in "OPTION 2 - Set as environment variable" text.
Proof. cbv zeta. unfold client_secret_instructions. repeat split; occurs. Qed.

Lemma device_code_instructions_contents info :
  let text := device_code_instructions info in
  occurs_in (verification_uri info) text
  ∧ occurs_in (user_code info) text
  ∧ occurs_in (pretty (expires_in info)) text.
Proof. cbv zeta. unfold device_code_instructions. repeat split; occurs. Qed.

(** ** The executor: results and error handling *)

Section Claims.
Context `{PyBuiltins}.

Lemma top_level_inr e d :
  top_level e = inr d → is_Exception e = true ∧ d = fault_result e.
Proof. unfold top_level. destruct (is_Exception e); by intros [= <-]. Qed.

Lemma top_level_inl e e' :
  top_level e = inl e' → is_Exception e = false ∧ e' = e.
Proof. unfold top_level. destruct (is_Exception e); by intros [= <-]. Qed.

Lemma call_outcome_structured env command method data o s s' evs d :
  call_outcome env command method data o s s' evs (inr d) →
  structured d
  ∧ (d !! "success" = Some (PBool true) →
     ∃ req response,
       last evs = Some (EvHttp req) ∧ http_request env req = inr response
       ∧ status_code response ∈ [200; 201; 202; 204]%Z).
Proof.
  inversion 1 as [? ? e Ha|? ? ? Ha|? ? ? ? e Ha Hr|? ? ? ? ? Ha Hr];
    subst;
    try match goal with
        | E : top_level _ = inr _ |- _ => apply top_level_inr in E as [_ ->]
        end.
  - split; [right; solve_failure|].
    intros E. by apply failure_not_success in E; [|solve_failure].
  - apply auth_early_failure in Ha as [Hf _].
    split; [by right|]. intros E. by apply failure_not_success in E.
  - split; [right; solve_failure|].
    intros E. by apply failure_not_success in E; [|solve_failure].
  - apply request_outcome_structured in Hr as [Hs Hok].
    split; [done|]. intros E.
    destruct (Hok E) as (req & response & -> & ? & ?).
    exists req, response. by rewrite last_snoc.
Qed.

(** C2, as the code has it.  A call ends in one of two ways.  It returns
    a dictionary: the one its body returned, which is either a success
    (with its data and status code, and only when the API answered the
    request with a status among 200, 201, 202 and 204) or a failure
    ([success] false and an [error] message); or, when an instance of
    [Exception] left the body, the failure whose [error] is the text of
    that exception, with no other member than [success].  Or it lets
    through the exception that left its body: that happens exactly when
    that exception is no instance of [Exception].  The object and the
    events are those of the body in every case. *)
Theorem execute_command_catches_exceptions
    env command method data override s :
  let body := run (execute_body env command method data override) s in
  let out := run (execute_command env command method data override) s in
  out.1 = body.1
  ∧ match body.2 with
    | inr d =>
        out.2 = inr d
        ∧ structured d
        ∧ (d !! "success" = Some (PBool true) →
           ∃ req response,
             last out.1.2 = Some (EvHttp req)
             ∧ http_request env req = inr response
             ∧ status_code response ∈ [200; 201; 202; 204]%Z)
    | inl e =>
        if is_Exception e then
          out.2 = inr (fault_result e)
          ∧ fault_result e
            = {[ "success" := PBool false; "error" := PStr (str_exn e) ]}
          ∧ fault_result e !! "success" = Some (PBool false)
          ∧ fault_result e !! "error" = Some (PStr (str_exn e))
        else out.2 = inl e
    end.
Proof.
  intros body out.
  destruct (execute_command_outcome env command method data override s)
    as (s' & evs & r & Hrun & Hc).
  assert (out = (body.1,
                 match body.2 with
                 | inl e => top_level e
                 | inr d => inr d
                 end)) as Hout.
  { subst out body. unfold run, execute_command, try_except.
    destruct (execute_body _ _ _ _ _ _) as [w [e|d]]; [|done].
    by destruct e. }
  split; [by rewrite Hout|].
  destruct body.2 as [e|d] eqn:Hb.
  - rewrite Hout. cbn [snd]. unfold top_level.
    by destruct (is_Exception e).
  - rewrite Hout. cbn [fst snd]. split; [done|].
    assert (r = inr d ∧ evs = body.1.2) as [-> ->].
    { fold out in Hrun. rewrite Hout in Hrun.
      destruct body as [[? ?] ?]. cbn in *. by simplify_eq. }
    by apply call_outcome_structured in Hc.
Qed.

Lemma auth_outcome_secret_missing cfg env o s s' evs r :
  inv cfg s →
  Config.mode (auth_config s) = Config.ModeCustom →
  truthy_str (stored_secret s o) = false →
  auth_outcome env o s s' evs r →
  credential s = None
  ∧ s' = store_secret o s ∧ evs = []
  ∧ r = inr (inl (client_secret_prompt (Config.client_id (auth_config s))
                   (Config.tenant_id (auth_config s)))).
Proof.
  intros Hi Hm Hs Ha.
  assert (credential s = None) as Hn.
  { destruct Hi as (_ & Hc & _). rewrite Hm in Hc.
    destruct (credential s); [|done]. destruct Hc as [_ Hc].
    apply (stored_secret_truthy s o) in Hc. congruence. }
  split; [done|].
  inversion Ha; subst; try done; exfalso;
    repeat match goal with
           | Hr : credential_ready _ _ _ |- _ =>
               destruct (Hr Hn) as [_ ?]; clear Hr
           | Ht : Config.mode _ = _ → _ |- _ => specialize (Ht Hm)
           end;
    congruence.
Qed.

(** C3. Under the client-secret strategy (custom mode), when no secret is
    known (none stored in the object, which holds the configured one and any
    earlier override, and none passed to the call), a call from any
    reachable object returns at once the prompt: [success] false,
    [auth_required] true, the error that a client secret is required, the
    configured client and tenant identifiers, and instructions that contain
    both identifiers and the two ways of supplying the secret; the object is
    unchanged, holds no credential, and the call has no event: no
    credential is constructed, no token requested, no HTTP request sent. *)
Theorem client_secret_required cfg env command method data override s :
  reachable cfg s →
  Config.mode (auth_config s) = Config.ModeCustom →
  truthy_str (client_secret s) = false →
  truthy_str override = false →
  let cid := Config.client_id (auth_config s) in
  let tid := Config.tenant_id (auth_config s) in
  let d := client_secret_prompt cid tid in
  run (execute_command env command method data override) s = (s, [], inr d)
  ∧ credential s = None
  ∧ d !! "success" = Some (PBool false)
  ∧ d !! "auth_required" = Some (PBool true)
  ∧ d !! "error"
    = Some (PStr "Client secret required for custom app registration")
  ∧ d !! "client_id" = Some (PStr cid)
  ∧ d !! "tenant_id" = Some (PStr tid)
  ∧ ∃ text,
      d !! "instructions" = Some (PStr text)
      ∧ occurs_in cid text ∧ occurs_in tid text
      ∧ occurs_in "OPTION 1 - Provide via parameter" text
      ∧ occurs_in "OPTION 2 - Set as environment variable" text.
Proof.
  intros Hreach Hm Hs Ho cid tid d.
  apply reachable_inv in Hreach as Hi.
  assert (truthy_str (stored_secret s override) = false) as Hst
    by (unfold stored_secret; by rewrite Ho).
  assert (store_secret override s = s) as Hstore
    by (unfold store_secret; by rewrite Ho).
  destruct (execute_command_outcome env command method data override s)
    as (s' & evs & r & -> & Hc).
  assert (s' = s ∧ evs = [] ∧ r = inr d ∧ credential s = None)
    as (-> & -> & -> & Hn).
  { inversion Hc as [? ? e Ha|? ? ? Ha|? ? ? ? e Ha Hr|? ? ? ? ? Ha Hr];
      subst;
      destruct (auth_outcome_secret_missing _ _ _ _ _ _ _ Hi Hm Hst Ha)
        as (Hn & -> & -> & [=]); subst; by rewrite Hstore. }
  split; [done|]. split; [done|].
  repeat (split; [reflexivity|]).
  eexists. split; [reflexivity|].
  apply client_secret_instructions_contents.
Qed.
End Claims.

(** ** The executor: the credential and the device code *)

Section Credential.
Context `{PyBuiltins}.

(** *** The authentication stage is determined by its inputs *)

Ltac same_scrutinee :=
  repeat match goal with
         | H1 : ?x = _, H2 : ?x = _ |- _ =>
             rewrite H1 in H2;
             first [ discriminate H2 | injection H2 as ?; subst | clear H2 ]
         end.

Lemma auth_outcome_det env o s s1 evs1 r1 s2 evs2 r2 :
  auth_outcome env o s s1 evs1 r1 → auth_outcome env o s s2 evs2 r2 →
  s1 = s2 ∧ evs1 = evs2 ∧ r1 = r2.
Proof.
  intros H1 H2.
  inversion H1; subst; inversion H2; subst;
    repeat match goal with
           | c := _ |- _ => subst c
           end;
    try (exfalso;
         repeat match goal with
                | Hr : credential_ready _ _ _, Hn : credential _ = None |- _ =>
                    destruct (Hr Hn) as [? ?]; clear Hr
                | Ht : Config.mode _ = _ → _, Hm : Config.mode _ = _ |- _ =>
                    specialize (Ht Hm)
                end;
         same_scrutinee; cbn in *; congruence);
    same_scrutinee; done.
Qed.

Lemma authenticate_run env o s s' evs r :
  auth_outcome env o s s' evs r → run (authenticate env o) s = (s', evs, r).
Proof.
  intros Ha. pose proof (authenticate_outcome env o s) as Hb.
  destruct (auth_outcome_det _ _ _ _ _ _ _ _ _ Hb Ha) as (E1 & E2 & E3).
  destruct (run (authenticate env o) s) as [[? ?] ?]. cbn in *. congruence.
Qed.

Lemma call_outcome_early env command method data o s s' evs d sx ex dx :
  auth_outcome env o s sx ex (inr (inl dx)) →
  call_outcome env command method data o s s' evs d →
  s' = sx ∧ evs = ex ∧ d = inr dx.
Proof.
  intros Ha.
  inversion 1 as [? ? ? Hb|? ? ? Hb|? ? ? ? ? Hb|? ? ? ? ? Hb]; subst;
    destruct (auth_outcome_det _ _ _ _ _ _ _ _ _ Ha Hb) as (-> & -> & [=]);
    by subst.
Qed.

(** *** The shape of a call's events *)

Lemma auth_outcome_shape env o s s' evs r :
  auth_outcome env o s s' evs r →
  let c := credential_for_call s o in
  (credential s = None
   ∧ (evs = []
      ∧ Config.mode (auth_config s) = Config.ModeCustom
      ∧ truthy_str (stored_secret s o) = false
      ∨ evs = [EvCredential c])
   ∧ s' = store_secret o s
   ∧ ∀ tok, r ≠ inr (inr tok))
  ∨ (credential_ready env o s
     ∧ evs = token_events s c
     ∧ ∃ kept, s' = after_token env o s kept
               ∧ (kept = None ∨ kept = Some c)).
Proof.
  inversion 1; subst; cbv zeta; [left|left|right..]; eauto 10.
Qed.

Lemma body_outcome_events env command method data tok evs x :
  body_outcome env command method data tok evs x →
  evs = [] ∨ ∃ req, evs = [EvHttp req].
Proof. inversion 1; eauto. Qed.

Lemma request_outcome_events env command method data tok evs x :
  request_outcome env command method data tok evs x →
  evs = [] ∨ ∃ req, evs = [EvHttp req].
Proof. inversion 1; eauto using body_outcome_events. Qed.

(** The events of a call: those of the authentication stage, then at most
    one HTTP request, which needs a token. *)
Lemma call_outcome_events env command method data o s s' evs d :
  call_outcome env command method data o s s' evs d →
  ∃ a h r,
    auth_outcome env o s s' a r
    ∧ evs = (a ++ h)%list
    ∧ (h = [] ∨ ∃ req tok, h = [EvHttp req] ∧ r = inr (inr tok)).
Proof.
  inversion 1 as [? ? ? Ha|? ? ? Ha|? ? ? ? ? Ha Hr|? ? ? ? ? Ha Hr]; subst.
  - eexists _, [], _. rewrite app_nil_r. eauto.
  - eexists _, [], _. rewrite app_nil_r. eauto.
  - eexists _, _, _. split; [done|]. split; [done|].
    apply request_outcome_events in Hr as [->|[req ->]]; eauto.
  - eexists _, _, _. split; [done|]. split; [done|].
    apply request_outcome_events in Hr as [->|[req ->]]; eauto.
Qed.

Lemma credentials_created_app a b :
  credentials_created (a ++ b)
  = credentials_created a + credentials_created b.
Proof.
  unfold credentials_created. by rewrite List.filter_app, length_app.
Qed.

Lemma credentials_created_token_events s c :
  credentials_created (token_events s c)
  = match credential s with None => 1 | Some _ => 0 end.
Proof. unfold token_events. by destruct (credential s). Qed.

Lemma elem_of_token_events s c c' sc :
  EvGetToken c' sc ∈ token_events s c ↔
  c' = c ∧ sc = Config.scopes (auth_config s).
Proof.
  unfold token_events.
  destruct (credential s); cbn;
    rewrite ?elem_of_cons, elem_of_nil; intuition congruence.
Qed.


Lemma credential_for_call_cached s o c :
  credential s = Some c → credential_for_call s o = c.
Proof. unfold credential_for_call. by intros ->. Qed.

Lemma credential_for_call_default cfg s o :
  inv cfg s → Config.mode (auth_config s) = Config.ModeDefault →
  credential_for_call s o
  = DeviceCodeCredential (Config.client_id (auth_config s))
      (Config.tenant_id (auth_config s)).
Proof.
  intros (_ & Hc & _) Hm. unfold credential_for_call.
  rewrite Hm in *. by destruct (credential s).
Qed.

(** C6. In default mode, when the token request exceeds the wait ceiling
    after the provider called the device-code callback with
    [(verification_uri, user_code, expires_in)], the call returns
    [success] false and [auth_required] true with exactly these three
    values as fields of the result and inside the step-by-step
    instructions, and the object keeps the credential.  The instructions
    are the five numbered steps of lines 165-175: the first one carries the
    URL, the second one the code and the fourth one the number of
    seconds. *)
Theorem device_code_pending_on_timeout
    cfg env command method data override s info msg :
  reachable cfg s →
  Config.mode (auth_config s) = Config.ModeDefault →
  let c := DeviceCodeCredential (Config.client_id (auth_config s))
             (Config.tenant_id (auth_config s)) in
  (credential s = None → cred_init env c = None) →
  cred_get_token env c (Config.scopes (auth_config s))
    = {| prompt := Some info; token_result := inl (TimeoutError msg) |} →
  let out := run (execute_command env command method data override) s in
  let d := device_code_result info in
  out.2 = inr d
  ∧ credential out.1.1 = Some c
  ∧ device_code_info out.1.1 = Some info
  ∧ d !! "success" = Some (PBool false)
  ∧ d !! "auth_required" = Some (PBool true)
  ∧ d !! "verification_uri" = Some (PStr (verification_uri info))
  ∧ d !! "user_code" = Some (PStr (user_code info))
  ∧ d !! "expires_in" = Some (PInt (expires_in info))
  ∧ ∃ text,
      d !! "instructions" = Some (PStr text)
      ∧ occurs_in (verification_uri info) text
      ∧ occurs_in (user_code info) text
      ∧ occurs_in (pretty (expires_in info)) text
      ∧ text
        = lines
            [ "";
              "AUTHENTICATION REQUIRED:";
              "";
              "1. Open this URL in your browser: " +:+ verification_uri info;
              "2. Enter this code: " +:+ user_code info;
              "3. Complete the sign-in process with your Microsoft account";
              "4. This code expires in " +:+ pretty (expires_in info)
                +:+ " seconds";
              "5. After successful authentication, try your request again";
              "";
              "The authentication will be cached for future requests.";
              "" ].
Proof.
  intros Hreach Hm c Hinit Htok out d. subst c.
  apply reachable_inv in Hreach as Hi.
  pose proof (credential_for_call_default _ _ override Hi Hm) as Hcc.
  assert (credential_ready env override s) as Hready.
  { intros Hn. rewrite Hcc. split; [by apply Hinit|]. by rewrite Hm. }
  pose proof (auth_timeout env override s msg Hready) as Hexp.
  cbv zeta in Hexp. unfold fresh_device_code in Hexp.
  rewrite Hcc, Htok in Hexp. cbn [prompt token_result] in Hexp.
  specialize (Hexp eq_refl).
  destruct (execute_command_outcome env command method data override s)
    as (s' & evs & d' & Hrun & Hc).
  destruct (call_outcome_early _ _ _ _ _ _ _ _ _ _ _ _ Hexp Hc)
    as (-> & -> & ->).
  subst out. rewrite Hrun. cbn [fst snd].
  destruct (after_token_fields env override s
              (Some (DeviceCodeCredential (Config.client_id (auth_config s))
                       (Config.tenant_id (auth_config s)))))
    as (_ & _ & -> & -> & _).
  unfold fresh_device_code. rewrite Hcc, Htok. cbn [prompt].
  repeat (split; [reflexivity|]).
  eexists. split; [reflexivity|].
  destruct (device_code_instructions_contents info) as (Hu & Hc' & He).
  do 3 (split; [done|]).
  unfold lines, device_code_instructions, Main.nl. cbn [String.concat].
  rewrite !append_assoc. reflexivity.
Qed.


(** A call on an object without credential, in custom mode with a secret at
    hand, starts by constructing the client-secret credential with that
    secret. *)
Lemma call_constructs_credential env command method data o s s' evs d :
  credential s = None →
  Config.mode (auth_config s) = Config.ModeCustom →
  truthy_str (stored_secret s o) = true →
  call_outcome env command method data o s s' evs d →
  ∃ rest,
    evs = EvCredential
            (ClientSecretCredential (Config.tenant_id (auth_config s))
               (Config.client_id (auth_config s)) (stored_secret s o))
          :: rest.
Proof.
  intros Hn Hm Hs Hc.
  apply call_outcome_events in Hc as (a & h & r & Ha & -> & _).
  apply auth_outcome_shape in Ha. cbv zeta in Ha.
  unfold token_events, credential_for_call in Ha. rewrite Hn, Hm in Ha.
  destruct Ha as [(_ & [(_ & _ & ?)| ->] & _)|(_ & -> & _)];
    [congruence|..]; cbn; eauto.
Qed.

(** C4, as the code has it.  One credential attribute: a call constructs at
    most one credential, and none when one is cached.  Under either
    strategy, when the token request exceeds the wait ceiling the object
    keeps its credential.  Under the client-secret strategy, on an object
    the service can reach, when the token request ends with any other
    instance of [Exception], the call returns a failure asking for
    authentication and leaves the object without credential, so that the
    next call starts by constructing a client-secret credential with the
    secret then stored, which is the next call's override when it has
    one. *)
Theorem acquisition_error_discards_credential
    cfg env command method data override s :
  let out := run (execute_command env command method data override) s in
  ((credentials_created out.1.2 ≤ 1)%nat
   ∧ (is_Some (credential s) → credentials_created out.1.2 = 0))
  ∧ (∀ msg,
       credential_ready env override s →
       token_result
         (cred_get_token env (credential_for_call s override)
            (Config.scopes (auth_config s))) = inl (TimeoutError msg) →
       credential out.1.1 = Some (credential_for_call s override))
  ∧ ∀ e,
      reachable cfg s →
      Config.mode (auth_config s) = Config.ModeCustom →
      credential_ready env override s →
      token_result
        (cred_get_token env (credential_for_call s override)
           (Config.scopes (auth_config s))) = inl e →
      is_timeout e = false →
      is_Exception e = true →
      credential out.1.1 = None
      ∧ (∃ d, out.2 = inr d ∧ failure d
              ∧ d !! "auth_required" = Some (PBool true))
      ∧ ∀ env' command' method' data' override',
          (truthy_str override' = true →
           stored_secret out.1.1 override' = override')
          ∧ ∃ rest,
              (run (execute_command env' command' method' data' override')
                 out.1.1).1.2
              = EvCredential
                  (ClientSecretCredential (Config.tenant_id (auth_config s))
                     (Config.client_id (auth_config s))
                     (stored_secret out.1.1 override'))
                :: rest.
Proof.
  intros out.
  destruct (execute_command_outcome env command method data override s)
    as (s' & evs & d & Hrun & Hc).
  subst out. rewrite Hrun. cbn [fst snd]. split.
  - apply call_outcome_events in Hc as (a & h & r & Ha & -> & Hh).
    rewrite credentials_created_app.
    assert (credentials_created h = 0) as ->
      by (by destruct Hh as [->|(req & tok & -> & _)]).
    apply auth_outcome_shape in Ha. cbv zeta in Ha.
    destruct Ha as [(Hn & [(-> & _)| ->] & _)|(_ & -> & _)].
    + rewrite Hn. split; [cbn; lia|]. by intros [? [=]].
    + rewrite Hn. split; [cbn; lia|]. by intros [? [=]].
    + rewrite credentials_created_token_events.
      destruct (credential s); split; try lia; by intros [? [=]].
  - split.
    { intros msg Hready Htok.
      pose proof (auth_timeout env override s msg Hready Htok) as Hexp.
      cbv zeta in Hexp.
      destruct (call_outcome_early _ _ _ _ _ _ _ _ _ _ _ _ Hexp Hc)
        as (-> & _ & _).
      by destruct (after_token_fields env override s
                     (Some (credential_for_call s override)))
        as (_ & _ & -> & _). }
    intros e Hreach Hm Hready Htok He Hx.
    apply reachable_inv in Hreach as Hi.
    pose proof (auth_error env override s e Hready Htok He Hx) as Hexp.
    cbv zeta in Hexp.
    destruct (call_outcome_early _ _ _ _ _ _ _ _ _ _ _ _ Hexp Hc)
      as (-> & -> & ->).
    destruct (after_token_fields env override s None)
      as (_ & Hcfg & Hcred & _ & Hsec).
    split; [done|]. split.
    { apply auth_early_failure in Hexp as [? ?]. eauto. }
    intros env' command' method' data' override'.
    split; [unfold stored_secret; by intros ->|].
    pose proof (credential_for_call_inv _ _ _ _ Hi Hready) as Hcc.
    cbv zeta in Hcc. rewrite Hm in Hcc. destruct Hcc as [_ Hs].
    destruct (execute_command_outcome env' command' method' data' override'
                (after_token env override s None))
      as (s2 & evs2 & d2 & -> & Hc2).
    cbn [fst snd]. rewrite <- Hcfg.
    eapply call_constructs_credential; [done|by rewrite Hcfg| |done].
    apply stored_secret_truthy. by rewrite Hsec.
Qed.

(** C5, as the code has it.  The stored device code is reset after the
    credential step and before the token request: after a call that
    requested a token the object holds what this call's callback stored
    (nothing when the provider did not call it), whatever it held before; a
    call that ends at the credential step, with the prompt for the secret
    or with a fault of the constructor, leaves it as it was. *)
Theorem device_code_cleared_before_token_request
    env command method data override s :
  let out := run (execute_command env command method data override) s in
  (∀ c scopes,
     EvGetToken c scopes ∈ out.1.2 →
     device_code_info out.1.1 = fresh_device_code env c scopes)
  ∧ ((∀ c scopes, EvGetToken c scopes ∉ out.1.2) →
     device_code_info out.1.1 = device_code_info s
     ∧ (out.1.2 = [] ∨ ∃ c, out.1.2 = [EvCredential c])).
Proof.
  intros out.
  destruct (execute_command_outcome env command method data override s)
    as (s' & evs & d & Hrun & Hc).
  subst out. rewrite Hrun. cbn [fst snd].
  apply call_outcome_events in Hc as (a & h & r & Ha & -> & Hh).
  assert (∀ c sc, EvGetToken c sc ∉ h) as Hnh.
  { intros c sc. destruct Hh as [->|(req & tok & -> & _)];
      rewrite ?elem_of_cons, elem_of_nil; intuition congruence. }
  pose proof (auth_outcome_shape _ _ _ _ _ _ Ha) as Hs. cbv zeta in Hs.
  destruct Hs as [(Hn & He & -> & Hr)|(Hready & -> & kept & -> & _)].
  - destruct (store_secret_fields override s) as (_ & _ & _ & -> & _).
    assert (h = []) as ->.
    { destruct Hh as [->|(req & tok & _ & ->)]; [done|]. by destruct (Hr tok). }
    split.
    + intros c sc. rewrite app_nil_r.
      destruct He as [(-> & _)| ->];
        rewrite ?elem_of_cons, elem_of_nil; intuition congruence.
    + intros _. split; [done|]. rewrite app_nil_r.
      destruct He as [(-> & _)| ->]; eauto.
  - destruct (after_token_fields env override s kept)
      as (_ & _ & _ & -> & _).
    split.
    + intros c sc [Hin|Hin]%elem_of_app; [|by apply Hnh in Hin].
      by apply elem_of_token_events in Hin as [-> ->].
    + intros Hno. exfalso. eapply Hno, elem_of_app. left.
      by apply elem_of_token_events.
Qed.

End Credential.

(** ** The executor: dispatch and responses *)

Section Dispatch.
Context `{PyBuiltins}.

Lemma run_world {A : Type} (m : M A) s s' evs r :
  run m s = (s', evs, r) →
  m {| svc := s; trace := [] |} = ({| svc := s'; trace := evs |}, r).
Proof.
  unfold run. destruct (m _) as [[s0 t0] r0]. by intros [= -> -> ->].
Qed.

Lemma verb_name_inj v v' : verb_name v = verb_name v' → v = v'.
Proof. by destruct v, v'. Qed.

Lemma auth_outcome_no_http env o s s' evs r :
  auth_outcome env o s s' evs r → Forall (λ e, is_EvHttp e = false) evs.
Proof.
  intros Ha. apply auth_outcome_shape in Ha. cbv zeta in Ha.
  unfold token_events in Ha.
  destruct Ha as [(_ & [(-> & _)| ->] & _)|(_ & -> & _)];
    [..|destruct (credential s)]; by repeat constructor.
Qed.

(** The run of a call whose authentication stage gave a token. *)
Lemma execute_command_with_token env command method data o s s1 evs1 tok :
  run (authenticate env o) s = (s1, evs1, inr (inr tok)) →
  ∃ evs x,
    request_outcome env command method data tok evs x
    ∧ run (execute_command env command method data o) s
      = (s1, (evs1 ++ evs)%list,
         match x with inl e => top_level e | inr d => inr d end).
Proof.
  intros Ha%run_world.
  pose proof (request_run env command method data tok
                {| svc := s1; trace := evs1 |}) as Hr.
  unfold run, wp in *. rewrite execute_command_unfold, Ha.
  destruct (request env command method data tok _) as [w2 x].
  cbn [fst snd] in Hr. destruct Hr as (evs & -> & Hr).
  exists evs, x. split; [done|]. by destruct x.
Qed.




Lemma body_outcome_verb env command method data tok evs x v :
  str_upper method = verb_name v →
  body_outcome env command method data tok evs x →
  evs = [EvHttp (request_for v command data tok)].
Proof.
  intros Hv. inversion 1 as [Hu|v' ? Hv'|v' ? ? Hv']; subst.
  - by destruct (Hu v).
  - rewrite Hv in Hv'. by apply verb_name_inj in Hv' as ->.
  - rewrite Hv in Hv'. by apply verb_name_inj in Hv' as ->.
Qed.


End Dispatch.

(** ** The executor: the secret override *)

Section Override.
Context `{PyBuiltins}.

(** With a cached credential the stage goes straight to the token request,
    and the override has no part in what follows. *)
Lemma authenticate_cached env s c :
  credential s = Some c →
  ∃ kept r,
    (kept = Some c ∨ kept = None)
    ∧ ∀ o, run (authenticate env o) s
           = (after_token env o s kept,
              [EvGetToken c (Config.scopes (auth_config s))], r).
Proof.
  intros Hc.
  assert (∀ o, credential_ready env o s) as Hready
    by (intros o Hn; congruence).
  assert (∀ o, token_events s (credential_for_call s o)
               = [EvGetToken c (Config.scopes (auth_config s))]) as Hev.
  { intros o. unfold token_events.
    by rewrite (credential_for_call_cached _ _ _ Hc), Hc. }
  destruct (token_result (cred_get_token env c (Config.scopes (auth_config s))))
    as [e|t] eqn:Ht.
  - destruct (is_timeout e) eqn:He.
    + destruct e as [msg| | | |]; try discriminate.
      eexists (Some c), _. split; [by left|]. intros o.
      rewrite <- (Hev o).
      rewrite <- (credential_for_call_cached s o c Hc) at 1.
      pose proof (auth_timeout env o s msg (Hready o)) as Hx.
      cbv zeta in Hx. rewrite (credential_for_call_cached _ o _ Hc) in Hx at 1.
      specialize (Hx Ht).
      rewrite (credential_for_call_cached _ o _ Hc) in Hx at 3.
      by apply authenticate_run.
    + destruct (is_Exception e) eqn:Hx'.
      * eexists None, _. split; [by right|]. intros o.
        rewrite <- (Hev o).
        pose proof (auth_error env o s e (Hready o)) as Hx.
        cbv zeta in Hx.
        rewrite (credential_for_call_cached _ o _ Hc) in Hx at 1.
        specialize (Hx Ht He Hx').
        rewrite (credential_for_call_cached _ o _ Hc) in Hx at 2.
        by apply authenticate_run.
      * eexists (Some c), _. split; [by left|]. intros o.
        rewrite <- (Hev o).
        rewrite <- (credential_for_call_cached s o c Hc) at 1.
        pose proof (auth_escape env o s e (Hready o)) as Hx.
        cbv zeta in Hx.
        rewrite (credential_for_call_cached _ o _ Hc) in Hx at 1.
        specialize (Hx Ht Hx').
        by apply authenticate_run.
  - eexists (Some c), _. split; [by left|]. intros o.
    rewrite <- (Hev o).
    rewrite <- (credential_for_call_cached s o c Hc) at 1.
    pose proof (auth_token env o s t (Hready o)) as Hx.
    cbv zeta in Hx. rewrite (credential_for_call_cached _ o _ Hc) in Hx at 1.
    specialize (Hx Ht).
    by apply authenticate_run.
Qed.

Lemma execute_command_cached env command method data s c :
  credential s = Some c →
  ∃ kept evs d,
    (kept = Some c ∨ kept = None)
    ∧ credentials_created evs = 0
    ∧ ∀ o, run (execute_command env command method data o) s
           = (after_token env o s kept,
              EvGetToken c (Config.scopes (auth_config s)) :: evs, d).
Proof.
  intros Hc.
  destruct (authenticate_cached env s c Hc) as (kept & r & Hk & Ha).
  destruct r as [e|[early|tok]].
  - exists kept, [], (top_level e). split; [done|]. split; [done|].
    intros o. specialize (Ha o). apply run_world in Ha.
    unfold run. by rewrite execute_command_unfold, Ha.
  - exists kept, [], (inr early). split; [done|]. split; [done|].
    intros o. specialize (Ha o). apply run_world in Ha.
    unfold run. by rewrite execute_command_unfold, Ha.
  - destruct (request_stateless env command method data tok)
      as (evs & x & Hr).
    exists kept, evs, (match x with inl e => top_level e | inr d => inr d end).
    split; [done|]. split.
    { pose proof (request_run env command method data tok
                    {| svc := s; trace := [] |}) as Hw.
      unfold wp in Hw. rewrite Hr in Hw. cbn in Hw.
      destruct Hw as (evs' & [= ->] & Hw).
      by apply request_outcome_events in Hw as [->|[req ->]]. }
    intros o. specialize (Ha o). apply run_world in Ha.
    unfold run. rewrite execute_command_unfold, Ha, Hr. by destruct x.
Qed.

Lemma call_outcome_client_secret env command method data o s s' evs d :
  call_outcome env command method data o s s' evs d →
  client_secret s' = stored_secret s o ∧ auth_config s' = auth_config s.
Proof.
  intros (a & h & r & Ha & _)%call_outcome_events.
  apply auth_outcome_shape in Ha. cbv zeta in Ha.
  destruct Ha as [(_ & _ & -> & _)|(_ & _ & kept & -> & _)].
  - by destruct (store_secret_fields o s) as (_ & -> & _ & _ & ->).
  - by destruct (after_token_fields env o s kept) as (_ & -> & _ & _ & ->).
Qed.

(** C10. When a credential is cached and the call carries a non-empty
    secret, the secret is stored, and it is the only difference with the
    same call without it: the events and the result are the same and the
    object differs in [client_secret] alone.  No credential is constructed,
    the token is requested from the cached credential, and the call ends
    with that credential or, when the request failed, with none.  A later
    call without a secret of its own still holds the stored one, and in
    custom mode, once the credential is gone, starts by constructing a
    client-secret credential with it. *)
Theorem override_keeps_cached_credential
    env command method data override s c :
  credential s = Some c →
  truthy_str override = true →
  let out := run (execute_command env command method data override) s in
  let ref := run (execute_command env command method data None) s in
  client_secret out.1.1 = override
  ∧ out.1.1 = set_client_secret override ref.1.1
  ∧ out.1.2 = ref.1.2
  ∧ out.2 = ref.2
  ∧ credentials_created out.1.2 = 0
  ∧ (∃ rest, out.1.2 = EvGetToken c (Config.scopes (auth_config s)) :: rest)
  ∧ (credential out.1.1 = Some c ∨ credential out.1.1 = None)
  ∧ ∀ env' command' method' data' override',
      truthy_str override' = false →
      let next :=
        run (execute_command env' command' method' data' override') out.1.1 in
      client_secret next.1.1 = override
      ∧ (Config.mode (auth_config s) = Config.ModeCustom →
         credential out.1.1 = None →
         ∃ rest,
           next.1.2
           = EvCredential
               (ClientSecretCredential (Config.tenant_id (auth_config s))
                  (Config.client_id (auth_config s)) override)
             :: rest).
Proof.
  intros Hc Ho out ref.
  destruct (execute_command_cached env command method data s c Hc)
    as (kept & evs & d & Hk & Hev & Hrun).
  subst out ref. rewrite (Hrun override), (Hrun None). cbn [fst snd].
  destruct (after_token_fields env override s kept)
    as (_ & Hcfg & Hcred & _ & Hsec).
  assert (stored_secret s override = override) as Hst
    by (unfold stored_secret; by rewrite Ho).
  rewrite Hst in Hsec.
  split; [done|]. split.
  { unfold after_token, store_secret. rewrite Ho. cbn [truthy_str].
    by rewrite !(credential_for_call_cached _ _ _ Hc). }
  split; [done|]. split; [done|]. split; [done|].
  split; [by eexists|]. split; [by rewrite Hcred|].
  intros env' command' method' data' override' Ho'.
  destruct (execute_command_outcome env' command' method' data' override'
              (after_token env override s kept))
    as (s2 & evs2 & d2 & Hrun2 & Hc2).
  rewrite Hrun2. cbn [fst snd].
  assert (stored_secret (after_token env override s kept) override'
          = override) as Hst2
    by (unfold stored_secret; by rewrite Ho', Hsec).
  split.
  - apply call_outcome_client_secret in Hc2 as [-> _]. done.
  - intros Hm Hn.
    pose proof (λ Hmode Hsecret,
                  call_constructs_credential _ _ _ _ _ _ _ _ _
                    Hn Hmode Hsecret Hc2) as Hnext.
    rewrite Hcfg, Hst2 in Hnext. by apply Hnext.
Qed.

End Override.

Section Shape.
Context `{PyBuiltins}.

Lemma handle_response_flat_error response body error w :
  status_code response ∉ [200; 201; 202; 204]%Z →
  json response = inr (PDict body) →
  body !! "error" = Some error →
  is_dict error = false →
  handle_response response w = (w, inl (no_get error)).
Proof.
  intros Hs Hj He Hd.
  unfold handle_response, response_json, py_get, try_except, mbind, M_bind,
    raise, mret, M_ret.
  rewrite (bool_decide_eq_false_2 _ Hs), Hj, He. cbn [default].
  by destruct error.
Qed.

Lemma request_flat_error
    env command method data tok v response body error w :
  log_fault data = None →
  client_enter env = None → client_exit env = None →
  str_upper method = verb_name v →
  http_request env (request_for v command data tok) = inr response →
  status_code response ∉ [200; 201; 202; 204]%Z →
  json response = inr (PDict body) →
  body !! "error" = Some error →
  is_dict error = false →
  request env command method data tok w
  = ({| svc := svc w;
        trace := trace w ++ [EvHttp (request_for v command data tok)] |},
     inl (no_get error)).
Proof.
  intros Hl Hen Hex Hv Hh Hs Hj He Hd.
  unfold request, with_client, request_body, dispatch, send, mbind, M_bind,
    emit, raise, mret, M_ret.
  rewrite log_request_body_run, Hl, Hen, Hex, Hv.
  destruct v; cbn [verb_name String.eqb Ascii.eqb Bool.eqb];
    unfold request_for in Hh; cbn [sends_body] in Hh; rewrite Hh;
    by rewrite (handle_response_flat_error _ _ _ _ Hs Hj He Hd).
Qed.

(** C7, at the responses where the code departs from it.  Logging the
    body of the request raising nothing and the client
    context opening and closing without a fault, for a status
    outside 200, 201, 202 and 204 and a JSON body that is an object whose
    [error] member is not itself an object, [error.get("message", ...)]
    raises [AttributeError]; the handler of [json.JSONDecodeError] does not
    catch it, so the call returns the top-level failure, whose [error] is
    the text of the [AttributeError] and which has neither [status_code]
    nor [error_details]. *)
Theorem http_error_with_flat_error_member
    env command method data override s s1 evs1 tok v response body error :
  run (authenticate env override) s = (s1, evs1, inr (inr tok)) →
  log_fault data = None →
  client_enter env = None → client_exit env = None →
  str_upper method = verb_name v →
  http_request env (request_for v command data tok) = inr response →
  status_code response ∉ [200; 201; 202; 204]%Z →
  json response = inr (PDict body) →
  body !! "error" = Some error →
  is_dict error = false →
  let d := fault_result (no_get error) in
  run (execute_command env command method data override) s
  = (s1, (evs1 ++ [EvHttp (request_for v command data tok)])%list, inr d)
  ∧ d !! "success" = Some (PBool false)
  ∧ d !! "error"
    = Some (PStr ("'" +:+ py_type_name error
                  +:+ "' object has no attribute 'get'"))
  ∧ d !! "status_code" = None
  ∧ d !! "error_details" = None.
Proof.
  intros Ha%run_world Hl Hen Hex Hv Hh Hs Hj He Hd d.
  split; [|done].
  unfold run. rewrite execute_command_unfold, Ha.
  by rewrite
    (request_flat_error _ _ _ _ _ _ _ _ _ _ Hl Hen Hex Hv Hh Hs Hj He Hd).
Qed.

End Shape.

(** ** Sample runs *)

Ltac by_evaluation :=
  cbv zeta;
  repeat lazymatch goal with
         | |- _ ∧ _ => split
         end;
  vm_compute; reflexivity.

Section Samples.
#[local] Existing Instance sample_builtins.

(** The configurations of the two modes. *)
Example get_auth_config_custom :
  Config.get_auth_config cfg_custom
  = {| Config.mode := Config.ModeCustom;
       Config.client_id := "app-1";
       Config.tenant_id := "tenant-1";
       Config.auth_mode := Config.ClientSecret;
       Config.scopes := ["https://graph.microsoft.com/.default"] |}.
Proof. reflexivity. Qed.

Example get_auth_config_default :
  Config.get_auth_config cfg_default
  = {| Config.mode := Config.ModeDefault;
       Config.client_id := "14d82eec-204b-4c2f-b7e8-296a70dab67e";
       Config.tenant_id := "common";
       Config.auth_mode := Config.DeviceCode;
       Config.scopes := ["https://graph.microsoft.com/.default"] |}.
Proof. reflexivity. Qed.

(** An empty alias counts as absent: the custom pair wins only when both
    identifiers are non-empty. *)
Example get_auth_config_empty_tenant :
  Config.mode
    (Config.get_auth_config
       {| Config.graph_tenant_id := Some "";
          Config.graph_client_id := "14d82eec-204b-4c2f-b7e8-296a70dab67e";
          Config.custom_client_id := Some "app-1";
          Config.custom_tenant_id := Some "";
          Config.custom_client_secret := None;
          Config.use_app_reg_clientid := None;
          Config.tenantid := None;
          Config.client_secret := None;
          Config.graph_client_secret := None |})
  = Config.ModeDefault.
Proof. reflexivity. Qed.

(** A 204 answer to a DELETE. *)
Example delete_no_content :
  (run (execute_command
          (env_const None token_granted
             (inr {| status_code := 204; text := EmptyString;
                     json := inl (JSONDecodeError "Expecting value") |}))
          "users/1" "DELETE" None None) default_service).2
  = inr ({[ "success" := PBool true;
            "data" := PDict {[ "message" := PStr
              "Operation completed successfully (no content returned)" ]};
            "status_code" := PInt 204 ]} : dict).
Proof. by_evaluation. Qed.

(** A 404 whose body is [{"error": {"message": "Not found"}}]. *)
Example not_found_nested_message :
  let body : dict :=
    {[ "error" := PDict {[ "message" := PStr "Not found" ]} ]} in
  (run (execute_command
          (env_const None token_granted
             (inr {| status_code := 404; text := "{...}";
                     json := inr (PDict body) |}))
          "users/42" "GET" None None) default_service).2
  = inr ({[ "success" := PBool false;
            "error" := PStr "HTTP 404: Not found";
            "status_code" := PInt 404;
            "error_details" := PDict body ]} : dict).
Proof. by_evaluation. Qed.

(** A 200 answer that is not JSON. *)
Example ok_without_json :
  (run (execute_command
          (env_const None token_granted
             (inr {| status_code := 200; text := "done";
                     json := inl (JSONDecodeError "Expecting value") |}))
          "me" "get" None None) default_service).2
  = inr ({[ "success" := PBool true;
            "data" := PDict
              {[ "message" := PStr "Operation completed successfully";
                 "response_text" := PStr "done" ]};
            "status_code" := PInt 200 ]} : dict).
Proof. by_evaluation. Qed.

(** The body of a PUT travels as it is; leading slashes of the command are
    dropped. *)
Example put_sends_body :
  let body := Some (PDict {[ "displayName" := PStr "Ada" ]}) in
  (run (execute_command (env_const None token_granted (inr users_page))
          "//users/1" "Put" body None) default_service).1.2
  = [EvGetToken device_credential [Config.default_scope];
     EvHttp {| req_verb := PUT;
               req_url := "https://graph.microsoft.com/v1.0/users/1";
               req_headers :=
                 {[ "Authorization" := "Bearer eyJ0";
                    "Content-Type" := "application/json" ]};
               req_json := body |}].
Proof. by_evaluation. Qed.

(** An unknown verb: no request. *)
Example trace_is_unsupported :
  run (execute_command (env_const None token_granted (inr users_page))
         "users" "TRACE" None None) default_service
  = (default_service,
     [EvGetToken device_credential [Config.default_scope]],
     inr ({[ "success" := PBool false;
             "error" := PStr "Unsupported HTTP method: TRACE" ]} : dict)).
Proof. by_evaluation. Qed.

(** A timeout without device code. *)
Example timeout_without_device_code :
  (run (execute_command (env_const None token_timeout (inr users_page))
          "me" "GET" None None) (init cfg_default)).2
  = inr ({[ "success" := PBool false;
            "error" := PStr "Authentication timeout";
            "auth_required" := PBool true;
            "instructions" :=
              PStr "Authentication timed out. Please try again." ]} : dict).
Proof. by_evaluation. Qed.

(** A constructor that raises: the top-level handler answers. *)
Example constructor_fault :
  run (execute_command
         (env_const (Some (Exception "Invalid tenant id")) token_granted
            (inr users_page))
         "me" "GET" None None) (init cfg_default)
  = (init cfg_default, [EvCredential device_credential],
     inr ({[ "success" := PBool false;
             "error" := PStr "Invalid tenant id" ]} : dict)).
Proof. by_evaluation. Qed.

(** A client context that fails on exit, after the request was answered:
    the answer is lost to the top-level handler. *)
Example client_exit_fault :
  run (execute_command
         {| cred_init := λ _, None;
            cred_get_token := λ _ _, token_granted;
            client_enter := None;
            client_exit := Some (Exception "Event loop is closed");
            http_request := λ _, inr users_page |}
         "users" "GET" None None) (init cfg_default)
  = (default_service,
     [EvCredential device_credential;
      EvGetToken device_credential [Config.default_scope];
      EvHttp (request_for GET "users" None {| token := "eyJ0" |})],
     inr ({[ "success" := PBool false;
             "error" := PStr "Event loop is closed" ]} : dict)).
Proof. by_evaluation. Qed.

Lemma client_secret_required_witness :
  reachable cfg_custom (init cfg_custom)
  ∧ Config.mode (auth_config (init cfg_custom)) = Config.ModeCustom
  ∧ truthy_str (client_secret (init cfg_custom)) = false
  ∧ truthy_str None = false
  ∧ run (execute_command (env_const None token_granted (inr users_page))
           "users" "GET" None None) (init cfg_custom)
    = (init cfg_custom, [],
       inr (client_secret_prompt "app-1" "tenant-1")).
Proof.
  assert (reachable cfg_custom (init cfg_custom)) as Hr
    by apply reachable_init.
  repeat (split; [by_evaluation || done|]).
  exact (proj1 (client_secret_required cfg_custom
                  (env_const None token_granted (inr users_page))
                  "users" "GET" None None (init cfg_custom)
                  Hr eq_refl eq_refl eq_refl)).
Defined.

(** Against C2 as stated: the call is cancelled while the token is
    awaited.  [asyncio.CancelledError] is no instance of [Exception], so
    neither the handlers of the token request nor the top-level handler
    catch it: the call returns no dictionary, the exception reaches the
    caller. *)
Lemma cancellation_leaves_execute_command :
  let env := env_const None token_cancelled (inr users_page) in
  let out :=
    run (execute_command env "me" "GET" None None) (init cfg_default) in
  is_Exception (BaseException "") = false
  ∧ out.2 = inl (BaseException "")
  ∧ ∀ d, out.2 ≠ inr d.
Proof.
  intros env out.
  assert (out.2 = inl (BaseException "")) as Hout
    by (vm_compute; reflexivity).
  split; [reflexivity|]. split; [exact Hout|].
  intros d. by rewrite Hout.
Qed.


(** Against C4 as stated: under the client-secret strategy, a token
    request that exceeds the wait ceiling returns the timeout failure and
    keeps the credential, so that the next call, given the corrected
    secret, still requests its token from the credential built with the
    wrong one. *)
Lemma timeout_keeps_client_secret_credential :
  let out :=
    run (execute_command (env_const None token_timeout (inr users_page))
           "users" "GET" None (Some "wrong-secret")) (init cfg_custom) in
  Config.auth_mode (auth_config (init cfg_custom)) = Config.ClientSecret
  ∧ out.2 = inr timeout_result
  ∧ credential out.1.1 = Some (custom_credential "wrong-secret")
  ∧ (run (execute_command (env_const None token_granted (inr users_page))
            "users" "GET" None (Some "right-secret")) out.1.1).1.2
    = [EvGetToken (custom_credential "wrong-secret") [Config.default_scope];
       EvHttp (request_for GET "users" None {| token := "eyJ0" |})].
Proof. by_evaluation. Qed.

(** Against C5 as stated: a first call leaves a device code and no
    credential (the provider asked for the code, then the request failed);
    in the second call the constructor of the credential raises, the call
    returns before the reset, and the device code of the first call is
    still in the object. *)
Lemma stale_device_code_survives :
  let first :=
    run (execute_command
           (env_const None token_prompt_then_error (inr users_page))
           "me" "GET" None None) (init cfg_default) in
  let second :=
    run (execute_command
           (env_const (Some (Exception "invalid authority")) token_granted
              (inr users_page))
           "me" "GET" None None) first.1.1 in
  device_code_info first.1.1 = Some sample_device_code
  ∧ credential first.1.1 = None
  ∧ second.1.2 = [EvCredential device_credential]
  ∧ second.2 = inr (fault_result (Exception "invalid authority"))
  ∧ device_code_info second.1.1 = Some sample_device_code.
Proof. by_evaluation. Qed.

Lemma acquisition_error_discards_credential_witness :
  let env := env_const None token_rejected (inr users_page) in
  let env' := env_const None token_granted (inr users_page) in
  let out :=
    run (execute_command env "users" "GET" None (Some "wrong-secret"))
      (init cfg_custom) in
  reachable cfg_custom (init cfg_custom)
  ∧ Config.mode (auth_config (init cfg_custom)) = Config.ModeCustom
  ∧ credential out.1.1 = None
  ∧ ∃ rest,
      (run (execute_command env' "users" "GET" None (Some "right-secret"))
         out.1.1).1.2
      = EvCredential (custom_credential "right-secret") :: rest.
Proof.
  intros env env' out.
  assert (reachable cfg_custom (init cfg_custom)) as Hr
    by apply reachable_init.
  split; [done|]. split; [reflexivity|].
  destruct (acquisition_error_discards_credential cfg_custom env
              "users" "GET" None (Some "wrong-secret") (init cfg_custom))
    as (_ & _ & Hd).
  destruct (Hd (Exception "AADSTS7000215: Invalid client secret provided.")
              Hr eq_refl (λ _, conj eq_refl (λ _, eq_refl))
              eq_refl eq_refl eq_refl)
    as (Hnone & _ & Hnext).
  split; [exact Hnone|].
  destruct (Hnext env' "users" "GET" None (Some "right-secret"))
    as [_ [rest Hrest]].
  exists rest. exact Hrest.
Defined.

Lemma device_code_pending_on_timeout_witness :
  let env := env_const None token_pending (inr users_page) in
  let out := run (execute_command env "me" "GET" None None)
               (init cfg_default) in
  reachable cfg_default (init cfg_default)
  ∧ Config.mode (auth_config (init cfg_default)) = Config.ModeDefault
  ∧ (credential (init cfg_default) = None →
     cred_init env device_credential = None)
  ∧ cred_get_token env device_credential [Config.default_scope]
    = {| prompt := Some sample_device_code;
         token_result := inl (TimeoutError "") |}
  ∧ out.2 = inr (device_code_result sample_device_code)
  ∧ credential out.1.1 = Some device_credential.
Proof.
  intros env out.
  assert (reachable cfg_default (init cfg_default)) as Hr
    by apply reachable_init.
  split; [done|]. split; [reflexivity|]. split; [done|].
  split; [reflexivity|].
  destruct (device_code_pending_on_timeout cfg_default env
              "me" "GET" None None (init cfg_default) sample_device_code ""
              Hr eq_refl (λ _, eq_refl) eq_refl) as (Hres & Hcred & _).
  split; [exact Hres | exact Hcred].
Defined.


Lemma override_keeps_cached_credential_witness :
  let env := env_const None token_granted (inr users_page) in
  let out := run (execute_command env "users" "GET" None (Some "new-secret"))
               (custom_service "old-secret") in
  credential (custom_service "old-secret")
  = Some (custom_credential "old-secret")
  ∧ truthy_str (Some "new-secret") = true
  ∧ client_secret out.1.1 = Some "new-secret"
  ∧ credential out.1.1 = Some (custom_credential "old-secret")
  ∧ ∃ rest,
      out.1.2
      = EvGetToken (custom_credential "old-secret") [Config.default_scope]
        :: rest.
Proof.
  intros env out.
  split; [reflexivity|]. split; [reflexivity|].
  destruct (override_keeps_cached_credential env "users" "GET" None
              (Some "new-secret") (custom_service "old-secret")
              (custom_credential "old-secret") eq_refl eq_refl)
    as (Hsec & _ & _ & _ & _ & Hev & _).
  split; [exact Hsec|]. split; [by vm_compute|]. exact Hev.
Defined.

Lemma http_error_with_flat_error_member_witness :
  let env := env_const None token_granted (inr flat_error_page) in
  let tok := {| token := "eyJ0" |} in
  let evs1 := [EvCredential device_credential;
               EvGetToken device_credential [Config.default_scope]] in
  run (authenticate env None) (init cfg_default)
  = (default_service, evs1, inr (inr tok))
  ∧ log_fault None = None
  ∧ client_enter env = None
  ∧ client_exit env = None
  ∧ str_upper "GET" = verb_name GET
  ∧ http_request env (request_for GET "users/42" None tok)
    = inr flat_error_page
  ∧ (status_code flat_error_page ∉ [200; 201; 202; 204]%Z)
  ∧ json flat_error_page = inr (PDict flat_error_body)
  ∧ flat_error_body !! "error" = Some (PStr "Not found")
  ∧ is_dict (PStr "Not found") = false
  ∧ run (execute_command env "users/42" "GET" None None) (init cfg_default)
    = (default_service,
       (evs1 ++ [EvHttp (request_for GET "users/42" None tok)])%list,
       inr ({[ "success" := PBool false;
               "error" := PStr "'str' object has no attribute 'get'" ]}
            : dict)).
Proof.
  intros env tok evs1.
  assert (run (authenticate env None) (init cfg_default)
          = (default_service, evs1, inr (inr tok))) as Ha
    by (vm_compute; reflexivity).
  assert (status_code flat_error_page ∉ [200; 201; 202; 204]%Z) as Hs.
  { cbn. rewrite !not_elem_of_cons. repeat split; try discriminate.
    apply not_elem_of_nil. }
  split; [exact Ha|]. split; [reflexivity|].
  split; [reflexivity|]. split; [reflexivity|].
  split; [reflexivity|]. split; [reflexivity|].
  split; [exact Hs|]. split; [reflexivity|]. split; [reflexivity|].
  split; [reflexivity|].
  exact (proj1 (http_error_with_flat_error_member env "users/42" "GET" None
                  None (init cfg_default) default_service evs1 tok GET
                  flat_error_page flat_error_body
                  (PStr "Not found") Ha eq_refl eq_refl eq_refl eq_refl
                  eq_refl Hs eq_refl eq_refl eq_refl)).
Defined.

End Samples.

(** ** config.py: the secret aliases and the field validators *)

Section ConfigValidators.
Context `{PyBuiltins}.

Lemma first_non_empty_secret (s : Config.Settings) secret :
  Config.first_non_empty
    [Config.client_secret s; Config.custom_client_secret s;
     Config.graph_client_secret s] = Some secret →
  Config.get_client_secret s = Some secret ∧ truthy_str (Some secret) = true.
Proof.
  unfold Config.get_client_secret, py_or.
  destruct (Config.client_secret s) as [[|a x]|],
    (Config.custom_client_secret s) as [[|b y]|],
    (Config.graph_client_secret s) as [[|c z]|]; cbn; by intros [= <-].
Qed.

(** X1. [get_client_secret] gives the first of [CLIENT_SECRET],
    [CUSTOM_CLIENT_SECRET] and [GRAPH_CLIENT_SECRET] that is set and not
    empty; when there is none its value is falsy, and it is then the
    value of the last alias as it stands ([None] or the empty string). *)
Theorem get_client_secret_precedence (s : Config.Settings) :
  match Config.first_non_empty
          [Config.client_secret s; Config.custom_client_secret s;
           Config.graph_client_secret s] with
  | Some v =>
      Config.get_client_secret s = Some v ∧ truthy_str (Some v) = true
  | None =>
      truthy_str (Config.get_client_secret s) = false
      ∧ Config.get_client_secret s = Config.graph_client_secret s
  end.
Proof.
  unfold Config.get_client_secret, py_or.
  destruct (Config.client_secret s) as [[|a x]|],
    (Config.custom_client_secret s) as [[|b y]|],
    (Config.graph_client_secret s) as [[|c z]|]; cbn; done.
Qed.

(** X2. [validate_log_level], for a [str.upper] that leaves the five level
    names as they are: a value it returns is the upper-cased input, is one
    of the five names, and is accepted unchanged when validated again;
    otherwise the upper-cased input is none of the names and the
    [ValueError] quotes the input as it was given. *)
Theorem validate_log_level_canonical (v : string) :
  (∀ l, l ∈ Config.valid_levels → str_upper l = l) →
  match Config.validate_log_level v with
  | inr l =>
      l = str_upper v ∧ l ∈ Config.valid_levels
      ∧ Config.validate_log_level l = inr l
  | inl msg =>
      (str_upper v ∉ Config.valid_levels)
      ∧ msg = "Invalid log level: " +:+ v
              +:+ ". Must be one of ['DEBUG', 'INFO', 'WARNING', 'ERROR', 'CRITICAL']"
  end.
Proof.
  intros Hup. unfold Config.validate_log_level.
  destruct (bool_decide (str_upper v ∉ Config.valid_levels)) eqn:E.
  - by apply bool_decide_eq_true in E.
  - apply bool_decide_eq_false in E. apply dec_stable in E.
    split; [done|]. split; [done|].
    rewrite (Hup _ E). by rewrite bool_decide_eq_false_2 by (by intros []).
Qed.

Lemma split_nonempty sep s : Config.split sep s ≠ [].
Proof.
  destruct s as [|c s]; cbn; [done|].
  destruct (Ascii.eqb c sep); [done|]. by destruct (Config.split sep s).
Qed.

Lemma split_length sep s :
  length (Config.split sep s) = S (count_char sep s).
Proof.
  induction s as [|c s IH]; [done|]. cbn.
  destruct (Ascii.eqb c sep); cbn; [by rewrite IH|].
  pose proof (split_nonempty sep s).
  destruct (Config.split sep s); [done|]. cbn in *. done.
Qed.

Lemma split_concat sep s :
  String.concat (String sep EmptyString) (Config.split sep s) = s.
Proof.
  induction s as [|c s IH]; [done|]. cbn [Config.split].
  destruct (Ascii.eqb c sep) eqn:E.
  - apply Ascii.eqb_eq in E as ->.
    pose proof (split_nonempty sep s).
    cbn. destruct (Config.split sep s) eqn:Es; [done|]. cbn in *.
    by rewrite IH.
  - pose proof (split_nonempty sep s).
    destruct (Config.split sep s) as [|p [|q rest]] eqn:Es; [done|..];
      cbn in *; by rewrite <- IH.
Qed.

Lemma split_no_sep sep s piece :
  piece ∈ Config.split sep s → count_char sep piece = 0.
Proof.
  revert piece. induction s as [|c s IH]; intros piece; cbn [Config.split].
  - by intros ->%list_elem_of_singleton.
  - destruct (Ascii.eqb c sep) eqn:E.
    + intros [->|Hin]%elem_of_cons; [done|]. by apply IH.
    + pose proof (split_nonempty sep s).
      destruct (Config.split sep s) as [|p rest]; [done|].
      intros [->|Hin]%elem_of_cons.
      * cbn. rewrite E. cbn. apply IH. by left.
      * apply IH. by right.
Qed.

Lemma count_char_app c a b :
  count_char c (a +:+ b) = count_char c a + count_char c b.
Proof.
  induction a as [|x a IH]; [done|].
  change (String x a +:+ b) with (String x (a +:+ b)). cbn. rewrite IH. lia.
Qed.

(** X3. [validate_graph_scopes], for a [str.strip] that returns a part of
    its argument: a string gives one scope for each piece between commas,
    so one more than it has commas and never none (the empty string gives
    one scope); no scope holds a comma; the scopes are the stripped
    pieces, and the pieces joined by commas are the string.  A list comes
    back as it is. *)
Theorem validate_graph_scopes_pieces (str_strip : string → string)
    (text : string) :
  (∀ s, occurs_in (str_strip s) s) →
  let scopes := Config.validate_graph_scopes str_strip (inl text) in
  length scopes = S (count_char "," text)
  ∧ Forall (λ scope, count_char "," scope = 0) scopes
  ∧ (∃ pieces,
       scopes = str_strip <$> pieces ∧ String.concat "," pieces = text)
  ∧ ∀ l, Config.validate_graph_scopes str_strip (inr l) = l.
Proof.
  intros Hstrip scopes. subst scopes. unfold Config.validate_graph_scopes.
  split; [by rewrite length_fmap, split_length|].
  split; [|split; [|done]].
  - apply Forall_fmap, Forall_forall. intros piece Hp. cbn.
    apply split_no_sep in Hp.
    destruct (Hstrip piece) as (pre & post & Heq).
    rewrite Heq, !count_char_app in Hp. lia.
  - eexists. split; [done|]. apply split_concat.
Qed.

(** X4. A service built from settings that resolve to a custom
    registration and hold a secret in some alias starts its first call,
    given no secret of its own, by constructing the client-secret
    credential with the first non-empty alias, which stays the stored
    secret: it never asks for one. *)
Theorem configured_secret_is_used cfg env command method data secret :
  Config.mode (Config.get_auth_config cfg) = Config.ModeCustom →
  Config.first_non_empty
    [Config.client_secret cfg; Config.custom_client_secret cfg;
     Config.graph_client_secret cfg] = Some secret →
  let out := run (execute_command env command method data None) (init cfg) in
  client_secret out.1.1 = Some secret
  ∧ ∃ rest,
      out.1.2
      = EvCredential
          (ClientSecretCredential
             (Config.tenant_id (Config.get_auth_config cfg))
             (Config.client_id (Config.get_auth_config cfg)) (Some secret))
        :: rest.
Proof.
  intros Hm Hs out.
  destruct (first_non_empty_secret cfg secret Hs) as [Hg Ht].
  destruct (execute_command_outcome env command method data None (init cfg))
    as (s' & evs & d & Hrun & Hc).
  subst out. rewrite Hrun. cbn [fst snd]. split.
  - apply call_outcome_client_secret in Hc as [-> _].
    unfold stored_secret. cbn. done.
  - apply call_constructs_credential in Hc; [|done|done|].
    + unfold stored_secret in Hc. cbn in Hc. by rewrite Hg in Hc.
    + unfold stored_secret. cbn. by rewrite Hg.
Qed.

End ConfigValidators.

(** ** The executor: the order of its effects *)

Section Effects.
Context `{PyBuiltins}.

Lemma request_outcome_sent env command method data tok evs x :
  request_outcome env command method data tok evs x →
  evs = []
  ∨ ∃ v, client_enter env = None ∧ str_upper method = verb_name v
         ∧ evs = [EvHttp (request_for v command data tok)].
Proof.
  inversion 1 as [| |? ? ? ? ? ? Hb|? ? ? ? ? Hb]; subst; [by left..| |];
    inversion Hb; subst; eauto.
Qed.

Lemma auth_outcome_split env o s s' a r :
  auth_outcome env o s s' a r →
  let c := credential_for_call s o in
  let scopes := Config.scopes (auth_config s) in
  ∃ creds toks,
    a = (creds ++ toks)%list
    ∧ (creds = [] ∨ credential s = None ∧ creds = [EvCredential c])
    ∧ (toks = []
       ∨ toks = [EvGetToken c scopes]
         ∧ (credential s = None → creds = [EvCredential c]))
    ∧ ∀ tok, r = inr (inr tok) →
        toks = [EvGetToken c scopes]
        ∧ token_result (cred_get_token env c scopes) = inr tok.
Proof.
  intros Ha c scopes.
  assert (∀ (P : Prop), credential_ready env o s → P →
          ∃ creds toks,
            token_events s c = (creds ++ toks)%list
            ∧ (creds = [] ∨ credential s = None ∧ creds = [EvCredential c])
            ∧ (toks = []
               ∨ toks = [EvGetToken c scopes]
                 ∧ (credential s = None → creds = [EvCredential c]))
            ∧ toks = [EvGetToken c scopes] ∧ P) as Htok.
  { intros P _ HP. unfold token_events. destruct (credential s) eqn:Hcr.
    - exists [], [EvGetToken c scopes]. split; [done|]. split; [by left|].
      split; [|done]. right. split; [done|]. congruence.
    - exists [EvCredential c], [EvGetToken c scopes]. split; [done|].
      split; [by right|]. split; [|done]. by right. }
  inversion Ha as [Hn Hm Hs|e Hn Hs Hi|t c' Hr Ht|msg c' Hr Ht|e c' Hr Ht Hx
                   |e c' Hr Ht He Hx];
    subst; try subst c'.
  - exists [], []. split; [done|]. split; [by left|]. split; [by left|]. done.
  - exists [EvCredential c], []. split; [done|]. split; [by right|].
    split; [by left|]. done.
  - destruct (Htok _ Hr Ht) as (creds & toks & E & ? & ? & ? & ?).
    exists creds, toks. do 3 (split; [done|]). by intros ? [= <-].
  - destruct (Htok _ Hr Ht) as (creds & toks & E & ? & ? & ? & ?).
    exists creds, toks. by do 3 (split; [done|]).
  - destruct (Htok _ Hr Ht) as (creds & toks & E & ? & ? & ? & ?).
    exists creds, toks. by do 3 (split; [done|]).
  - destruct (Htok _ Hr Ht) as (creds & toks & E & ? & ? & ? & ?).
    exists creds, toks. by do 3 (split; [done|]).
Qed.

Lemma call_outcome_order env command method data override s s' evs d :
  call_outcome env command method data override s s' evs d →
  let c := credential_for_call s override in
  let scopes := Config.scopes (auth_config s) in
  ∃ creds toks https,
    evs = (creds ++ toks ++ https)%list
    ∧ (creds = [] ∨ credential s = None ∧ creds = [EvCredential c])
    ∧ (toks = []
       ∨ toks = [EvGetToken c scopes]
         ∧ (credential s = None → creds = [EvCredential c]))
    ∧ (https = []
       ∨ ∃ v tok,
           toks = [EvGetToken c scopes]
           ∧ token_result (cred_get_token env c scopes) = inr tok
           ∧ client_enter env = None
           ∧ str_upper method = verb_name v
           ∧ https = [EvHttp (request_for v command data tok)]).
Proof.
  intros Hc c scopes.
  inversion Hc as [? ? e Ha|? ? ? Ha|? ? tok evs' e Ha Hr|? ? tok evs' ? Ha Hr];
    subst.
  1,2: destruct (auth_outcome_split _ _ _ _ _ _ Ha)
         as (creds & toks & -> & ? & ? & _);
       exists creds, toks, []; rewrite !app_nil_r; eauto.
  all: destruct (auth_outcome_split _ _ _ _ _ _ Ha)
         as (creds & toks & -> & ? & ? & Htok);
       destruct (Htok tok eq_refl) as [? ?];
       exists creds, toks, evs'; rewrite <- app_assoc;
       repeat (split; [done|]);
       apply request_outcome_sent in Hr as [->|(v & ? & ? & ->)];
       [by left|right; eauto 8].
Qed.

(** X5. What a call does to the outside, in order: at most one
    construction of a credential (only when none is cached), then at most
    one token request (of the credential of the call, for the configured
    scopes, and never without a credential constructed or cached), then at
    most one HTTP request.  An HTTP request is sent only when the token
    request of this call returned a token; it is the request of the verb
    that [method] names, and it carries that token. *)
Theorem call_events_in_order env command method data override s :
  let out := run (execute_command env command method data override) s in
  let c := credential_for_call s override in
  let scopes := Config.scopes (auth_config s) in
  ∃ creds toks https,
    out.1.2 = (creds ++ toks ++ https)%list
    ∧ (creds = [] ∨ credential s = None ∧ creds = [EvCredential c])
    ∧ (toks = []
       ∨ toks = [EvGetToken c scopes]
         ∧ (credential s = None → creds = [EvCredential c]))
    ∧ (https = []
       ∨ ∃ v tok,
           toks = [EvGetToken c scopes]
           ∧ token_result (cred_get_token env c scopes) = inr tok
           ∧ client_enter env = None
           ∧ str_upper method = verb_name v
           ∧ https = [EvHttp (request_for v command data tok)]).
Proof.
  intros out.
  destruct (execute_command_outcome env command method data override s)
    as (s' & evs & d & Hrun & Hc).
  subst out. rewrite Hrun. cbn [fst snd].
  by apply (call_outcome_order _ _ _ _ _ _ _ _ _ Hc).
Qed.

(** X6. Nothing after the token request touches the service object: the
    object a call leaves is the one its authentication stage left,
    whatever the request and the response do. *)
Theorem request_stage_keeps_object env command method data override s :
  (run (execute_command env command method data override) s).1.1
  = (run (authenticate env override) s).1.1.
Proof.
  destruct (run (authenticate env override) s) as [[s1 evs1] r] eqn:Ha.
  destruct r as [e|[d|tok]].
  - apply run_world in Ha. unfold run.
    by rewrite execute_command_unfold, Ha.
  - apply run_world in Ha. unfold run.
    by rewrite execute_command_unfold, Ha.
  - destruct (execute_command_with_token env command method data _ _ _ _ _ Ha)
      as (evs & x & _ & ->). done.
Qed.

Lemma call_outcome_settings env command method data o s s' evs d :
  call_outcome env command method data o s s' evs d →
  settings s' = settings s.
Proof.
  intros (a & h & r & Ha & _)%call_outcome_events.
  apply auth_outcome_shape in Ha. cbv zeta in Ha.
  destruct Ha as [(_ & _ & -> & _)|(_ & _ & kept & -> & _)].
  - by destruct (store_secret_fields o s) as (-> & _).
  - by destruct (after_token_fields env o s kept) as (-> & _).
Qed.

(** X7. The secret of a call is stored first and survives every outcome:
    after the call the object holds the secret given with it when that one
    is non-empty, and the secret it held before otherwise, while its
    settings and its configuration are unchanged.  A call given the empty
    string as secret runs exactly as a call given none. *)
Theorem secret_stored_whatever_the_outcome
    env command method data override s :
  let out := run (execute_command env command method data override) s in
  client_secret out.1.1
  = (if truthy_str override then override else client_secret s)
  ∧ settings out.1.1 = settings s
  ∧ auth_config out.1.1 = auth_config s
  ∧ (truthy_str override = false →
     out = run (execute_command env command method data None) s).
Proof.
  intros out.
  destruct (execute_command_outcome env command method data override s)
    as (s' & evs & d & Hrun & Hc).
  split; [|split; [|split]].
  - subst out. rewrite Hrun. cbn [fst snd].
    by apply call_outcome_client_secret in Hc as [-> _].
  - subst out. rewrite Hrun. cbn [fst snd].
    by apply call_outcome_settings in Hc.
  - subst out. rewrite Hrun. cbn [fst snd].
    by apply call_outcome_client_secret in Hc as [_ ->].
  - clear. by destruct override as [[|a x]|].
Qed.

Lemma lstrip_slash_idemp command :
  lstrip_slash (lstrip_slash command) = lstrip_slash command.
Proof.
  induction command as [|c command IH]; [done|].
  unfold lstrip_slash; fold lstrip_slash.
  destruct (decide (c = "/"%char)) as [->|Hc]; [done|].
  destruct c as [[] [] [] [] [] [] [] []]; try done.
Qed.

Lemma lstrip_slash_no_slash command :
  String.prefix "/" (lstrip_slash command) = false.
Proof.
  induction command as [|c command IH]; [done|].
  unfold lstrip_slash; fold lstrip_slash.
  destruct c as [[] [] [] [] [] [] [] []]; try done.
Qed.

(** X8. Leading slashes of [command] do not count: a call with one more
    slash in front is the same run; the path that follows the base of the
    URL starts with no slash and stripping it again changes nothing; and
    every request a call sends goes to the base followed by that path. *)
Theorem leading_slashes_ignored env command method data override s :
  let out := run (execute_command env command method data override) s in
  run (execute_command env ("/" +:+ command) method data override) s = out
  ∧ lstrip_slash (lstrip_slash command) = lstrip_slash command
  ∧ String.prefix "/" (lstrip_slash command) = false
  ∧ ∀ req,
      EvHttp req ∈ out.1.2 →
      req_url req
      = "https://graph.microsoft.com/v1.0/" +:+ lstrip_slash command.
Proof.
  intros out. split; [done|]. split; [apply lstrip_slash_idemp|].
  split; [apply lstrip_slash_no_slash|].
  intros req Hin.
  destruct (execute_command_outcome env command method data override s)
    as (s' & evs & d & Hrun & Hc).
  subst out. rewrite Hrun in Hin. cbn [fst snd] in Hin.
  destruct (call_outcome_order _ _ _ _ _ _ _ _ _ Hc)
    as (creds & toks & https & -> & Hcr & Ht & Hh).
  rewrite !elem_of_app in Hin. destruct Hin as [Hin|[Hin|Hin]].
  - destruct Hcr as [->|[_ ->]]; [by apply elem_of_nil in Hin|].
    by apply list_elem_of_singleton in Hin.
  - destruct Ht as [->|[-> _]]; [by apply elem_of_nil in Hin|].
    by apply list_elem_of_singleton in Hin.
  - destruct Hh as [->|(v & tok & _ & _ & _ & _ & ->)];
      [by apply elem_of_nil in Hin|].
    by apply list_elem_of_singleton in Hin as [= ->].
Qed.

Lemma contains_unfold sub s :
  contains sub s
  = String.prefix sub s
    || match s with
       | EmptyString => false
       | String _ s' => contains sub s'
       end.
Proof. by destruct s. Qed.

Lemma prefix_append sub post : String.prefix sub (sub +:+ post) = true.
Proof.
  induction sub as [|c sub IH]; [by destruct post|].
  change (String c sub +:+ post) with (String c (sub +:+ post)).
  cbn. rewrite IH. by destruct (ascii_dec c c).
Qed.

Lemma occurs_in_contains sub s : occurs_in sub s → contains sub s = true.
Proof.
  intros (pre & post & ->).
  induction pre as [|c pre IH].
  - change ("" +:+ sub +:+ post) with (sub +:+ post).
    by rewrite contains_unfold, prefix_append.
  - change (String c pre +:+ sub +:+ post)
      with (String c (pre +:+ sub +:+ post)).
    rewrite contains_unfold. cbv iota. rewrite IH. apply orb_true_r.
Qed.

(** X9. How an acquisition error is reported under the client-secret
    strategy.  When the token request ends with an error other than the
    timeout (an instance of [Exception]), the result is the invalid-secret failure, with the message of
    the error as [error_details], exactly when that message holds
    [AADSTS7000215] or [Invalid client secret]; for any other message it
    is the failure [Authentication failed: <message>], without details. *)
Theorem acquisition_error_report cfg env command method data override s e :
  reachable cfg s →
  Config.mode (auth_config s) = Config.ModeCustom →
  credential_ready env override s →
  token_result
    (cred_get_token env (credential_for_call s override)
       (Config.scopes (auth_config s))) = inl e →
  is_timeout e = false →
  is_Exception e = true →
  let out := run (execute_command env command method data override) s in
  let cid := Config.client_id (auth_config s) in
  let tid := Config.tenant_id (auth_config s) in
  (occurs_in "AADSTS7000215" (str_exn e)
   ∨ occurs_in "Invalid client secret" (str_exn e) →
   out.2 = inr (invalid_secret_result cid tid (str_exn e))
   ∧ invalid_secret_result cid tid (str_exn e) !! "error"
     = Some (PStr "Invalid client secret provided")
   ∧ invalid_secret_result cid tid (str_exn e) !! "error_details"
     = Some (PStr (str_exn e)))
  ∧ (¬ (occurs_in "AADSTS7000215" (str_exn e)
        ∨ occurs_in "Invalid client secret" (str_exn e)) →
     out.2 = inr (auth_failed_result (str_exn e))
     ∧ auth_failed_result (str_exn e) !! "error"
       = Some (PStr ("Authentication failed: " +:+ str_exn e))
     ∧ auth_failed_result (str_exn e) !! "error_details" = None).
Proof.
  intros Hr Hm Hready Htok He Hx out cid tid.
  pose proof (auth_error env override s e Hready) as Ha. cbv zeta in Ha.
  specialize (Ha Htok He Hx).
  rewrite (fresh_device_code_custom cfg env override s) in Ha
    by (by apply reachable_inv || done).
  apply authenticate_run, run_world in Ha.
  assert (out.2 = inr (if contains "AADSTS7000215" (str_exn e)
                          || contains "Invalid client secret" (str_exn e)
                       then invalid_secret_result cid tid (str_exn e)
                       else auth_failed_result (str_exn e))) as Hout.
  { subst out. unfold run. rewrite execute_command_unfold, Ha. cbn.
    by destruct (_ || _). }
  split.
  - intros Hocc. split; [|done]. rewrite Hout.
    destruct Hocc as [Ho|Ho]; apply occurs_in_contains in Ho; rewrite Ho;
      by rewrite ?orb_true_r.
  - intros Hno. split; [|done]. rewrite Hout.
    destruct (contains "AADSTS7000215" (str_exn e)) eqn:E1.
    { destruct Hno. left. by apply contains_occurs_in. }
    destruct (contains "Invalid client secret" (str_exn e)) eqn:E2.
    { destruct Hno. right. by apply contains_occurs_in. }
    done.
Qed.

End Effects.

(** ** The executor: the result of a response *)

Section Normalization.
Context `{PyBuiltins}.

Lemma response_result_det r x y :
  response_result r x → response_result r y → x = y.
Proof.
  assert (∀ sc : Z,
            sc ∈ [200; 201; 202]%Z → sc ∉ [200; 201; 202; 204]%Z → False)
    as Hin by (intros sc Hi Hn; apply Hn; set_unfold; tauto).
  assert (∀ sc : Z, sc ∈ [200; 201; 202]%Z → sc = 204%Z → False)
    as H204 by (intros sc Hi ->; set_unfold; intuition discriminate).
  assert (∀ sc : Z, sc ∉ [200; 201; 202; 204]%Z → sc = 204%Z → False)
    as Hn204 by (intros sc Hn ->; apply Hn; set_unfold; tauto).
  destruct 1; inversion 1; subst;
    try done;
    try (exfalso; eauto; fail);
    try congruence.
  all: try match goal with
         | E1 : json ?r = _, E2 : json ?r = _ |- _ =>
             rewrite E1 in E2; simplify_eq
         end.
  all: try done.
  all: try match goal with
         | E1 : _ !! "error" = Some ?e, E2 : default _ (_ !! "error") = _
           |- _ =>
             rewrite E1 in E2; cbn in E2; subst; done
         end.
  all: try match goal with
         | E1 : default _ (?b !! "error") = _,
           E2 : default _ (?b !! "error") = _ |- _ =>
             rewrite E1 in E2; simplify_eq; done
         end.
Qed.

Lemma response_result_total response : ∃ x, response_result response x.
Proof.
  pose proof (handle_response_outcome response
                {| svc := init cfg_default; trace := [] |}) as Hw.
  unfold wp in Hw. destruct Hw as [_ Hw]. eauto.
Qed.

(** The run of a call that got its token and an answer to its request. *)
Lemma execute_command_response
    env command method data o s s1 evs1 tok v response x :
  run (authenticate env o) s = (s1, evs1, inr (inr tok)) →
  log_fault data = None →
  client_enter env = None → client_exit env = None →
  str_upper method = verb_name v →
  http_request env (request_for v command data tok) = inr response →
  response_result response x →
  run (execute_command env command method data o) s
  = (s1, (evs1 ++ [EvHttp (request_for v command data tok)])%list,
     match x with inl e => top_level e | inr d => inr d end).
Proof.
  intros Ha Hl Hen Hex Hv Hh Hx.
  destruct (execute_command_with_token env command method data _ _ _ _ _ Ha)
    as (evs & y & Hr & ->).
  inversion Hr as [e Hl'|e _ Hen'|e ? r _ _ Hex' _|? r _ _ _ Hb]; subst;
    [congruence..|].
  rewrite (body_outcome_verb _ _ _ _ _ _ _ _ Hv Hb).
  inversion Hb as [Hu|v' e Hv' Hh'|v' response' r Hv' Hh' Hr']; subst.
  - by destruct (Hu v).
  - rewrite Hv in Hv'. apply verb_name_inj in Hv' as <-. congruence.
  - rewrite Hv in Hv'. apply verb_name_inj in Hv' as <-.
    rewrite Hh in Hh'. injection Hh' as <-.
    by rewrite (response_result_det _ _ _ Hr' Hx).
Qed.

(** X10. The result of an answer with status 200, 201, 202 or 204, once
    the token is acquired, when logging the body of the request raises
    nothing and the client context opens and closes without a fault.  The
    object and the events are those of the
    authentication stage followed by the one request.  For 204 the result
    is the fixed success and the body is not read; otherwise the result is
    the success whose data is the parsed body, whatever JSON value that
    is; when the body is not JSON, the success with the fixed message and
    the raw text; and when parsing raises anything else, what the
    top-level handler makes of that exception: the failure built from an
    instance of [Exception], and any other exception let through. *)
Theorem success_status_result
    env command method data override s s1 evs1 tok v response :
  run (authenticate env override) s = (s1, evs1, inr (inr tok)) →
  log_fault data = None →
  client_enter env = None → client_exit env = None →
  str_upper method = verb_name v →
  http_request env (request_for v command data tok) = inr response →
  status_code response ∈ [200; 201; 202; 204]%Z →
  let out := run (execute_command env command method data override) s in
  let sc := status_code response in
  out.1 = (s1, (evs1 ++ [EvHttp (request_for v command data tok)])%list)
  ∧ (sc = 204%Z → out.2 = inr (no_content_result 204))
  ∧ (sc ≠ 204%Z →
     match json response with
     | inr body => out.2 = inr (data_result body sc)
     | inl (JSONDecodeError _) => out.2 = inr (text_result (text response) sc)
     | inl e => out.2 = top_level e
     end).
Proof.
  intros Ha Hl Hen Hex Hv Hh Hs out sc.
  pose proof (execute_command_response env command method data override
                s s1 evs1 tok v response) as Hrun.
  specialize (λ x, Hrun x Ha Hl Hen Hex Hv Hh). fold out in Hrun.
  assert (sc ≠ 204%Z → sc ∈ [200; 201; 202]%Z) as H2xx.
  { subst sc. revert Hs. rewrite !elem_of_cons, elem_of_nil. tauto. }
  split; [|split].
  - destruct (response_result_total response) as [x Hx].
    by rewrite (Hrun x Hx).
  - intros E. rewrite (Hrun _ (resp_no_content response E)).
    subst sc. by rewrite E.
  - intros Hn. specialize (H2xx Hn).
    destruct (json response) as [e|body] eqn:Hj.
    + destruct e as [m|m|m|m|m].
      * by rewrite (Hrun _ (resp_json_fault response _ Hn Hj eq_refl)).
      * by rewrite (Hrun _ (resp_text response _ H2xx Hj)).
      * by rewrite (Hrun _ (resp_json_fault response _ Hn Hj eq_refl)).
      * by rewrite (Hrun _ (resp_json_fault response _ Hn Hj eq_refl)).
      * by rewrite (Hrun _ (resp_json_fault response _ Hn Hj eq_refl)).
    + by rewrite (Hrun _ (resp_data response _ H2xx Hj)).
Qed.

(** X11. The result of an answer with any other status, under the same
    conditions.  A body that is not JSON gives the failure
    [HTTP <status>: <raw text>] with the status code.  A body that is a
    JSON object gives the failure with the status code and the parsed body
    as [error_details], whose message is the raw text when the object has
    no [error] member and, when that member is an object, its [message]
    member (as [str] prints it) or else the raw text.  A body that is JSON
    but no object gives the top-level failure built from the
    [AttributeError], and a parse that raises anything but
    [JSONDecodeError] gives what the top-level handler makes of the
    exception. *)
Theorem error_status_result
    env command method data override s s1 evs1 tok v response :
  run (authenticate env override) s = (s1, evs1, inr (inr tok)) →
  log_fault data = None →
  client_enter env = None → client_exit env = None →
  str_upper method = verb_name v →
  http_request env (request_for v command data tok) = inr response →
  status_code response ∉ [200; 201; 202; 204]%Z →
  let out := run (execute_command env command method data override) s in
  let sc := status_code response in
  (∀ msg, json response = inl (JSONDecodeError msg) →
     out.2 = inr (http_error_text_result sc (text response)))
  ∧ (∀ body, json response = inr (PDict body) →
       (body !! "error" = None →
        out.2 = inr (http_error_result sc (text response) (PDict body)))
       ∧ (∀ error, body !! "error" = Some (PDict error) →
            out.2
            = inr (http_error_result sc
                     (py_str (default (PStr (text response))
                                (error !! "message")))
                     (PDict body))))
  ∧ (∀ body, json response = inr body → is_dict body = false →
       out.2 = inr (fault_result (no_get body)))
  ∧ (∀ e, json response = inl e → is_JSONDecodeError e = false →
       out.2 = top_level e).
Proof.
  intros Ha Hl Hen Hex Hv Hh Hs out sc.
  pose proof (execute_command_response env command method data override
                s s1 evs1 tok v response) as Hrun.
  specialize (λ x, Hrun x Ha Hl Hen Hex Hv Hh). fold out in Hrun.
  split; [|split; [|split]].
  - intros msg Hj. by rewrite (Hrun _ (resp_error_text response _ Hs Hj)).
  - intros body Hj. split.
    + intros He.
      assert (default (PDict ∅) (body !! "error") = PDict ∅) as Hd
        by (by rewrite He).
      by rewrite (Hrun _ (resp_error response body ∅ _ Hs Hj Hd eq_refl)).
    + intros error He.
      assert (default (PDict ∅) (body !! "error") = PDict error) as Hd
        by (by rewrite He).
      by rewrite (Hrun _ (resp_error response body error _ Hs Hj Hd eq_refl)).
  - intros body Hj Hd.
    by rewrite (Hrun _ (resp_body_not_dict response _ Hs Hj Hd)).
  - intros e Hj He.
    by rewrite
      (Hrun _ (resp_json_fault response _ (status_not_204 _ Hs) Hj He)).
Qed.

End Normalization.

(** ** main.py: the tool and the resource handlers *)

Section Tool.
Context `{PyBuiltins}.

Lemma call_tool_unknown env name arguments s :
  name ≠ "graph_command" →
  run (Main.call_tool env name arguments) s
  = (s, [], inl (Exception ("Unknown tool: " +:+ name))).
Proof.
  intros Hn. unfold run, Main.call_tool.
  by apply String.eqb_neq in Hn as ->.
Qed.

(** The formatting code raises instances of [Exception] only: the
    [KeyError] of a missing key and what [json.dumps] raises. *)
Lemma dumps_fault v e : dumps v = inl e → is_Exception e = true.
Proof. unfold dumps. destruct (json_dumps v); by intros [= <-]. Qed.

Lemma item_fault d key e : Main.item d key = inl e → is_Exception e = true.
Proof. unfold Main.item. destruct (d !! key); by intros [= <-]. Qed.

Lemma success_text_fault method command d e :
  Main.success_text method command d = inl e → is_Exception e = true.
Proof.
  unfold Main.success_text. cbv zeta. destruct (truthy _); [|done].
  unfold mbind, Main.sum_bind, mret, Main.sum_ret.
  destruct (Main.item d "data") as [e'|v] eqn:Ei;
    [intros [= <-]; by eapply item_fault|].
  destruct (dumps v) as [e'|j] eqn:Ed; [|done].
  intros [= <-]. by eapply dumps_fault.
Qed.

Lemma error_text_fault method command d e :
  Main.error_text method command d = inl e → is_Exception e = true.
Proof.
  unfold Main.error_text. cbv zeta.
  unfold mbind, Main.sum_bind, mret, Main.sum_ret.
  destruct (truthy (Main.get d "auth_required")
            && truthy (Main.get d "instructions")).
  - destruct (Main.item d "instructions") as [e'|v] eqn:Ei;
      [intros [= <-]; by eapply item_fault|].
    destruct (truthy (Main.get d "error_details")); [|done].
    destruct (Main.item d "error_details") as [e'|v'] eqn:Ei';
      [intros [= <-]; by eapply item_fault|].
    destruct (dumps v') as [e'|j] eqn:Ed; [|done].
    intros [= <-]. by eapply dumps_fault.
  - destruct (truthy (Main.get d "error_details")); [|done].
    destruct (Main.item d "error_details") as [e'|v'] eqn:Ei';
      [intros [= <-]; by eapply item_fault|].
    destruct (dumps v') as [e'|j] eqn:Ed; [|done].
    intros [= <-]. by eapply dumps_fault.
Qed.

Lemma call_tool_graph_command env arguments s s' evs d :
  let command := default "" (Main.command arguments) in
  let method := default "GET" (Main.method arguments) in
  run (execute_command env command method (PDict <$> Main.data arguments)
         (Main.client_secret arguments)) s = (s', evs, inr d) →
  run (Main.call_tool env "graph_command" arguments) s
  = (s', evs,
     inr (text_content
            match (if truthy (Main.get d "success")
                   then Main.success_text method command d
                   else Main.error_text method command d) with
            | inl e => Main.failed_text e
            | inr t => t
            end)).
Proof.
  intros command method Hrun%run_world.
  unfold run, Main.call_tool. cbn [String.eqb Ascii.eqb Bool.eqb negb].
  cbv zeta. unfold try_except, mbind, M_bind.
  fold command method. rewrite Hrun.
  destruct (if truthy _ then _ else _) as [e|t] eqn:Et; [|done].
  assert (is_Exception e = true) as He.
  { destruct (truthy _);
      [by eapply success_text_fault|by eapply error_text_fault]. }
  by destruct e.
Qed.

(** An exception that leaves [execute_command] is no instance of
    [Exception], and [call_tool] lets it through as well. *)
Lemma call_outcome_escape env command method data o s s' evs e :
  call_outcome env command method data o s s' evs (inl e) →
  is_Exception e = false.
Proof.
  intros Hc. remember (inl e : exn + dict) as r eqn:Er.
  destruct Hc; try discriminate; by apply top_level_inl in Er as [? ->].
Qed.

Lemma call_tool_escape env arguments s s' evs e :
  let command := default "" (Main.command arguments) in
  let method := default "GET" (Main.method arguments) in
  run (execute_command env command method (PDict <$> Main.data arguments)
         (Main.client_secret arguments)) s = (s', evs, inl e) →
  is_Exception e = false
  ∧ run (Main.call_tool env "graph_command" arguments) s = (s', evs, inl e).
Proof.
  intros command method Hrun.
  assert (is_Exception e = false) as He.
  { destruct (execute_command_outcome env command method
                (PDict <$> Main.data arguments)
                (Main.client_secret arguments) s)
      as (s2 & evs2 & r & Hrun2 & Hc).
    rewrite Hrun in Hrun2. injection Hrun2 as <- <- <-.
    by apply call_outcome_escape in Hc. }
  split; [done|]. apply run_world in Hrun.
  unfold run, Main.call_tool. cbn [String.eqb Ascii.eqb Bool.eqb negb].
  cbv zeta. unfold try_except, mbind, M_bind.
  fold command method. rewrite Hrun.
  by destruct e.
Qed.

(** What [call_tool] does for [graph_command], by the result of
    [execute_command]. *)
Lemma call_tool_served env arguments s :
  let command := default "" (Main.command arguments) in
  let method := default "GET" (Main.method arguments) in
  let ref :=
    run (execute_command env command method (PDict <$> Main.data arguments)
           (Main.client_secret arguments)) s in
  let out := run (Main.call_tool env "graph_command" arguments) s in
  out.1 = ref.1
  ∧ match ref.2 with
    | inl e => is_Exception e = false ∧ out.2 = inl e
    | inr d =>
        out.2
        = inr (text_content
                 match (if truthy (Main.get d "success")
                        then Main.success_text method command d
                        else Main.error_text method command d) with
                 | inl e => Main.failed_text e
                 | inr t => t
                 end)
    end.
Proof.
  intros command method ref out.
  destruct ref as [[s' evs] [e|d]] eqn:Hrun; subst ref out; cbn [fst snd].
  - destruct (call_tool_escape _ _ _ _ _ _ Hrun) as [He ->]. done.
  - by rewrite (call_tool_graph_command _ _ _ _ _ _ Hrun).
Qed.

Lemma get_lookup d key v : d !! key = Some v → Main.get d key = v.
Proof. unfold Main.get. by intros ->. Qed.

Lemma item_lookup d key v : d !! key = Some v → Main.item d key = inr v.
Proof. unfold Main.item. by intros ->. Qed.

Lemma get_truthy d key :
  truthy (Main.get d key) = true →
  ∃ v, d !! key = Some v ∧ truthy v = true ∧ Main.item d key = inr v.
Proof.
  unfold Main.get, Main.item. destruct (d !! key) as [v|]; [eauto|done].
Qed.

Lemma append_nil_r (s : string) : s +:+ "" = s.
Proof.
  induction s as [|c s IH]; [done|].
  change (String c s +:+ "") with (String c (s +:+ "")). by rewrite IH.
Qed.

Lemma success_text_structured method command d v :
  d !! "data" = Some v →
  Main.success_text method command d
  = let hdr := "✅ **Success** (" +:+ method +:+ " " +:+ command +:+ ")"
               +:+ Main.nl +:+ Main.nl in
    if truthy v then
      match dumps v with
      | inl e => inl e
      | inr j => inr (hdr +:+ "```json" +:+ Main.nl +:+ j +:+ Main.nl +:+ "```")
      end
    else inr (hdr +:+ "Operation completed successfully.").
Proof.
  intros Hd. unfold Main.success_text.
  rewrite (get_lookup _ _ _ Hd), (item_lookup _ _ _ Hd). cbv zeta.
  destruct (truthy v); [|done].
  unfold mbind, Main.sum_bind, mret, Main.sum_ret.
  by destruct (dumps v).
Qed.

Lemma error_text_structured method command d msg :
  d !! "error" = Some (PStr msg) →
  match Main.error_text method command d with
  | inr t => ∃ rest, t = error_header method command msg +:+ rest
  | inl e =>
      ∃ v, d !! "error_details" = Some v ∧ truthy v = true
           ∧ dumps v = inl e
  end.
Proof.
  intros He. unfold Main.error_text. rewrite He.
  change (default (PStr "Unknown error") (Some (PStr msg))) with (PStr msg).
  cbv zeta. cbn [py_str].
  set (base := (_ +:+ "**Error:** " +:+ msg +:+ Main.nl +:+ Main.nl)).
  assert (base = error_header method command msg) as Hbase.
  { subst base. unfold error_header. by rewrite !append_assoc. }
  assert (∃ mid, (if truthy (Main.get d "auth_required")
                     && truthy (Main.get d "instructions")
                  then
                    v ← Main.item d "instructions";
                    mret (base +:+ "**Instructions:**" +:+ Main.nl +:+ py_str v
                          +:+ Main.nl +:+ Main.nl)
                  else mret base) = inr (base +:+ mid)) as [mid ->].
  { destruct (truthy (Main.get d "auth_required")); cbn [andb].
    - destruct (truthy (Main.get d "instructions")) eqn:Ei.
      + apply get_truthy in Ei as (v & _ & _ & ->). by eexists.
      + exists "". by rewrite append_nil_r.
    - exists "". by rewrite append_nil_r. }
  unfold mbind at 1. unfold Main.sum_bind at 1.
  destruct (truthy (Main.get d "error_details")) eqn:Ed.
  - apply get_truthy in Ed as (v & Hv & Ht & ->).
    unfold mbind, Main.sum_bind, mret, Main.sum_ret.
    destruct (dumps v) as [e|j] eqn:Ej; [eauto|].
    rewrite Hbase. eexists. by rewrite !append_assoc.
  - rewrite Hbase. by eexists.
Qed.

Lemma error_text_auth method command d msg instr :
  d !! "error" = Some (PStr msg) →
  d !! "auth_required" = Some (PBool true) →
  d !! "instructions" = Some (PStr instr) →
  truthy_str (Some instr) = true →
  let shown := error_header method command msg +:+ "**Instructions:**"
               +:+ Main.nl +:+ instr +:+ Main.nl +:+ Main.nl in
  Main.error_text method command d
  = if truthy (Main.get d "error_details") then
      v ← Main.item d "error_details";
      j ← dumps v;
      mret (shown +:+ "**Details:**" +:+ Main.nl +:+ "```json" +:+ Main.nl
            +:+ j +:+ Main.nl +:+ "```")
    else mret shown.
Proof.
  intros He Ha Hi Ht shown. unfold Main.error_text.
  rewrite He, (get_lookup _ _ _ Ha), (get_lookup _ _ _ Hi),
    (item_lookup _ _ _ Hi).
  change (default (PStr "Unknown error") (Some (PStr msg))) with (PStr msg).
  cbv zeta. cbn [py_str truthy andb]. rewrite Ht.
  unfold mbind, Main.sum_bind, mret, Main.sum_ret.
  destruct (truthy (Main.get d "error_details")) eqn:Ed.
  - apply get_truthy in Ed as (v & _ & _ & ->).
    destruct (dumps v); [done|].
    f_equal. subst shown. unfold error_header. by rewrite !append_assoc.
  - f_equal. subst shown. unfold error_header. by rewrite !append_assoc.
Qed.

Lemma contains_nonempty sub s :
  contains sub s = true → truthy_str (Some sub) = true →
  truthy_str (Some s) = true.
Proof.
  intros Hc Hs. destruct s; [|done].
  destruct sub; [done|]. by rewrite contains_unfold in Hc.
Qed.

Lemma auth_early_instructions env o s s' evs d :
  auth_outcome env o s s' evs (inr (inl d)) →
  ∃ instr,
    d !! "instructions" = Some (PStr instr)
    ∧ truthy_str (Some instr) = true
    ∧ (d !! "error_details" = None
       ∨ ∃ m, d !! "error_details" = Some (PStr m)
              ∧ truthy_str (Some m) = true).
Proof.
  inversion 1; subst.
  - eexists. split; [reflexivity|]. split; [reflexivity|]. by left.
  - destruct (fresh_device_code _ _ _);
      (eexists; split; [reflexivity|]; split; [reflexivity|]; by left).
  - destruct (fresh_device_code _ _ _);
      [eexists; split; [reflexivity|]; split; [reflexivity|]; by left|].
    destruct (_ || _) eqn:Hm.
    + eexists. split; [reflexivity|]. split; [reflexivity|]. right.
      eexists. split; [reflexivity|].
      apply orb_true_iff in Hm as [Hm|Hm];
        by apply (contains_nonempty _ _ Hm).
    + eexists. split; [reflexivity|]. split; [reflexivity|]. by left.
Qed.

Lemma occurs_in_trans a b c : occurs_in a b → occurs_in b c → occurs_in a c.
Proof.
  intros (p & q & ->) (p' & q' & ->).
  exists (p' +:+ p), (q +:+ q'). by rewrite !append_assoc.
Qed.

(** X12. [call_tool] serves one name.  For any other name it raises
    [ValueError("Unknown tool: <name>")] before anything is done: the
    service object is untouched and nothing goes out.  For
    [graph_command] it leaves the object and the events of
    [execute_command] on the arguments, an absent [command] standing for
    the empty string and an absent [method] for [GET]; when
    [execute_command] returns its dictionary, [call_tool] returns exactly
    one text content and raises nothing, and the only exception it lets
    through is one that [execute_command] lets through, which is no
    instance of [Exception]. *)
Theorem call_tool_runs_the_command env name arguments s :
  let out := run (Main.call_tool env name arguments) s in
  let ref :=
    run (execute_command env
           (default "" (Main.command arguments))
           (default "GET" (Main.method arguments))
           (PDict <$> Main.data arguments)
           (Main.client_secret arguments)) s in
  (name ≠ "graph_command" →
   out = (s, [], inl (Exception ("Unknown tool: " +:+ name))))
  ∧ (name = "graph_command" →
     out.1 = ref.1
     ∧ match ref.2 with
       | inr d => ∃ t, out.2 = inr [ {| Main.type := "text"; Main.text := t |} ]
       | inl e => is_Exception e = false ∧ out.2 = inl e
       end).
Proof.
  intros out ref. split.
  - apply call_tool_unknown.
  - intros ->.
    destruct (call_tool_served env arguments s) as [Hw Hr].
    cbv zeta in Hw, Hr. fold out ref in Hw, Hr.
    split; [done|]. destruct ref.2 as [e|d]; [done|]. by eexists.
Qed.

(** X13. The text [call_tool] makes of the result of [execute_command].
    A success gives the success heading followed by the serialized data,
    or by the fixed sentence when the data is falsy (an empty object or
    list, [null], zero, the empty string).  A failure gives the error
    heading followed by the [error] message of the result itself, the
    fallback [Unknown error] never being needed.  The text
    [Tool Execution Failed] appears only when [json.dumps] raised on the
    data or on the error details, and then carries the message of that
    exception.  When [execute_command] returns no result because it let
    an exception through, which is then no instance of [Exception],
    [call_tool] makes no text and lets it through as well. *)
Theorem tool_text_of_result env arguments s :
  let command := default "" (Main.command arguments) in
  let method := default "GET" (Main.method arguments) in
  let ref :=
    run (execute_command env command method (PDict <$> Main.data arguments)
           (Main.client_secret arguments)) s in
  let out := run (Main.call_tool env "graph_command" arguments) s in
  let ok := "✅ **Success** (" +:+ method +:+ " " +:+ command +:+ ")"
            +:+ Main.nl +:+ Main.nl in
  match ref.2 with
  | inl e => is_Exception e = false ∧ out.2 = inl e
  | inr d =>
      ∃ t,
        out.2 = inr [ {| Main.type := "text"; Main.text := t |} ]
        ∧ ((∃ v,
              d !! "success" = Some (PBool true) ∧ d !! "data" = Some v
              ∧ if truthy v then
                  match dumps v with
                  | inr j =>
                      t = ok +:+ "```json" +:+ Main.nl +:+ j +:+ Main.nl
                          +:+ "```"
                  | inl e => t = Main.failed_text e
                  end
                else t = ok +:+ "Operation completed successfully.")
           ∨ (∃ msg,
                d !! "success" = Some (PBool false)
                ∧ d !! "error" = Some (PStr msg)
                ∧ ((∃ rest, t = error_header method command msg +:+ rest)
                   ∨ ∃ v e,
                       d !! "error_details" = Some v
                       ∧ dumps v = inl e
                       ∧ t = Main.failed_text e)))
  end.
Proof.
  intros command method ref out ok.
  destruct (execute_command_outcome env command method
              (PDict <$> Main.data arguments)
              (Main.client_secret arguments) s)
    as (s' & evs & r & Hrun & Hc).
  destruct (call_tool_served env arguments s) as [_ Hr].
  cbv zeta in Hr. fold command method in Hr. fold ref out in Hr.
  subst ref. rewrite Hrun in Hr |- *. cbn [snd] in Hr |- *.
  destruct r as [e|d]; [done|].
  eexists. split; [exact Hr|].
  apply call_outcome_structured in Hc as [[(Hs & [v Hv] & _)|[Hs [msg He]]] _].
  - left. exists v. split; [done|]. split; [done|].
    rewrite (get_lookup _ _ _ Hs). cbn [truthy].
    rewrite (success_text_structured _ _ _ _ Hv). cbv zeta. fold ok.
    destruct (truthy v); [|done]. by destruct (dumps v).
  - right. exists msg. split; [done|]. split; [done|].
    rewrite (get_lookup _ _ _ Hs). cbn [truthy].
    pose proof (error_text_structured method command d msg He) as Ht.
    destruct (Main.error_text method command d) as [e|t].
    + right. destruct Ht as (v & ? & _ & ?). by exists v, e.
    + by left.
Qed.

(** X14. The failures of the authentication stage reach the user with
    their instructions.  When a call ends before the request with a
    result of that stage (the prompt for the secret, a pending device
    code, a timeout, a rejected secret, another authentication error),
    the tool leaves the object and the events of the stage and returns the
    error heading, the error message and the instructions of the result,
    followed by the serialized details when the result has any (and
    [Tool Execution Failed] if serializing them raised).  For a pending
    device code the text holds the verification URL and the user code. *)
Theorem auth_instructions_reach_the_user env arguments s s' evs d :
  run (authenticate env (Main.client_secret arguments)) s
  = (s', evs, inr (inl d)) →
  let command := default "" (Main.command arguments) in
  let method := default "GET" (Main.method arguments) in
  let out := run (Main.call_tool env "graph_command" arguments) s in
  ∃ msg instr t,
    d !! "error" = Some (PStr msg)
    ∧ d !! "instructions" = Some (PStr instr)
    ∧ out = (s', evs, inr [ {| Main.type := "text"; Main.text := t |} ])
    ∧ let shown := error_header method command msg +:+ "**Instructions:**"
                   +:+ Main.nl +:+ instr +:+ Main.nl +:+ Main.nl in
      match d !! "error_details" with
      | None => t = shown
      | Some v =>
          match dumps v with
          | inr j =>
              t = shown +:+ "**Details:**" +:+ Main.nl +:+ "```json"
                  +:+ Main.nl +:+ j +:+ Main.nl +:+ "```"
          | inl e => t = Main.failed_text e
          end
      end
      ∧ ∀ info,
          d = device_code_result info →
          t = shown
          ∧ occurs_in (verification_uri info) t
          ∧ occurs_in (user_code info) t.
Proof.
  intros Ha command method out.
  pose proof (authenticate_outcome env (Main.client_secret arguments) s) as Ho.
  rewrite Ha in Ho. cbn [fst snd] in Ho.
  destruct (auth_early_failure _ _ _ _ _ _ Ho) as [[Hs [msg He]] Hr].
  destruct (auth_early_instructions _ _ _ _ _ _ Ho) as (instr & Hi & Ht & Hd).
  assert (run (execute_command env command method
                 (PDict <$> Main.data arguments)
                 (Main.client_secret arguments)) s = (s', evs, inr d)) as Hrun.
  { apply run_world in Ha. unfold run.
    by rewrite execute_command_unfold, Ha. }
  exists msg, instr. eexists. split; [done|]. split; [done|].
  subst out. rewrite (call_tool_graph_command _ _ _ _ _ _ Hrun).
  fold command method. split; [reflexivity|]. cbv zeta.
  rewrite (get_lookup _ _ _ Hs). cbn [truthy].
  rewrite (error_text_auth _ _ _ _ _ He Hr Hi Ht). cbv zeta.
  set (shown := error_header method command msg +:+ _).
  assert (d !! "error_details" = None →
          (if truthy (Main.get d "error_details")
           then
             v ← Main.item d "error_details";
             j ← dumps v;
             mret (shown +:+ "**Details:**" +:+ Main.nl +:+ "```json"
                   +:+ Main.nl +:+ j +:+ Main.nl +:+ "```")
           else mret shown) = inr shown) as Hnone.
  { intros Hn. unfold Main.get. by rewrite Hn. }
  split.
  - destruct Hd as [Hn|(m & Hm & Hmt)].
    + rewrite (Hnone Hn), Hn. done.
    + rewrite (get_lookup _ _ _ Hm), (item_lookup _ _ _ Hm), Hm.
      cbn [truthy]. rewrite Hmt.
      unfold mbind, Main.sum_bind, mret, Main.sum_ret.
      by destruct (dumps (PStr m)).
  - intros info ->. rewrite (Hnone eq_refl).
    injection Hi as <-.
    destruct (device_code_instructions_contents info) as (Hu & Hc & _).
    cbv zeta in Hu, Hc.
    assert (occurs_in (device_code_instructions info) shown) as Hin.
    { subst shown. apply occurs_in_app_r.
      apply occurs_in_app_r. apply occurs_in_app_r. apply occurs_in_here. }
    split; [done|]. split; by eapply occurs_in_trans.
Qed.

Lemma reachable_settings cfg s : reachable cfg s → settings s = cfg.
Proof.
  induction 1 as [|s env command method data secret _ IH]; [done|].
  destruct (execute_command_outcome env command method data secret s)
    as (s' & evs & d & -> & Hc).
  cbn [fst]. by rewrite (call_outcome_settings _ _ _ _ _ _ _ _ _ Hc).
Qed.

Lemma session_reachable cfg s : Main.session cfg s → reachable cfg s.
Proof.
  induction 1 as [|s env name arguments _ IH]; [constructor|].
  destruct (decide (name = "graph_command")) as [->|Hn].
  - destruct (call_tool_served env arguments s) as [-> _].
    by constructor.
  - by rewrite (call_tool_unknown _ _ _ _ Hn).
Qed.

(** X15. What holds of the service object throughout a server session,
    that is after [GraphService(settings)] and any sequence of tool calls,
    with any names and arguments and whatever the provider and the API do:
    its settings and its resolved configuration are those of the start; a
    cached credential is the one of the mode, built from the configured
    identifiers, and in custom mode with a non-empty secret, one being
    then stored; and in custom mode no device code is ever stored. *)
Theorem session_invariant cfg s :
  Main.session cfg s →
  settings s = cfg
  ∧ auth_config s = Config.get_auth_config cfg
  ∧ (∀ c, credential s = Some c →
       match Config.mode (auth_config s) with
       | Config.ModeCustom =>
           ∃ secret,
             truthy_str secret = true
             ∧ c = ClientSecretCredential
                     (Config.tenant_id (auth_config s))
                     (Config.client_id (auth_config s)) secret
             ∧ truthy_str (client_secret s) = true
       | Config.ModeDefault =>
           c = DeviceCodeCredential (Config.client_id (auth_config s))
                 (Config.tenant_id (auth_config s))
       end)
  ∧ (Config.mode (auth_config s) = Config.ModeCustom →
     device_code_info s = None).
Proof.
  intros Hs%session_reachable.
  split; [by apply reachable_settings|].
  destruct (reachable_inv cfg s Hs) as (Hcfg & Hcred & Hdev).
  split; [done|]. split; [|done].
  intros c Hc. rewrite Hc in Hcred.
  destruct (Config.mode (auth_config s)); [|done].
  destruct Hcred as [(x & ? & ?) ?]. eauto.
Qed.

(** X16. The tool the server lists is the tool it serves: a name is
    listed by [list_tools] exactly when [call_tool] raises no instance of
    [Exception] for it (for any other name it raises the [ValueError] of
    the unknown tool).  The methods its schema allows are the five verbs the executor
    dispatches, and the default method of the schema is the one
    [call_tool] takes when the arguments name none. *)
Theorem advertised_tool_is_served env arguments s :
  (∀ name,
     (∃ t, t ∈ Main.list_tools ∧ Main.name t = name)
     ↔ ∀ e, (run (Main.call_tool env name arguments) s).2 = inl e →
            is_Exception e = false)
  ∧ ∀ t, t ∈ Main.list_tools →
      schema_member t "method" "enum"
      = Some (PList ((λ v, PStr (verb_name v))
                       <$> [GET; POST; PUT; PATCH; DELETE]))
      ∧ (∀ m, schema_member t "method" "default" = Some (PStr m) →
           Main.call_tool env (Main.name t)
             {| Main.command := Main.command arguments;
                Main.method := None;
                Main.data := Main.data arguments;
                Main.client_secret := Main.client_secret arguments |}
           = Main.call_tool env (Main.name t)
               {| Main.command := Main.command arguments;
                  Main.method := Some m;
                  Main.data := Main.data arguments;
                  Main.client_secret := Main.client_secret arguments |}).
Proof.
  split.
  - intros name. split.
    + intros (t & Ht & <-).
      apply list_elem_of_singleton in Ht as ->.
      change (Main.name _) with "graph_command".
      destruct (call_tool_served env arguments s) as [_ Hr].
      cbv zeta in Hr. intros e He.
      destruct (run (execute_command _ _ _ _ _) s).2 as [e'|d].
      * destruct Hr as [Hx Hr]. rewrite Hr in He. by injection He as <-.
      * by rewrite Hr in He.
    + intros Hc.
      destruct (decide (name = "graph_command")) as [->|Hn].
      * eexists. split; [by apply list_elem_of_singleton|done].
      * rewrite (call_tool_unknown _ _ _ _ Hn) in Hc.
        by specialize (Hc _ eq_refl).
  - intros t ->%list_elem_of_singleton. split; [by vm_compute|].
    intros m Hm. vm_compute in Hm. by injection Hm as <-.
Qed.

(** X17. The resource the server lists is read only through a plain
    string.  Called with a string, [read_resource] returns a text exactly
    for a URI that [list_resources] lists, and raises
    [ValueError("Unknown resource: <uri>")] for any other.  Called with
    the [AnyUrl] that the server passes to the handler, it raises that
    error for every URI, the listed one included: an [AnyUrl] is equal
    to no string. *)
Theorem listed_resource_read_by_string_only uri :
  ((∃ r, r ∈ Main.list_resources ∧ Main.uri r = uri)
   ↔ ∃ content, Main.read_resource (Main.UriStr uri) = inr content)
  ∧ ((∀ r, r ∈ Main.list_resources → Main.uri r ≠ uri) →
     Main.read_resource (Main.UriStr uri)
     = inl (Exception ("Unknown resource: " +:+ uri)))
  ∧ Main.read_resource (Main.AnyUrl uri)
    = inl (Exception ("Unknown resource: " +:+ uri)).
Proof.
  unfold Main.read_resource, Main.list_resources, Main.uri_eq_str,
    Main.uri_text.
  split; [split|split; [|done]].
  - intros (r & ->%list_elem_of_singleton & <-). by eexists.
  - intros [content Hc]. destruct (String.eqb uri "graph://help") eqn:E;
      [|done]. apply String.eqb_eq in E as ->.
    eexists. split; [by apply list_elem_of_singleton|done].
  - intros Hno. destruct (String.eqb uri "graph://help") eqn:E; [|done].
    apply String.eqb_eq in E as ->.
    by destruct (Hno _ (proj2 (list_elem_of_singleton _ _) eq_refl)).
Qed.

End Tool.

(** ** The executor: credentials, timeouts and transport faults *)

Section Faults.
Context `{PyBuiltins}.

Lemma auth_outcome_credential cfg env o s s' evs r :
  inv cfg s →
  auth_outcome env o s s' evs r →
  evs ≠ [] →
  match Config.mode (auth_config s) with
  | Config.ModeCustom =>
      ∃ secret,
        truthy_str secret = true
        ∧ credential_for_call s o
          = ClientSecretCredential (Config.tenant_id (auth_config s))
              (Config.client_id (auth_config s)) secret
  | Config.ModeDefault =>
      credential_for_call s o
      = DeviceCodeCredential (Config.client_id (auth_config s))
          (Config.tenant_id (auth_config s))
  end.
Proof.
  intros Hi Ha Hne.
  assert (credential_ready env o s →
          match Config.mode (auth_config s) with
          | Config.ModeCustom =>
              ∃ secret,
                truthy_str secret = true
                ∧ credential_for_call s o
                  = ClientSecretCredential (Config.tenant_id (auth_config s))
                      (Config.client_id (auth_config s)) secret
          | Config.ModeDefault =>
              credential_for_call s o
              = DeviceCodeCredential (Config.client_id (auth_config s))
                  (Config.tenant_id (auth_config s))
          end) as Hready.
  { intros Hr. pose proof (credential_for_call_inv cfg env o s Hi Hr) as Hc.
    cbv zeta in Hc. destruct (Config.mode (auth_config s)); [|done].
    by destruct Hc as [Hc _]. }
  inversion Ha as [Hn Hm Hs|e Hn Hs Hf|t c' Hr Ht|msg c' Hr Ht|e c' Hr Ht Hx
                   |e c' Hr Ht He Hx];
    subst; [done| |by apply Hready..].
  unfold credential_for_call. rewrite Hn.
  destruct (Config.mode (auth_config s)); [|done].
  eexists. split; [by apply Hs | done].
Qed.

Lemma auth_outcome_credentials env o s s' evs r c :
  auth_outcome env o s s' evs r →
  (EvCredential c ∈ evs ∨ ∃ scopes, EvGetToken c scopes ∈ evs) →
  c = credential_for_call s o ∧ evs ≠ [].
Proof.
  intros Ha Hin. split.
  - apply auth_outcome_shape in Ha. cbv zeta in Ha.
    destruct Ha as [(_ & [(-> & _)| ->] & _)|(_ & -> & _)].
    + destruct Hin as [Hin|[? Hin]]; by apply elem_of_nil in Hin.
    + destruct Hin as [Hin|[? Hin]];
        by apply list_elem_of_singleton in Hin as [= ->].
    + unfold token_events in Hin.
      destruct Hin as [Hin|[? Hin]]; destruct (credential s);
        rewrite ?elem_of_cons, ?elem_of_nil in Hin;
        cbn in Hin; rewrite ?elem_of_cons, ?elem_of_nil in Hin;
        intuition congruence.
  - intros ->. destruct Hin as [Hin|[? Hin]]; by apply elem_of_nil in Hin.
Qed.

(** X18. Every credential a call constructs or asks for a token is the one
    of the resolved configuration: in custom mode a client-secret
    credential of the configured tenant and client with a non-empty
    secret, in default mode the device-code credential of the configured
    client and tenant, whatever the arguments of the call.  Every token is
    requested for the single scope [https://graph.microsoft.com/.default]. *)
Theorem credentials_match_the_configuration
    cfg env command method data override s :
  reachable cfg s →
  let out := run (execute_command env command method data override) s in
  let cfg' := Config.get_auth_config cfg in
  (∀ c,
     (EvCredential c ∈ out.1.2 ∨ ∃ scopes, EvGetToken c scopes ∈ out.1.2) →
     match Config.mode cfg' with
     | Config.ModeCustom =>
         ∃ secret,
           truthy_str secret = true
           ∧ c = ClientSecretCredential (Config.tenant_id cfg')
                   (Config.client_id cfg') secret
     | Config.ModeDefault =>
         c = DeviceCodeCredential (Config.client_id cfg')
               (Config.tenant_id cfg')
     end)
  ∧ ∀ c scopes,
      EvGetToken c scopes ∈ out.1.2 → scopes = [Config.default_scope].
Proof.
  intros Hr out cfg'.
  pose proof (reachable_inv cfg s Hr) as Hi.
  destruct (execute_command_outcome env command method data override s)
    as (s' & evs & d & Hrun & Hc).
  subst out. rewrite Hrun. cbn [fst snd].
  apply call_outcome_events in Hc as (a & h & r & Ha & -> & Hh).
  assert (∀ c,
            (EvCredential c ∈ (a ++ h)%list
             ∨ ∃ scopes, EvGetToken c scopes ∈ (a ++ h)%list) →
            EvCredential c ∈ a ∨ ∃ scopes, EvGetToken c scopes ∈ a) as Hin_a.
  { intros c [Hin|[sc Hin]]; rewrite elem_of_app in Hin;
      (destruct Hin as [Hin|Hin]; [eauto|]);
      destruct Hh as [->|(req & tok & -> & _)];
      (by apply elem_of_nil in Hin)
      || (by apply list_elem_of_singleton in Hin). }
  split.
  - intros c Hin%Hin_a.
    destruct (auth_outcome_credentials _ _ _ _ _ _ _ Ha Hin) as [-> Hne].
    pose proof (auth_outcome_credential cfg _ _ _ _ _ _ Hi Ha Hne) as Hk.
    destruct Hi as (Hcfg & _). rewrite Hcfg in Hk. done.
  - intros c scopes Hin.
    assert (EvGetToken c scopes ∈ a) as Hin'.
    { rewrite elem_of_app in Hin. destruct Hin as [Hin|Hin]; [done|].
      destruct Hh as [->|(req & tok & -> & _)];
        [by apply elem_of_nil in Hin|by apply list_elem_of_singleton in Hin]. }
    apply auth_outcome_shape in Ha. cbv zeta in Ha.
    destruct Ha as [(_ & [(-> & _)| ->] & _)|(_ & -> & _)].
    + by apply elem_of_nil in Hin'.
    + by apply list_elem_of_singleton in Hin'.
    + apply elem_of_token_events in Hin'.
      destruct Hi as (Hcfg & _). rewrite Hcfg in Hin'.
      destruct Hin' as [_ ->]. unfold Config.get_auth_config.
      by repeat case_match.
Qed.

(** X19. Under the client-secret strategy a token request that exceeds the
    wait ceiling gives the failure [Authentication timeout]: no device code
    is stored and no request is sent. *)
Theorem timeout_report cfg env command method data override s msg :
  reachable cfg s →
  Config.mode (auth_config s) = Config.ModeCustom →
  credential_ready env override s →
  token_result
    (cred_get_token env (credential_for_call s override)
       (Config.scopes (auth_config s))) = inl (TimeoutError msg) →
  let out := run (execute_command env command method data override) s in
  out.2 = inr timeout_result
  ∧ timeout_result !! "error" = Some (PStr "Authentication timeout")
  ∧ device_code_info out.1.1 = None
  ∧ Forall (λ e, is_EvHttp e = false) out.1.2.
Proof.
  intros Hr Hm Hready Htok out.
  pose proof (auth_timeout env override s msg Hready) as Ha. cbv zeta in Ha.
  specialize (Ha Htok).
  rewrite (fresh_device_code_custom cfg env override s) in Ha
    by (by apply reachable_inv || done).
  pose proof (auth_outcome_no_http _ _ _ _ _ _ Ha) as Hno.
  apply authenticate_run, run_world in Ha.
  subst out. unfold run. rewrite execute_command_unfold, Ha. cbn [fst snd].
  split; [done|]. split; [done|]. split; [|done]. cbn [svc].
  destruct (after_token_fields env override s
              (Some (credential_for_call s override)))
    as (_ & _ & _ & -> & _).
  apply (fresh_device_code_custom cfg); [by apply reachable_inv|done..].
Qed.

Lemma log_fault_Exception data e :
  log_fault data = Some e → is_Exception e = true.
Proof.
  unfold log_fault. destruct data as [v|]; [|done].
  destruct (truthy v); [|done].
  destruct (dumps v) as [e'|j] eqn:Ed; [|done].
  intros [= <-]. by eapply dumps_fault.
Qed.

(** X20. Faults of the request stage, once the token is acquired.  When
    logging the body of the request raises (the body is truthy and
    [json.dumps] refuses it), nothing is sent and the result is the
    top-level failure built from that exception.  When the HTTP client
    cannot be opened, nothing is sent; when the request itself raises, and
    when closing the client raises, whatever the request had given, the one
    request was sent.  In these three cases the call ends as the top-level
    handler has it: with the failure built from an instance of
    [Exception], and with any other exception let through.  In each case
    the object is the one the authentication stage left. *)
Theorem transport_fault_result
    env command method data override s s1 evs1 tok :
  run (authenticate env override) s = (s1, evs1, inr (inr tok)) →
  let out := run (execute_command env command method data override) s in
  (∀ e, log_fault data = Some e → out = (s1, evs1, inr (fault_result e)))
  ∧ (∀ e,
       log_fault data = None → client_enter env = Some e →
       out = (s1, evs1, top_level e))
  ∧ (∀ e v,
       log_fault data = None →
       client_enter env = None → client_exit env = Some e →
       str_upper method = verb_name v →
       out = (s1, (evs1 ++ [EvHttp (request_for v command data tok)])%list,
              top_level e))
  ∧ (∀ e v,
       log_fault data = None →
       client_enter env = None → client_exit env = None →
       str_upper method = verb_name v →
       http_request env (request_for v command data tok) = inl e →
       out = (s1, (evs1 ++ [EvHttp (request_for v command data tok)])%list,
              top_level e)).
Proof.
  intros Ha out.
  destruct (execute_command_with_token env command method data _ _ _ _ _ Ha)
    as (evs & x & Hr & Hrun).
  subst out. rewrite Hrun. clear Hrun.
  split; [|split; [|split]].
  - intros e Hl.
    inversion Hr as [e' Hl'|e' Hl' _|e' ? r Hl' _ _ _|? r Hl' _ _ _]; subst;
      [|congruence..].
    rewrite Hl in Hl'. injection Hl' as <-. rewrite app_nil_r.
    unfold top_level. by rewrite (log_fault_Exception _ _ Hl).
  - intros e Hl He.
    inversion Hr as [e' Hl'|e' _ He'|e' ? r _ He' _ _|? r _ He' _ _]; subst;
      [congruence| |congruence..].
    rewrite He in He'. injection He' as <-. by rewrite app_nil_r.
  - intros e v Hl Hen Hex Hv.
    inversion Hr as [e' Hl'|e' _ He'|e' ? r _ _ Hex' Hb|? r _ _ Hex' Hb];
      subst; [congruence..| |congruence].
    rewrite Hex in Hex'. injection Hex' as <-.
    by rewrite (body_outcome_verb _ _ _ _ _ _ _ _ Hv Hb).
  - intros e v Hl Hen Hex Hv Hh.
    inversion Hr as [e' Hl'|e' _ He'|e' ? r _ _ Hex' Hb|? r _ _ Hex' Hb];
      subst; [congruence..|].
    rewrite (body_outcome_verb _ _ _ _ _ _ _ _ Hv Hb).
    inversion Hb as [Hu|v' e' Hv' Hh'|v' response' r' Hv' Hh' Hr']; subst.
    + by destruct (Hu v).
    + rewrite Hv in Hv'. apply verb_name_inj in Hv' as <-.
      rewrite Hh in Hh'. by injection Hh' as <-.
    + rewrite Hv in Hv'. apply verb_name_inj in Hv' as <-. congruence.
Qed.

End Faults.

(** ** Further sample runs *)

Lemma lstrip_space_suffix s : ∃ pre, s = pre +:+ lstrip_space s.
Proof.
  induction s as [|c s [pre IH]]; [by exists ""|].
  destruct (decide (c = " "%char)) as [->|Hc].
  - exists (String " " pre). cbn [lstrip_space].
    change (String " " pre +:+ lstrip_space s)
      with (String " " (pre +:+ lstrip_space s)).
    by rewrite <- IH.
  - exists "". destruct c as [[] [] [] [] [] [] [] []]; done.
Qed.

Lemma rstrip_space_prefix s : ∃ post, s = rstrip_space s +:+ post.
Proof.
  induction s as [|c s [post IH]]; [by exists ""|].
  cbn [rstrip_space]. destruct (rstrip_space s) as [|d r] eqn:Er.
  - destruct (Ascii.eqb c " ").
    + by exists (String c s).
    + by exists s.
  - exists post.
    change (String c (String d r) +:+ post)
      with (String c (String d r +:+ post)).
    by rewrite <- IH.
Qed.

Lemma strip_spaces_part s : occurs_in (strip_spaces s) s.
Proof.
  destruct (lstrip_space_suffix s) as [pre Hpre].
  destruct (rstrip_space_prefix (lstrip_space s)) as [post Hpost].
  exists pre, post. unfold strip_spaces. by rewrite <- Hpost.
Qed.

Section MoreSamples.
#[local] Existing Instance sample_builtins.

(** A tool call that names no method is a GET, and its success shows the
    fixed sentence when the API answers with an empty object. *)
Example tool_call_empty_answer :
  (run (Main.call_tool (env_const None token_granted (inr users_page))
          "graph_command" (just_command "/users")) (init cfg_default)).2
  = inr (text_content
           ("✅ **Success** (GET /users)" +:+ Main.nl +:+ Main.nl
            +:+ "Operation completed successfully.")).
Proof. by_evaluation. Qed.

(** The flat error body of a 404 reaches the user as the text of the
    [AttributeError]. *)
Example tool_call_flat_error :
  (run (Main.call_tool (env_const None token_granted (inr flat_error_page))
          "graph_command" (just_command "users/42")) (init cfg_default)).2
  = inr (text_content
           ("❌ **Error** (GET users/42)" +:+ Main.nl +:+ Main.nl
            +:+ "**Error:** 'str' object has no attribute 'get'"
            +:+ Main.nl +:+ Main.nl)).
Proof. by_evaluation. Qed.

(** A tool call cancelled while the token is awaited: the cancellation
    passes both handlers and leaves [call_tool]. *)
Example tool_call_cancelled :
  (run (Main.call_tool (env_const None token_cancelled (inr users_page))
          "graph_command" (just_command "me")) (init cfg_default)).2
  = inl (BaseException "").
Proof. by_evaluation. Qed.

(** A body that [json.dumps] refuses, with a supported verb: nothing is
    sent, and the user reads the text of the [ValueError]. *)
Example tool_call_huge_body :
  run (Main.call_tool (env_const None token_granted (inr users_page))
         "graph_command"
         {| Main.command := Some "users";
            Main.method := Some "POST";
            Main.data := Some {[ "n" := PInt (10 ^ 5000) ]};
            Main.client_secret := None |}) default_service
  = (default_service,
     [EvGetToken device_credential [Config.default_scope]],
     inr (text_content
            ("❌ **Error** (POST users)" +:+ Main.nl +:+ Main.nl
             +:+ "**Error:** Exceeds the limit (4300 digits) for integer string conversion; use sys.set_int_max_str_digits() to increase the limit"
             +:+ Main.nl +:+ Main.nl))).
Proof. by_evaluation. Qed.

(** The help resource as the server asks for it, and as a test that
    passes a string does. *)
Example read_help_resource :
  Main.read_resource (Main.AnyUrl "graph://help")
  = inl (Exception "Unknown resource: graph://help")
  ∧ Main.read_resource (Main.UriStr "graph://help") = inr Main.help_text.
Proof. split; reflexivity. Qed.

Lemma validate_log_level_canonical_witness :
  (∀ l, l ∈ Config.valid_levels → ascii_upper l = l)
  ∧ Config.validate_log_level "info" = inr "INFO"
  ∧ Config.validate_log_level "INFO" = inr "INFO".
Proof.
  assert (∀ l, l ∈ Config.valid_levels → ascii_upper l = l) as Hup.
  { intros l Hl. unfold Config.valid_levels in Hl.
    rewrite !elem_of_cons, elem_of_nil in Hl.
    destruct Hl as [->|[->|[->|[->|[->|[]]]]]]; reflexivity. }
  split; [exact Hup|].
  pose proof (validate_log_level_canonical "info" Hup) as Hw.
  change (Config.validate_log_level "info")
    with (inr "INFO" : string + string) in Hw.
  destruct Hw as (_ & _ & Hw). split; [reflexivity | exact Hw].
Defined.

Lemma validate_graph_scopes_pieces_witness :
  let scopes :=
    Config.validate_graph_scopes strip_spaces (inl "User.Read, Mail.Read ") in
  (∀ s, occurs_in (strip_spaces s) s)
  ∧ scopes = ["User.Read"; "Mail.Read"]
  ∧ length scopes = 2
  ∧ Forall (λ scope, count_char "," scope = 0) scopes.
Proof.
  intros scopes.
  split; [exact strip_spaces_part|]. split; [reflexivity|].
  destruct (validate_graph_scopes_pieces strip_spaces "User.Read, Mail.Read "
              strip_spaces_part) as (Hlen & Hno & _).
  split; [exact Hlen | exact Hno].
Defined.

Lemma configured_secret_is_used_witness :
  let env := env_const None token_granted (inr users_page) in
  let out :=
    run (execute_command env "users" "GET" None None)
      (init cfg_custom_secret) in
  Config.mode (Config.get_auth_config cfg_custom_secret) = Config.ModeCustom
  ∧ Config.first_non_empty
      [Config.client_secret cfg_custom_secret;
       Config.custom_client_secret cfg_custom_secret;
       Config.graph_client_secret cfg_custom_secret] = Some "s3cr3t"
  ∧ client_secret out.1.1 = Some "s3cr3t"
  ∧ ∃ rest, out.1.2 = EvCredential (custom_credential "s3cr3t") :: rest.
Proof.
  intros env out.
  split; [reflexivity|]. split; [reflexivity|].
  exact (configured_secret_is_used cfg_custom_secret env "users" "GET" None
           "s3cr3t" eq_refl eq_refl).
Defined.

Lemma acquisition_error_report_witness :
  let env := env_const None token_rejected (inr users_page) in
  let msg := "AADSTS7000215: Invalid client secret provided." in
  let out :=
    run (execute_command env "users" "GET" None (Some "wrong-secret"))
      (init cfg_custom) in
  reachable cfg_custom (init cfg_custom)
  ∧ Config.mode (auth_config (init cfg_custom)) = Config.ModeCustom
  ∧ credential_ready env (Some "wrong-secret") (init cfg_custom)
  ∧ token_result
      (cred_get_token env
         (credential_for_call (init cfg_custom) (Some "wrong-secret"))
         (Config.scopes (auth_config (init cfg_custom))))
    = inl (Exception msg)
  ∧ is_timeout (Exception msg) = false
  ∧ is_Exception (Exception msg) = true
  ∧ occurs_in "AADSTS7000215" msg
  ∧ out.2 = inr (invalid_secret_result "app-1" "tenant-1" msg).
Proof.
  intros env msg out.
  assert (reachable cfg_custom (init cfg_custom)) as Hr
    by apply reachable_init.
  assert (credential_ready env (Some "wrong-secret") (init cfg_custom))
    as Hready by (intros _; split; [reflexivity|intros _; reflexivity]).
  assert (occurs_in "AADSTS7000215" msg) as Hocc
    by (apply contains_occurs_in; vm_compute; reflexivity).
  split; [exact Hr|]. split; [reflexivity|]. split; [exact Hready|].
  split; [reflexivity|]. split; [reflexivity|]. split; [reflexivity|].
  split; [exact Hocc|].
  destruct (acquisition_error_report cfg_custom env "users" "GET" None
              (Some "wrong-secret") (init cfg_custom) (Exception msg)
              Hr eq_refl Hready eq_refl eq_refl eq_refl) as [Hyes _].
  exact (proj1 (Hyes (or_introl Hocc))).
Defined.

Lemma success_status_result_witness :
  let env := env_const None token_granted (inr users_page) in
  let tok := {| token := "eyJ0" |} in
  let evs1 := [EvCredential device_credential;
               EvGetToken device_credential [Config.default_scope]] in
  let out :=
    run (execute_command env "users" "get" None None) (init cfg_default) in
  run (authenticate env None) (init cfg_default)
  = (default_service, evs1, inr (inr tok))
  ∧ log_fault None = None
  ∧ client_enter env = None
  ∧ client_exit env = None
  ∧ str_upper "get" = verb_name GET
  ∧ http_request env (request_for GET "users" None tok) = inr users_page
  ∧ (status_code users_page ∈ [200; 201; 202; 204]%Z)
  ∧ out.2 = inr (data_result (PDict ∅) 200).
Proof.
  intros env tok evs1 out.
  assert (run (authenticate env None) (init cfg_default)
          = (default_service, evs1, inr (inr tok))) as Ha
    by (vm_compute; reflexivity).
  assert (status_code users_page ∈ [200; 201; 202; 204]%Z) as Hs
    by (cbn; rewrite elem_of_cons; by left).
  split; [exact Ha|]. split; [reflexivity|].
  split; [reflexivity|]. split; [reflexivity|].
  split; [reflexivity|]. split; [reflexivity|]. split; [exact Hs|].
  assert (str_upper "get" = verb_name GET) as Hv by reflexivity.
  destruct (success_status_result env "users" "get" None None
              (init cfg_default) default_service evs1 tok GET users_page
              Ha eq_refl eq_refl eq_refl Hv eq_refl Hs) as (_ & _ & Hd).
  apply Hd. discriminate.
Defined.

Lemma error_status_result_witness :
  let env := env_const None token_granted (inr not_found_page) in
  let tok := {| token := "eyJ0" |} in
  let evs1 := [EvCredential device_credential;
               EvGetToken device_credential [Config.default_scope]] in
  let out :=
    run (execute_command env "users/42" "GET" None None)
      (init cfg_default) in
  run (authenticate env None) (init cfg_default)
  = (default_service, evs1, inr (inr tok))
  ∧ log_fault None = None
  ∧ client_enter env = None
  ∧ client_exit env = None
  ∧ str_upper "GET" = verb_name GET
  ∧ http_request env (request_for GET "users/42" None tok)
    = inr not_found_page
  ∧ (status_code not_found_page ∉ [200; 201; 202; 204]%Z)
  ∧ out.2
    = inr (http_error_result 404 "Resource not found" (PDict not_found_body)).
Proof.
  intros env tok evs1 out.
  assert (run (authenticate env None) (init cfg_default)
          = (default_service, evs1, inr (inr tok))) as Ha
    by (vm_compute; reflexivity).
  assert (status_code not_found_page ∉ [200; 201; 202; 204]%Z) as Hs.
  { cbn. rewrite !not_elem_of_cons. repeat split; try discriminate.
    apply not_elem_of_nil. }
  split; [exact Ha|]. split; [reflexivity|].
  split; [reflexivity|]. split; [reflexivity|].
  split; [reflexivity|]. split; [reflexivity|]. split; [exact Hs|].
  assert (str_upper "GET" = verb_name GET) as Hv by reflexivity.
  destruct (error_status_result env "users/42" "GET" None None
              (init cfg_default) default_service evs1 tok GET not_found_page
              Ha eq_refl eq_refl eq_refl Hv eq_refl Hs) as (_ & Hd & _).
  destruct (Hd not_found_body eq_refl) as [_ He].
  exact (He _ eq_refl).
Defined.

Lemma auth_instructions_reach_the_user_witness :
  let env := env_const None token_pending (inr users_page) in
  let evs := [EvCredential device_credential;
              EvGetToken device_credential [Config.default_scope]] in
  let out :=
    run (Main.call_tool env "graph_command" (just_command "me"))
      (init cfg_default) in
  run (authenticate env None) (init cfg_default)
  = (set_device_code_info (Some sample_device_code) default_service, evs,
     inr (inl (device_code_result sample_device_code)))
  ∧ ∃ t,
      out.2 = inr (text_content t)
      ∧ occurs_in "https://x" t ∧ occurs_in "ABC-123" t.
Proof.
  intros env evs out.
  assert (run (authenticate env None) (init cfg_default)
          = (set_device_code_info (Some sample_device_code) default_service,
             evs, inr (inl (device_code_result sample_device_code)))) as Ha
    by (vm_compute; reflexivity).
  split; [exact Ha|].
  destruct (auth_instructions_reach_the_user env (just_command "me")
              (init cfg_default) _ _ _ Ha)
    as (msg & instr & t & _ & _ & Hout & _ & Hdev).
  exists t. split; [unfold out; by rewrite Hout|].
  destruct (Hdev sample_device_code eq_refl) as (_ & Hu & Hc).
  split; [exact Hu | exact Hc].
Defined.

Lemma session_invariant_witness :
  let env := env_const None token_granted (inr users_page) in
  let s :=
    (run (Main.call_tool env "graph_command" (just_command "me"))
       (init cfg_default)).1.1 in
  Main.session cfg_default s
  ∧ settings s = cfg_default
  ∧ credential s = Some device_credential.
Proof.
  intros env s.
  assert (Main.session cfg_default s) as Hs
    by (apply Main.session_call, Main.session_start).
  split; [exact Hs|].
  split; [exact (proj1 (session_invariant cfg_default s Hs))|].
  vm_compute. reflexivity.
Defined.

Lemma credentials_match_the_configuration_witness :
  let env := env_const None token_granted (inr users_page) in
  let out :=
    run (execute_command env "users" "GET" None (Some "s3cr3t"))
      (init cfg_custom) in
  reachable cfg_custom (init cfg_custom)
  ∧ (EvCredential (custom_credential "s3cr3t") ∈ out.1.2)
  ∧ ∀ c scopes,
      EvGetToken c scopes ∈ out.1.2 → scopes = [Config.default_scope].
Proof.
  intros env out.
  assert (reachable cfg_custom (init cfg_custom)) as Hr
    by apply reachable_init.
  split; [exact Hr|]. split; [by left|].
  exact (proj2 (credentials_match_the_configuration cfg_custom env "users"
                  "GET" None (Some "s3cr3t") (init cfg_custom) Hr)).
Defined.

Lemma timeout_report_witness :
  let env := env_const None token_timeout (inr users_page) in
  let out :=
    run (execute_command env "users" "GET" None (Some "s3cr3t"))
      (init cfg_custom) in
  reachable cfg_custom (init cfg_custom)
  ∧ Config.mode (auth_config (init cfg_custom)) = Config.ModeCustom
  ∧ credential_ready env (Some "s3cr3t") (init cfg_custom)
  ∧ token_result
      (cred_get_token env
         (credential_for_call (init cfg_custom) (Some "s3cr3t"))
         (Config.scopes (auth_config (init cfg_custom))))
    = inl (TimeoutError "")
  ∧ out.2 = inr timeout_result.
Proof.
  intros env out.
  assert (reachable cfg_custom (init cfg_custom)) as Hr
    by apply reachable_init.
  assert (credential_ready env (Some "s3cr3t") (init cfg_custom))
    as Hready by (intros _; split; [reflexivity|intros _; reflexivity]).
  split; [exact Hr|]. split; [reflexivity|]. split; [exact Hready|].
  split; [reflexivity|].
  exact (proj1 (timeout_report cfg_custom env "users" "GET" None
                  (Some "s3cr3t") (init cfg_custom) "" Hr eq_refl Hready
                  eq_refl)).
Defined.

Lemma transport_fault_result_witness :
  let env :=
    env_const None token_granted (inl (Exception "All connection attempts failed")) in
  let tok := {| token := "eyJ0" |} in
  let evs1 := [EvCredential device_credential;
               EvGetToken device_credential [Config.default_scope]] in
  let out :=
    run (execute_command env "me" "GET" None None) (init cfg_default) in
  run (authenticate env None) (init cfg_default)
  = (default_service, evs1, inr (inr tok))
  ∧ out
    = (default_service,
       (evs1 ++ [EvHttp (request_for GET "me" None tok)])%list,
       inr (fault_result (Exception "All connection attempts failed"))).
Proof.
  intros env tok evs1 out.
  assert (run (authenticate env None) (init cfg_default)
          = (default_service, evs1, inr (inr tok))) as Ha
    by (vm_compute; reflexivity).
  split; [exact Ha|].
  assert (str_upper "GET" = verb_name GET) as Hv by reflexivity.
  destruct (transport_fault_result env "me" "GET" None None
              (init cfg_default) default_service evs1 tok Ha)
    as (_ & _ & _ & Hsend).
  exact (Hsend _ GET eq_refl eq_refl eq_refl Hv eq_refl).
Defined.

End MoreSamples.
